(** * The privileged-operation escalation and audit engine

    A shallow embedding of [permission-manager.py] (the Python SDK permission
    manager): the command classifier, the consent prompt, the orchestrator
    [execute_with_escalation], the audit recorder [_log_operation] and the
    summary query [get_audit_summary], together with the part of Python's
    [json] module the audit log goes through; then the operations built on
    the orchestrator ([install_package], [manage_file_permissions],
    [execute_script]) and the convenience class [PythonPrivileges]. *)

From Stdlib Require Import String Ascii.
From Stdlib Require Import List NArith ZArith Bool Lia.
From Stdlib Require Import DecimalN DecimalFacts.
Import ListNotations.

Set Implicit Arguments.
Set Warnings "-register-all,-notation-for-abbreviation".
Local Open Scope N_scope.

(* ================================================================== *)
(** * Python strings *)

(** A Python [str] is a sequence of Unicode code points.  Surrogate code
    points (U+D800..U+DFFF) may occur in a [str] on their own, which matters
    for what [json.loads] returns. *)
Notation codepoint := N (only parsing).
Notation pystr := (list N) (only parsing).

(** An ASCII literal of the source, as a [pystr]. *)
Definition str (s : string) : pystr :=
  map N_of_ascii (list_ascii_of_string s).

Fixpoint str_eqb (a b : pystr) : bool :=
  match a, b with
  | [], [] => true
  | x :: a', y :: b' => (x =? y) && str_eqb a' b'
  | _, _ => false
  end.

(** [x in [a, b, ...]] and [x in {a, b, ...}] for strings. *)
Definition str_in (x : pystr) (l : list pystr) : bool :=
  existsb (str_eqb x) l.

(** [sep.join(parts)] *)
Fixpoint join (sep : pystr) (parts : list pystr) : pystr :=
  match parts with
  | [] => []
  | [p] => p
  | p :: rest => p ++ sep ++ join sep rest
  end.

(** [s.startswith(prefix)] *)
Fixpoint startswith (s prefix : pystr) {struct prefix} : bool :=
  match prefix, s with
  | [], _ => true
  | p :: prefix', c :: s' => (c =? p) && startswith s' prefix'
  | _ :: _, [] => false
  end.

(** [str.lower()].  The only code points whose lower case is an ASCII letter
    are the ASCII capitals and U+212A KELVIN SIGN; the code only ever compares
    a lowered string with ASCII literals, so the other case pairs of Unicode
    are left alone here. *)
Definition lower_cp (c : codepoint) : codepoint :=
  if (65 <=? c) && (c <=? 90) then c + 32
  else if c =? 8490 then 107
  else c.

Definition lower (s : pystr) : pystr := map lower_cp s.

(** [str.isspace()] on one code point, the characters [str.strip()] removes. *)
Definition isspace (c : codepoint) : bool :=
  ((9 <=? c) && (c <=? 13)) || ((28 <=? c) && (c <=? 32))
  || (c =? 133) || (c =? 160) || (c =? 5760)
  || ((8192 <=? c) && (c <=? 8202))
  || (c =? 8232) || (c =? 8233) || (c =? 8239) || (c =? 8287) || (c =? 12288).

Fixpoint lstrip (s : pystr) : pystr :=
  match s with
  | c :: s' => if isspace c then lstrip s' else s
  | [] => []
  end.

Definition strip (s : pystr) : pystr := rev (lstrip (rev (lstrip s))).

(** Decimal rendering of integers, as [str(n)] and [f"{n}"] give it. *)
Fixpoint uint_chars (u : Decimal.uint) : pystr :=
  match u with
  | Decimal.Nil => []
  | Decimal.D0 u => 48 :: uint_chars u
  | Decimal.D1 u => 49 :: uint_chars u
  | Decimal.D2 u => 50 :: uint_chars u
  | Decimal.D3 u => 51 :: uint_chars u
  | Decimal.D4 u => 52 :: uint_chars u
  | Decimal.D5 u => 53 :: uint_chars u
  | Decimal.D6 u => 54 :: uint_chars u
  | Decimal.D7 u => 55 :: uint_chars u
  | Decimal.D8 u => 56 :: uint_chars u
  | Decimal.D9 u => 57 :: uint_chars u
  end.

Definition str_of_N (n : N) : pystr := uint_chars (N.to_uint n).

Definition str_of_Z (z : Z) : pystr :=
  match z with
  | Zneg p => 45 :: str_of_N (Npos p)
  | _ => str_of_N (Z.to_N z)
  end.

(* ================================================================== *)
(** * JSON values *)

Inductive digit := d0 | d1 | d2 | d3 | d4 | d5 | d6 | d7 | d8 | d9.

(** The exponent part of a number literal: [e] or [E], an optional sign
    ([Some true] is [+]) and at least one digit. *)
Record exponent := {
  exp_upper : bool;
  exp_sign : option bool;
  exp_hd : digit;
  exp_tl : list digit
}.

(** A number as [json] reads and writes it: sign, integer part, fraction
    digits (none when the list is empty) and exponent.  A Python [float] is
    carried by its [repr], an [int] by its digits; the code never computes
    with a number it took from the log. *)
Record number := {
  num_neg : bool;
  num_int : N;
  num_frac : list digit;
  num_exp : option exponent
}.

Inductive json :=
| JNull
| JBool (b : bool)
| JNum (n : number)
| JNaN
| JInfinity (negative : bool)
| JStr (s : pystr)
| JArr (items : list json)
| JObj (members : list (pystr * json)).

(** A [dict] with string keys, in insertion order. *)
Definition dict (V : Type) := list (pystr * V).

(** [d[k]] on a dict built from a list of pairs: the last pair for a key is
    the one that stays. *)
Fixpoint dict_get {V} (d : dict V) (k : pystr) : option V :=
  match d with
  | [] => None
  | (k', v) :: d' =>
      match dict_get d' k with
      | Some v' => Some v'
      | None => if str_eqb k' k then Some v else None
      end
  end.

(** [d[k] = v] *)
Fixpoint dict_set {V} (d : dict V) (k : pystr) (v : V) : dict V :=
  match d with
  | [] => [(k, v)]
  | (k', v') :: d' =>
      if str_eqb k' k then (k', v) :: d' else (k', v') :: dict_set d' k v
  end.

(** [d.update(other)] *)
Definition dict_update {V} (d other : dict V) : dict V :=
  fold_left (fun acc kv => dict_set acc (fst kv) (snd kv)) other d.

(* ================================================================== *)
(** * Data model *)

Inductive PermissionLevel := BASIC | ELEVATED | ADMINISTRATIVE.

Inductive OperationResult :=
| SUCCESS
| PERMISSION_DENIED
| ESCALATION_FAILED
| OPERATION_FAILED
| USER_CANCELLED.

(** The [.value] of the two enumerations. *)
Definition level_value (l : PermissionLevel) : pystr :=
  match l with
  | BASIC => str "basic"
  | ELEVATED => str "elevated"
  | ADMINISTRATIVE => str "administrative"
  end.

Definition result_value (r : OperationResult) : pystr :=
  match r with
  | SUCCESS => str "success"
  | PERMISSION_DENIED => str "permission_denied"
  | ESCALATION_FAILED => str "escalation_failed"
  | OPERATION_FAILED => str "operation_failed"
  | USER_CANCELLED => str "user_cancelled"
  end.

Record PrivilegedOperation := {
  command : list pystr;
  description : pystr;
  permission_level : PermissionLevel;
  requires_user_approval : bool;
  timeout : Z;
  working_directory : option pystr;
  environment : option (dict pystr)
}.

(** A [datetime] is carried by its [isoformat()] text; the elapsed time the
    clock reports is a [number]. *)
Record datetime := { isoformat : pystr }.

Module AuditEntry.
Record t := {
  timestamp : datetime;
  operation : pystr;
  permission_level : pystr;
  result : pystr;
  user : pystr;
  details : dict json
}.
End AuditEntry.

(* ================================================================== *)
(** * Effects *)

(** The exceptions the code meets, by the class the [except] clauses
    dispatch on, with the text [str(e)] gives. *)
Inductive exn_class :=
| EOFError
| TimeoutExpired
| PermissionError
| FileNotFoundError
| KeyError
| TypeError
| UnicodeEncodeError
| OtherException.

Record exn := { exn_cls : exn_class; exn_str : pystr }.

(** What the manager does to the outside, in the order it does it.
    [EvLoggerInfo] and [EvLoggerError] are the calls of the logger; [EvStdout]
    is a record of the logger that its stream handler wrote to standard
    output, [EvPrint] a call of [print] that went through. *)
Inductive event :=
| EvLoggerInfo (msg : pystr)
| EvLoggerError (msg : pystr)
| EvPrint (text : pystr)
| EvInput (prompt : pystr)
| EvStdout (text : pystr)
| EvPopen (argv : list pystr) (cwd : option pystr) (env : dict pystr)
| EvCommunicate (timeout_s : Z)
| EvKill
| EvSessionAppend (entry : AuditEntry.t)
| EvFileAppend (line : pystr) (written : bool).

(** The handlers [setup_logging] asks [logging.basicConfig] for: a
    [FileHandler] on the audit log file itself and a [StreamHandler] on
    standard output.  [basicConfig] installs them unless the root logger has
    handlers already, so they are there for the first manager of a process
    and need not be for a later one. *)
Record logging_setup := {
  file_handler : bool;
  stream_handler : bool
}.

(** A process the manager has spawned: still running as far as the manager
    has seen (it has neither collected its exit code nor killed it), exited
    with a code, or killed. *)
Inductive child :=
| Running
| Exited (returncode : Z)
| Killed.

(** The manager object with the part of the world it touches: its own
    fields; the text of the audit log file; the lines still to come on
    standard input; what writing a text to standard output raises, if
    anything; the handlers of the logger; the processes spawned so far, the
    latest first; and the trace of effects. *)
Record state := {
  current_user : pystr;
  is_privileged : bool;
  session_operations : list AuditEntry.t;
  log_file : pystr;
  stdin : list pystr;
  stdout_write : pystr -> option exn;
  handlers : logging_setup;
  children : list child;
  trace : list event
}.

(** What the operating system answers during one call of the orchestrator.
    [write_raises] is what opening the log file, writing the line and
    closing the file raises, if anything, and [write_cut] how many
    characters of the line and its newline reached the file before that.
    [asctime k] is the time the [k]-th record of the logger carries, and
    [handler_cut k] says whether the file handler failed on that record, and
    after how many characters. *)
Record os_response := {
  now_start : datetime;
  elapsed : number;
  environ : dict pystr;
  popen_raises : option exn;
  communicate_result : exn + (pystr * pystr * Z);
  kill_raises : option exn;
  write_raises : option exn;
  write_cut : nat;
  asctime : nat -> pystr;
  handler_cut : nat -> option nat
}.

Inductive outcome (A : Type) :=
| Ret (a : A)
| Raise (e : exn).
Arguments Ret {A} a.
Arguments Raise {A} e.

Definition M (A : Type) := state -> outcome A * state.

Definition ret {A} (a : A) : M A := fun st => (Ret a, st).

Definition raise {A} (e : exn) : M A := fun st => (Raise e, st).

Definition bind {A B} (m : M A) (k : A -> M B) : M B :=
  fun st =>
    match m st with
    | (Ret a, st') => k a st'
    | (Raise e, st') => (Raise e, st')
    end.

(** [try: body  except ...: handler] *)
Definition try_except {A} (body : M A) (handler : exn -> M A) : M A :=
  fun st =>
    match body st with
    | (Ret a, st') => (Ret a, st')
    | (Raise e, st') => handler e st'
    end.

Declare Scope py_scope.
Delimit Scope py_scope with py.
Notation "x <- m ;; k" := (bind m (fun x => k))
  (at level 61, m at next level, right associativity) : py_scope.
Notation "' pat <- m ;; k" := (bind m (fun x => match x with pat => k end))
  (at level 61, pat pattern, m at next level, right associativity) : py_scope.
Notation "m ;; k" := (bind m (fun _ => k))
  (at level 61, right associativity) : py_scope.
Local Open Scope py_scope.

Definition emit (e : event) : M unit :=
  fun st =>
    (Ret tt,
     {| current_user := current_user st;
        is_privileged := is_privileged st;
        session_operations := session_operations st;
        log_file := log_file st;
        stdin := stdin st;
        stdout_write := stdout_write st;
        handlers := handlers st;
        children := children st;
        trace := trace st ++ [e] |}).

Definition get {A} (f : state -> A) : M A := fun st => (Ret (f st), st).

(** A text is appended to the audit log file. *)
Definition append_log (text : pystr) : M unit :=
  fun st =>
    (Ret tt,
     {| current_user := current_user st;
        is_privileged := is_privileged st;
        session_operations := session_operations st;
        log_file := log_file st ++ text;
        stdin := stdin st;
        stdout_write := stdout_write st;
        handlers := handlers st;
        children := children st;
        trace := trace st |}).

(** A record of the logger in the format of [setup_logging],
    [%(asctime)s - %(levelname)s - %(message)s]. *)
Definition format_record (time : pystr) (levelname : string) (msg : pystr) : pystr :=
  time ++ str " - " ++ str levelname ++ str " - " ++ msg.

(** What of a text reached a file: all of it, or its first characters
    where the write failed. *)
Definition reached (cut : option nat) (text : pystr) : pystr :=
  match cut with
  | None => text
  | Some n => firstn n text
  end.

(** What the handlers do with the [k]-th record of a call, the file handler
    first: it appends the record and a newline to the audit log file, and
    the stream handler writes it to standard output.  A handler that cannot
    write swallows the error (the [logging] module reports it on standard
    error), so nothing is raised to the caller of the logger. *)
Definition handle_record (os : os_response) (k : nat) (levelname : string)
    (msg : pystr) : M unit :=
  let text := format_record (asctime os k) levelname msg in
  h <- get handlers ;;
  (if file_handler h then append_log (reached (handler_cut os k) (text ++ [10]))
   else ret tt) ;;
  write <- get stdout_write ;;
  if stream_handler h then
    match write text with
    | None => emit (EvStdout text)
    | Some _ => ret tt
    end
  else ret tt.

(** [self.logger.info(msg)] and [self.logger.error(msg)], as the [k]-th
    record of the call. *)
Definition logger_info (os : os_response) (k : nat) (msg : pystr) : M unit :=
  emit (EvLoggerInfo msg) ;; handle_record os k "INFO" msg.

Definition logger_error (os : os_response) (k : nat) (msg : pystr) : M unit :=
  emit (EvLoggerError msg) ;; handle_record os k "ERROR" msg.

(** [print(text)]: the text goes to standard output, or the write raises,
    as it does with [UnicodeEncodeError] for a character the encoding of
    standard output does not have. *)
Definition print (text : pystr) : M unit :=
  write <- get stdout_write ;;
  match write text with
  | None => emit (EvPrint text)
  | Some e => raise e
  end.

(** [input(prompt)]: the prompt is written to standard output, then the next
    line of standard input is read, [EOFError] at its end. *)
Definition input (prompt : pystr) : M pystr :=
  write <- get stdout_write ;;
  match write prompt with
  | Some e => raise e
  | None =>
      emit (EvInput prompt) ;;
      fun st =>
        match stdin st with
        | [] => (Raise {| exn_cls := EOFError; exn_str := str "EOF when reading a line" |}, st)
        | line :: rest =>
            (Ret line,
             {| current_user := current_user st;
                is_privileged := is_privileged st;
                session_operations := session_operations st;
                log_file := log_file st;
                stdin := rest;
                stdout_write := stdout_write st;
                handlers := handlers st;
                children := children st;
                trace := trace st |})
        end
  end.

(** [self.session_operations.append(entry)] *)
Definition session_append (entry : AuditEntry.t) : M unit :=
  emit (EvSessionAppend entry) ;;
  fun st =>
    (Ret tt,
     {| current_user := current_user st;
        is_privileged := is_privileged st;
        session_operations := session_operations st ++ [entry];
        log_file := log_file st;
        stdin := stdin st;
        stdout_write := stdout_write st;
        handlers := handlers st;
        children := children st;
        trace := trace st |}).

(** [with open(self.log_file, 'a') as f: f.write(line + '\n')] *)
Definition file_append (os : os_response) (line : pystr) : M unit :=
  match write_raises os with
  | Some e =>
      emit (EvFileAppend line false) ;;
      append_log (firstn (write_cut os) (line ++ [10])) ;;
      raise e
  | None => emit (EvFileAppend line true) ;; append_log (line ++ [10])
  end.

(** The fate of the process spawned last is settled. *)
Definition settle (c : child) : M unit :=
  fun st =>
    (Ret tt,
     {| current_user := current_user st;
        is_privileged := is_privileged st;
        session_operations := session_operations st;
        log_file := log_file st;
        stdin := stdin st;
        stdout_write := stdout_write st;
        handlers := handlers st;
        children :=
          match children st with
          | [] => []
          | _ :: earlier => c :: earlier
          end;
        trace := trace st |}).

(** [subprocess.Popen(...)], [process.communicate(timeout=...)] and
    [process.kill()].  A process that was spawned runs until it exits or is
    killed; a [communicate] that raises leaves it running, and so does a
    [kill] that raises. *)
Definition Popen (os : os_response) (argv : list pystr) (cwd : option pystr)
    (env : dict pystr) : M unit :=
  emit (EvPopen argv cwd env) ;;
  match popen_raises os with
  | Some e => raise e
  | None =>
      fun st =>
        (Ret tt,
         {| current_user := current_user st;
            is_privileged := is_privileged st;
            session_operations := session_operations st;
            log_file := log_file st;
            stdin := stdin st;
            stdout_write := stdout_write st;
            handlers := handlers st;
            children := Running :: children st;
            trace := trace st |})
  end.

Definition communicate (os : os_response) (timeout_s : Z) : M (pystr * pystr * Z) :=
  emit (EvCommunicate timeout_s) ;;
  match communicate_result os with
  | inl e => raise e
  | inr (stdout, stderr, returncode) =>
      settle (Exited returncode) ;;
      ret (stdout, stderr, returncode)
  end.

Definition process_kill (os : os_response) : M unit :=
  emit EvKill ;;
  match kill_raises os with
  | Some e => raise e
  | None => settle Killed
  end.

(* ================================================================== *)
(** * json.dumps *)

(** Python's [json.dumps] with its defaults: [ensure_ascii=True], the
    separators [", "] and [": "], keys in insertion order. *)

Definition hex_digit (n : N) : codepoint :=
  if n <? 10 then 48 + n else 87 + n.

(** ['{0:04x}'.format(n)] for [n < 0x10000]. *)
Definition hex4 (n : N) : pystr :=
  [hex_digit (n / 4096 mod 16); hex_digit (n / 256 mod 16);
   hex_digit (n / 16 mod 16); hex_digit (n mod 16)].

Definition backslash_u (n : N) : pystr := 92 :: 117 :: hex4 n.

(** The replacement [py_encode_basestring_ascii] makes for one character. *)
Definition escape_cp (c : codepoint) : pystr :=
  if c =? 34 then [92; 34]
  else if c =? 92 then [92; 92]
  else if c =? 10 then [92; 110]
  else if c =? 13 then [92; 114]
  else if c =? 9 then [92; 116]
  else if c =? 8 then [92; 98]
  else if c =? 12 then [92; 102]
  else if (32 <=? c) && (c <=? 126) then [c]
  else if c <? 65536 then backslash_u c
  else
    let n := c - 65536 in
    backslash_u (N.lor 55296 (N.land (N.shiftr n 10) 1023))
    ++ backslash_u (N.lor 56320 (N.land n 1023)).

Definition encode_basestring_ascii (s : pystr) : pystr :=
  34 :: flat_map escape_cp s ++ [34].

Definition digit_cp (d : digit) : codepoint :=
  match d with
  | d0 => 48 | d1 => 49 | d2 => 50 | d3 => 51 | d4 => 52
  | d5 => 53 | d6 => 54 | d7 => 55 | d8 => 56 | d9 => 57
  end.

Definition dumps_exponent (e : exponent) : pystr :=
  (if exp_upper e then 69 else 101)
  :: match exp_sign e with
     | None => []
     | Some true => [43]
     | Some false => [45]
     end
  ++ map digit_cp (exp_hd e :: exp_tl e).

Definition dumps_number (n : number) : pystr :=
  (if num_neg n then [45] else [])
  ++ str_of_N (num_int n)
  ++ match num_frac n with
     | [] => []
     | _ :: _ => 46 :: map digit_cp (num_frac n)
     end
  ++ match num_exp n with
     | None => []
     | Some e => dumps_exponent e
     end.

Fixpoint json_dumps (v : json) : pystr :=
  match v with
  | JNull => str "null"
  | JBool true => str "true"
  | JBool false => str "false"
  | JNum n => dumps_number n
  | JNaN => str "NaN"
  | JInfinity false => str "Infinity"
  | JInfinity true => str "-Infinity"
  | JStr s => encode_basestring_ascii s
  | JArr items =>
      91 :: join (str ", ") (map json_dumps items) ++ [93]
  | JObj members =>
      123 :: join (str ", ")
               (map (fun kv =>
                       match kv with
                       | (k, x) => encode_basestring_ascii k ++ str ": " ++ json_dumps x
                       end) members)
          ++ [125]
  end.

(* ================================================================== *)
(** * The permission manager *)

(** [check_permission_required] *)
Definition check_permission_required (operation : PrivilegedOperation) : M bool :=
  match permission_level operation with
  | BASIC => ret false
  | _ =>
      privileged <- get is_privileged ;;
      if privileged then ret false else ret true
  end.

Definition elevated_commands : list pystr :=
  map str
    ["sudo"; "doas"; "su"; "apt"; "apt-get"; "yum"; "dnf"; "pacman";
     "systemctl"; "service"; "mount"; "umount"; "fdisk"; "mkfs";
     "useradd"; "usermod"; "userdel"; "chmod"; "chown"; "visudo";
     "pip"; "conda"; "npm"; "yarn"]%string.

Definition admin_commands : list pystr :=
  map str
    ["crontab"; "iptables"; "ufw"; "firewall-cmd"; "sysctl";
     "hostnamectl"; "timedatectl"; "localectl"]%string.

Definition privileged_paths : list pystr :=
  map str ["/etc"; "/usr/local"; "/opt"; "/var"; "/root"]%string.

(** [analyze_command_permissions] *)
Definition analyze_command_permissions (command : list pystr) : PermissionLevel :=
  match command with
  | [] => BASIC
  | first :: _ =>
      let first_cmd := lower first in
      if str_in first_cmd admin_commands then ADMINISTRATIVE
      else if str_in first_cmd elevated_commands then ELEVATED
      else if existsb (fun arg => existsb (fun path => startswith arg path) privileged_paths)
                command
      then ELEVATED
      else BASIC
  end.

Definition proceed_prompt : pystr := str "Do you want to proceed? (y/N): ".

(** The [while True] loop of [request_permission].  Each round reads one line
    of standard input, so the loop ends at the latest where the input does:
    [pending] is the input still to come after this round, which bounds the
    rounds, and when nothing is pending the [input] of the next round raises. *)
Fixpoint prompt_loop (pending : list pystr) : M bool :=
  line <- input proceed_prompt ;;
  let response := lower (strip line) in
  if str_in response [str "y"; str "yes"] then ret true
  else if str_in response [str "n"; str "no"; []] then ret false
  else
    print (str "Please enter 'y' or 'n'") ;;
    match pending with
    | [] => _ <- input proceed_prompt ;; ret false
    | _ :: rest => prompt_loop rest
    end.

(** [request_permission] *)
Definition request_permission (operation : PrivilegedOperation) : M bool :=
  if negb (requires_user_approval operation) then ret true
  else
    print (10 :: 128274 :: str " Privileged Operation Required") ;;
    print (str "Description: " ++ description operation) ;;
    print (str "Command: " ++ join (str " ") (command operation)) ;;
    print (str "Permission Level: " ++ level_value (permission_level operation)) ;;
    match permission_level operation with
    | ADMINISTRATIVE =>
        print (9888 :: 65039 :: str "  This operation makes system-level changes")
    | ELEVATED =>
        print (9888 :: 65039 :: str "  This operation requires elevated privileges")
    | BASIC => ret tt
    end ;;
    pending <- get stdin ;;
    prompt_loop (tl pending).

(** [_log_operation] *)
Definition _log_operation (os : os_response) (operation : PrivilegedOperation)
    (result : OperationResult) (message : pystr) (start_time : datetime) : M unit :=
  user <- get current_user ;;
  let audit_entry :=
    {| AuditEntry.timestamp := start_time;
       AuditEntry.operation := join (str " ") (command operation);
       AuditEntry.permission_level := level_value (permission_level operation);
       AuditEntry.result := result_value result;
       AuditEntry.user := user;
       AuditEntry.details :=
         [(str "description", JStr (description operation));
          (str "duration_seconds", JNum (elapsed os));
          (str "message", JStr message);
          (str "working_directory",
           match working_directory operation with
           | Some d => JStr d
           | None => JNull
           end)] |} in
  session_append audit_entry ;;
  let log_entry :=
    JObj [(str "timestamp", JStr (isoformat (AuditEntry.timestamp audit_entry)));
          (str "operation", JStr (AuditEntry.operation audit_entry));
          (str "permission_level", JStr (AuditEntry.permission_level audit_entry));
          (str "result", JStr (AuditEntry.result audit_entry));
          (str "user", JStr (AuditEntry.user audit_entry));
          (str "details", JObj (AuditEntry.details audit_entry))] in
  try_except
    (file_append os (json_dumps log_entry))
    (fun e => logger_error os 2 (str "Failed to write audit log: " ++ exn_str e)).

(** [try: process.kill()  except: pass] in the handler of the timeout.  When
    it was [Popen] that raised, [process] is not bound and the name error of
    [process.kill()] is swallowed like any other: nothing is killed. *)
Definition kill_spawned (os : os_response) : M unit :=
  match popen_raises os with
  | None => try_except (process_kill os) (fun _ => ret tt)
  | Some _ => ret tt
  end.

(** [execute_with_escalation] *)
Definition execute_with_escalation (os : os_response)
    (operation : PrivilegedOperation) : M (OperationResult * pystr) :=
  let start_time := now_start os in
  logger_info os 0 (str "Attempting privileged operation: " ++ description operation) ;;
  logger_info os 1 (str "Command: " ++ join (str " ") (command operation)) ;;
  needs_escalation <- check_permission_required operation ;;
  approved <- (if needs_escalation then request_permission operation else ret true) ;;
  if needs_escalation && negb approved then
    let result := USER_CANCELLED in
    let message := str "User cancelled the operation" in
    _log_operation os operation result message start_time ;;
    ret (result, message)
  else
    privileged <- get is_privileged ;;
    let argv :=
      if needs_escalation && negb privileged
      then str "sudo" :: command operation
      else command operation in
    let env :=
      match environment operation with
      | Some (kv :: overlay) => dict_update (environ os) (kv :: overlay)
      | _ => environ os
      end in
    '(result, message) <-
      try_except
        (Popen os argv (working_directory operation) env ;;
         '(stdout, stderr, returncode) <- communicate os (timeout operation) ;;
         if (returncode =? 0)%Z
         then ret (SUCCESS,
                   match stdout with
                   | [] => str "Operation completed successfully"
                   | _ => stdout
                   end)
         else ret (OPERATION_FAILED,
                   str "Command failed with return code " ++ str_of_Z returncode
                   ++ str ": " ++ stderr))
        (fun e =>
           match exn_cls e with
           | TimeoutExpired =>
               kill_spawned os ;;
               ret (OPERATION_FAILED,
                    str "Operation timed out after " ++ str_of_Z (timeout operation)
                    ++ str " seconds")
           | PermissionError =>
               ret (PERMISSION_DENIED, str "Permission denied - unable to execute command")
           | _ =>
               ret (OPERATION_FAILED, str "Unexpected error: " ++ exn_str e)
           end) ;;
    _log_operation os operation result message start_time ;;
    ret (result, message).

(** [get_session_history] *)
Definition get_session_history : M (list AuditEntry.t) := get session_operations.

(* ================================================================== *)
(** * json.loads *)

(** Python's [json.loads] with its defaults ([strict=True]): the scanner of
    [json.scanner] with [scanstring], [JSONObject] and [JSONArray] of
    [json.decoder].  [None] stands for [JSONDecodeError]. *)

Definition is_json_ws (c : codepoint) : bool :=
  (c =? 32) || (c =? 9) || (c =? 10) || (c =? 13).

Fixpoint skip_ws (s : pystr) : pystr :=
  match s with
  | c :: s' => if is_json_ws c then skip_ws s' else s
  | [] => []
  end.

Definition hex_value (c : codepoint) : option N :=
  if (48 <=? c) && (c <=? 57) then Some (c - 48)
  else if (97 <=? c) && (c <=? 102) then Some (c - 87)
  else if (65 <=? c) && (c <=? 70) then Some (c - 55)
  else None.

(** The four hexadecimal digits after [\u]. *)
Definition hex4_value (a b c d : codepoint) : option N :=
  match hex_value a, hex_value b, hex_value c, hex_value d with
  | Some x, Some y, Some z, Some w => Some (((x * 16 + y) * 16 + z) * 16 + w)
  | _, _, _, _ => None
  end.

Definition is_high_surrogate (c : codepoint) : bool := (55296 <=? c) && (c <=? 56319).
Definition is_low_surrogate (c : codepoint) : bool := (56320 <=? c) && (c <=? 57343).

Definition join_surrogates (hi lo : codepoint) : codepoint :=
  65536 + N.lor (N.shiftl (hi - 55296) 10) (lo - 56320).

(** The [BACKSLASH] table of the decoder. *)
Definition unescape (c : codepoint) : option codepoint :=
  if c =? 34 then Some 34
  else if c =? 92 then Some 92
  else if c =? 47 then Some 47
  else if c =? 98 then Some 8
  else if c =? 102 then Some 12
  else if c =? 110 then Some 10
  else if c =? 114 then Some 13
  else if c =? 116 then Some 9
  else None.

Definition cons_char (c : codepoint) (r : option (pystr * pystr)) : option (pystr * pystr) :=
  match r with
  | Some (x, rest) => Some (c :: x, rest)
  | None => None
  end.

(** [scanstring], from just after the opening quote: the string and what
    follows its closing quote.  A high surrogate escape directly followed by
    a low surrogate escape is read as the one character the pair encodes. *)
Fixpoint scanstring (s : pystr) : option (pystr * pystr) :=
  match s with
  | [] => None
  | c :: r =>
      if c =? 34 then Some ([], r)
      else if c =? 92 then
        match r with
        | [] => None
        | e :: r1 =>
            if e =? 117 then
              match r1 with
              | h1 :: h2 :: h3 :: h4 :: r2 =>
                  match hex4_value h1 h2 h3 h4 with
                  | None => None
                  | Some uni =>
                      if is_high_surrogate uni then
                        match r2 with
                        | b :: u :: g1 :: g2 :: g3 :: g4 :: r3 =>
                            if (b =? 92) && (u =? 117) then
                              match hex4_value g1 g2 g3 g4 with
                              | None => None
                              | Some uni2 =>
                                  if is_low_surrogate uni2
                                  then cons_char (join_surrogates uni uni2) (scanstring r3)
                                  else cons_char uni (scanstring r2)
                              end
                            else cons_char uni (scanstring r2)
                        | _ => cons_char uni (scanstring r2)
                        end
                      else cons_char uni (scanstring r2)
                  end
              | _ => None
              end
            else
              match unescape e with
              | Some ch => cons_char ch (scanstring r1)
              | None => None
              end
        end
      else if c <? 32 then None
      else cons_char c (scanstring r)
  end.

Definition digit_of (c : codepoint) : option digit :=
  if c =? 48 then Some d0 else if c =? 49 then Some d1
  else if c =? 50 then Some d2 else if c =? 51 then Some d3
  else if c =? 52 then Some d4 else if c =? 53 then Some d5
  else if c =? 54 then Some d6 else if c =? 55 then Some d7
  else if c =? 56 then Some d8 else if c =? 57 then Some d9
  else None.

(** The longest run of decimal digits at the head of [s]. *)
Fixpoint scan_digits (s : pystr) : list digit * pystr :=
  match s with
  | c :: s' =>
      match digit_of c with
      | Some d => let (ds, r) := scan_digits s' in (d :: ds, r)
      | None => ([], s)
      end
  | [] => ([], [])
  end.

Fixpoint uint_of_digits (ds : list digit) : Decimal.uint :=
  match ds with
  | [] => Decimal.Nil
  | d0 :: r => Decimal.D0 (uint_of_digits r)
  | d1 :: r => Decimal.D1 (uint_of_digits r)
  | d2 :: r => Decimal.D2 (uint_of_digits r)
  | d3 :: r => Decimal.D3 (uint_of_digits r)
  | d4 :: r => Decimal.D4 (uint_of_digits r)
  | d5 :: r => Decimal.D5 (uint_of_digits r)
  | d6 :: r => Decimal.D6 (uint_of_digits r)
  | d7 :: r => Decimal.D7 (uint_of_digits r)
  | d8 :: r => Decimal.D8 (uint_of_digits r)
  | d9 :: r => Decimal.D9 (uint_of_digits r)
  end.

(** The integer part of [NUMBER_RE]: a single [0], or a digit from 1 to 9
    and the digits after it. *)
Definition scan_int (s : pystr) : option (N * pystr) :=
  match s with
  | [] => None
  | c :: r =>
      if c =? 48 then Some (0, r)
      else
        match scan_digits s with
        | ([], _) => None
        | (ds, rest) => Some (N.of_uint (uint_of_digits ds), rest)
        end
  end.

(** The optional fraction: a point and at least one digit. *)
Definition scan_frac (s : pystr) : list digit * pystr :=
  match s with
  | c :: r =>
      if c =? 46 then
        match scan_digits r with
        | ([], _) => ([], s)
        | (ds, rest) => (ds, rest)
        end
      else ([], s)
  | [] => ([], s)
  end.

(** The optional exponent: [e] or [E], an optional sign, at least one digit. *)
Definition scan_exp (s : pystr) : option exponent * pystr :=
  match s with
  | c :: r =>
      if (c =? 101) || (c =? 69) then
        let (sign, r1) :=
          match r with
          | x :: r' =>
              if x =? 43 then (Some true, r')
              else if x =? 45 then (Some false, r')
              else (None, r)
          | [] => (None, r)
          end in
        match scan_digits r1 with
        | (d :: ds, rest) =>
            (Some {| exp_upper := c =? 69; exp_sign := sign; exp_hd := d; exp_tl := ds |},
             rest)
        | ([], _) => (None, s)
        end
      else (None, s)
  | [] => (None, s)
  end.

(** A match of [NUMBER_RE] at the head of [s]. *)
Definition scan_number (s : pystr) : option (number * pystr) :=
  let (neg, s1) :=
    match s with
    | c :: r => if c =? 45 then (true, r) else (false, s)
    | [] => (false, s)
    end in
  match scan_int s1 with
  | None => None
  | Some (i, s2) =>
      let (frac, s3) := scan_frac s2 in
      let (e, s4) := scan_exp s3 in
      Some ({| num_neg := neg; num_int := i; num_frac := frac; num_exp := e |}, s4)
  end.

(** [scan_once] with [JSONObject] and [JSONArray].  [scan_members] starts
    just after the opening quote of a key, [scan_items] at an item.  Every
    call further in has read at least one more character, so [fuel] above
    the length of the text never runs out. *)
Fixpoint scan_once (fuel : nat) (s : pystr) : option (json * pystr) :=
  match fuel with
  | O => None
  | S fuel' =>
      match s with
      | [] => None
      | c :: r =>
          if c =? 34 then
            match scanstring r with
            | Some (x, rest) => Some (JStr x, rest)
            | None => None
            end
          else if c =? 123 then
            match skip_ws r with
            | c1 :: r1 =>
                if c1 =? 125 then Some (JObj [], r1)
                else if c1 =? 34 then
                  match scan_members fuel' r1 with
                  | Some (ms, rest) => Some (JObj ms, rest)
                  | None => None
                  end
                else None
            | [] => None
            end
          else if c =? 91 then
            match skip_ws r with
            | c1 :: r1 =>
                if c1 =? 93 then Some (JArr [], r1)
                else
                  match scan_items fuel' (c1 :: r1) with
                  | Some (xs, rest) => Some (JArr xs, rest)
                  | None => None
                  end
            | [] => None
            end
          else if startswith s (str "null") then Some (JNull, skipn 4 s)
          else if startswith s (str "true") then Some (JBool true, skipn 4 s)
          else if startswith s (str "false") then Some (JBool false, skipn 5 s)
          else
            match scan_number s with
            | Some (n, rest) => Some (JNum n, rest)
            | None =>
                if startswith s (str "NaN") then Some (JNaN, skipn 3 s)
                else if startswith s (str "Infinity") then Some (JInfinity false, skipn 8 s)
                else if startswith s (str "-Infinity") then Some (JInfinity true, skipn 9 s)
                else None
            end
      end
  end
with scan_members (fuel : nat) (s : pystr) : option (list (pystr * json) * pystr) :=
  match fuel with
  | O => None
  | S fuel' =>
      match scanstring s with
      | None => None
      | Some (key, r) =>
          match skip_ws r with
          | c :: r1 =>
              if c =? 58 then
                match scan_once fuel' (skip_ws r1) with
                | None => None
                | Some (v, r2) =>
                    match skip_ws r2 with
                    | c2 :: r3 =>
                        if c2 =? 125 then Some ([(key, v)], r3)
                        else if c2 =? 44 then
                          match skip_ws r3 with
                          | c3 :: r4 =>
                              if c3 =? 34 then
                                match scan_members fuel' r4 with
                                | Some (ms, rest) => Some ((key, v) :: ms, rest)
                                | None => None
                                end
                              else None
                          | [] => None
                          end
                        else None
                    | [] => None
                    end
                end
              else None
          | [] => None
          end
      end
  end
with scan_items (fuel : nat) (s : pystr) : option (list json * pystr) :=
  match fuel with
  | O => None
  | S fuel' =>
      match scan_once fuel' s with
      | None => None
      | Some (v, r) =>
          match skip_ws r with
          | c :: r1 =>
              if c =? 93 then Some ([v], r1)
              else if c =? 44 then
                match scan_items fuel' (skip_ws r1) with
                | Some (xs, rest) => Some (v :: xs, rest)
                | None => None
                end
              else None
          | [] => None
          end
      end
  end.

(** [json.loads(s)]: one value, with white space around it and nothing else;
    [None] is [JSONDecodeError].  This is [json.loads] on the texts that stay
    within the limits of the interpreter, [within_limits] below: beyond them
    it raises [ValueError] (an integer literal of more than 4300 digits) or
    [RecursionError] (brackets nested deeper than the recursion limit
    allows), which are no [JSONDecodeError] and which this function does not
    have. *)
Definition json_loads (s : pystr) : option json :=
  match scan_once (S (length s)) (skip_ws s) with
  | Some (v, rest) =>
      match skip_ws rest with
      | [] => Some v
      | _ :: _ => None
      end
  | None => None
  end.

(** No run of digits of [s] is longer than [bound]; [run] is the length of
    the run that ends where [s] starts. *)
Fixpoint digit_runs_within (bound run : nat) (s : pystr) : bool :=
  match s with
  | [] => true
  | c :: r =>
      match digit_of c with
      | Some _ => (S run <=? bound)%nat && digit_runs_within bound (S run) r
      | None => digit_runs_within bound O r
      end
  end.

(** The opening brackets and braces of [s]. *)
Definition open_brackets (s : pystr) : nat :=
  length (filter (fun c => (c =? 91) || (c =? 123)) s).

(** The text stays within the limits of the interpreter: no integer literal
    has more than 4300 digits (the default of [sys.int_max_str_digits]), and
    it opens at most 64 brackets, which the default recursion limit allows
    in a caller that is not itself that deep. *)
Definition within_limits (s : pystr) : bool :=
  digit_runs_within 4300 O s && (open_brackets s <=? 64)%nat.

(* ================================================================== *)
(** * The audit summary *)

(** [l[i:]] *)
Definition slice_from {A} (i : Z) (l : list A) : list A :=
  if (i <? 0)%Z
  then skipn (Z.to_nat (Z.max 0 (Z.of_nat (length l) + i))) l
  else skipn (Z.to_nat i) l.

Definition type_error (msg : string) : exn :=
  {| exn_cls := TypeError; exn_str := str msg |}.

(** [e[k]] for a string [k], on whatever [json.loads] returned. *)
Definition subscript (e : json) (k : pystr) : exn + json :=
  match e with
  | JObj members =>
      match dict_get members k with
      | Some v => inr v
      | None => inl {| exn_cls := KeyError; exn_str := 39 :: k ++ [39] |}
      end
  | JArr _ => inl (type_error "list indices must be integers or slices, not str")
  | JStr _ => inl (type_error "string indices must be integers, not 'str'")
  | JNum n =>
      match num_frac n, num_exp n with
      | [], None => inl (type_error "'int' object is not subscriptable")
      | _, _ => inl (type_error "'float' object is not subscriptable")
      end
  | JNaN | JInfinity _ => inl (type_error "'float' object is not subscriptable")
  | JBool _ => inl (type_error "'bool' object is not subscriptable")
  | JNull => inl (type_error "'NoneType' object is not subscriptable")
  end.

(** [v == s] for a string literal [s]. *)
Definition json_eq_str (v : json) (s : pystr) : bool :=
  match v with
  | JStr x => str_eqb x s
  | _ => false
  end.

(** [sum(1 for e in entries if test(e))], where [test] may raise. *)
Fixpoint sum_if (test : json -> exn + bool) (entries : list json) : exn + Z :=
  match entries with
  | [] => inr 0%Z
  | e :: rest =>
      match test e with
      | inl x => inl x
      | inr b =>
          match sum_if test rest with
          | inl x => inl x
          | inr n => inr ((if b then 1 else 0) + n)%Z
          end
      end
  end.

Definition on_field (k : pystr) (p : json -> bool) (e : json) : exn + bool :=
  match subscript e k with
  | inl x => inl x
  | inr v => inr (p v)
  end.

(** The loop that reads the log: lines [json.loads] rejects are skipped. *)
Fixpoint read_entries (lines : list pystr) : list json :=
  match lines with
  | [] => []
  | line :: rest =>
      match json_loads (strip line) with
      | Some v => v :: read_entries rest
      | None => read_entries rest
      end
  end.

Record summary_stats := {
  total_entries : Z;
  success_count : Z;
  failure_count : Z;
  elevated_operations : Z;
  recent_operations : list json
}.

(** The three dictionaries [get_audit_summary] can return. *)
Inductive summary :=
| Stats (s : summary_stats)
| NoAuditLog
| SummaryError (msg : pystr).

(** [get_audit_summary]; [opened] is what opening and iterating the log file
    gives, the lines as the file has them or the exception raised. *)
Definition get_audit_summary (opened : exn + list pystr) (limit : Z) : summary :=
  let failed (e : exn) :=
    match exn_cls e with
    | FileNotFoundError => NoAuditLog
    | _ => SummaryError (str "Failed to read audit log: " ++ exn_str e)
    end in
  match opened with
  | inl e => failed e
  | inr lines =>
      let entries := read_entries lines in
      let recent_entries :=
        if (Z.of_nat (length entries) >? limit)%Z
        then slice_from (- limit) entries
        else entries in
      match sum_if (on_field (str "result") (fun v => json_eq_str v (str "success")))
                   recent_entries with
      | inl e => failed e
      | inr successes =>
          match sum_if (on_field (str "result")
                          (fun v => negb (json_eq_str v (str "success"))))
                       recent_entries with
          | inl e => failed e
          | inr failures =>
              match sum_if (on_field (str "permission_level")
                              (fun v => json_eq_str v (str "elevated")
                                        || json_eq_str v (str "administrative")))
                           recent_entries with
              | inl e => failed e
              | inr elevated =>
                  Stats {| total_entries := Z.of_nat (length recent_entries);
                           success_count := successes;
                           failure_count := failures;
                           elevated_operations := elevated;
                           recent_operations := slice_from (-10) recent_entries |}
              end
          end
      end
  end.

(** The [total_entries] the returned dictionary carries, if it has one. *)
Definition reported_total (s : summary) : option Z :=
  match s with
  | Stats st => Some (total_entries st)
  | NoAuditLog => Some 0%Z
  | SummaryError _ => None
  end.

(* ================================================================== *)
(** * Observations on a run *)

(** The number of processes a trace spawned or tried to spawn. *)
Fixpoint popen_count (tr : list event) : nat :=
  match tr with
  | [] => O
  | EvPopen _ _ _ :: tr' => S (popen_count tr')
  | _ :: tr' => popen_count tr'
  end.

(** The attempts to append a line to the audit log file. *)
Fixpoint file_appends (tr : list event) : list (pystr * bool) :=
  match tr with
  | [] => []
  | EvFileAppend line written :: tr' => (line, written) :: file_appends tr'
  | _ :: tr' => file_appends tr'
  end.

(** The entries handed to the session history. *)
Fixpoint session_appends (tr : list event) : list AuditEntry.t :=
  match tr with
  | [] => []
  | EvSessionAppend entry :: tr' => entry :: session_appends tr'
  | _ :: tr' => session_appends tr'
  end.

(** What the logger was given at level ERROR. *)
Fixpoint logger_errors (tr : list event) : list pystr :=
  match tr with
  | [] => []
  | EvLoggerError msg :: tr' => msg :: logger_errors tr'
  | _ :: tr' => logger_errors tr'
  end.

(** What reaches or comes from the console: the texts of [print], the
    prompts of [input] and the records the stream handler of the logger
    writes. *)
Definition is_console (e : event) : bool :=
  match e with
  | EvPrint _ | EvInput _ | EvStdout _ => true
  | _ => false
  end.

(** The dialogue of the program itself: [print] and [input]. *)
Definition is_dialogue (e : event) : bool :=
  match e with
  | EvPrint _ | EvInput _ => true
  | _ => false
  end.

(** A step of the gate leaves the manager, the log, the logger and the
    processes alone and only talks to the console. *)
Definition console_only (st st' : state) : Prop :=
  current_user st' = current_user st
  /\ is_privileged st' = is_privileged st
  /\ session_operations st' = session_operations st
  /\ log_file st' = log_file st
  /\ (stdout_write st' = stdout_write st
      /\ handlers st' = handlers st
      /\ children st' = children st)
  /\ exists evs, trace st' = trace st ++ evs /\ forallb is_dialogue evs = true.

(** An exception of the console: [EOFError] at the end of standard input,
    or what a write to standard output raised. *)
Definition console_error (st : state) (e : exn) : Prop :=
  exn_cls e = EOFError \/ exists text, stdout_write st text = Some e.

(** A computation that only talks to the console and can only fail with an
    exception of the console. *)
Definition console_action {A} (m : M A) : Prop :=
  forall st,
    console_only st (snd (m st))
    /\ (forall e, fst (m st) = Raise e -> console_error st e).

(** What the file handler appends for the [k]-th record of a call, and what
    the stream handler writes. *)
Definition file_record (os : os_response) (k : nat) (h : logging_setup)
    (levelname : string) (msg : pystr) : pystr :=
  if file_handler h
  then reached (handler_cut os k) (format_record (asctime os k) levelname msg ++ [10])
  else [].

Definition stream_record (os : os_response) (k : nat) (st : state)
    (levelname : string) (msg : pystr) : list event :=
  if stream_handler (handlers st) then
    match stdout_write st (format_record (asctime os k) levelname msg) with
    | None => [EvStdout (format_record (asctime os k) levelname msg)]
    | Some _ => []
    end
  else [].

(** The state after the events [evs] have gone to the trace. *)
Definition add_events (st : state) (evs : list event) : state :=
  {| current_user := current_user st;
     is_privileged := is_privileged st;
     session_operations := session_operations st;
     log_file := log_file st;
     stdin := stdin st;
     stdout_write := stdout_write st;
     handlers := handlers st;
     children := children st;
     trace := trace st ++ evs |}.

(** The state the handlers leave for the [k]-th record of a call. *)
Definition logged (os : os_response) (k : nat) (levelname : string) (msg : pystr)
    (st : state) : state :=
  {| current_user := current_user st;
     is_privileged := is_privileged st;
     session_operations := session_operations st;
     log_file := log_file st ++ file_record os k (handlers st) levelname msg;
     stdin := stdin st;
     stdout_write := stdout_write st;
     handlers := handlers st;
     children := children st;
     trace := trace st ++ stream_record os k st levelname msg |}.

(** The state in which the orchestrator reaches the consent gate: the two
    records of the attempt have gone to the logger. *)
Definition at_gate (os : os_response) (operation : PrivilegedOperation) (st : state)
    : state :=
  snd ((logger_info os 0
          (str "Attempting privileged operation: " ++ description operation) ;;
        logger_info os 1 (str "Command: " ++ join (str " ") (command operation))) st).

(** Escalation is required: [check_permission_required] answers [True]. *)
Definition escalation_required (operation : PrivilegedOperation) (st : state) : Prop :=
  fst (check_permission_required operation st) = Ret true.

(** Some argument of [argv] starts with one of the privileged paths. *)
Definition touches_privileged_path (argv : list pystr) : Prop :=
  exists arg path rest,
    In arg argv /\ In path privileged_paths /\ arg = path ++ rest.

(** The first token of [argv], lowered as the classifier lowers it, is in
    neither command set. *)
Definition first_token_unclassified (argv : list pystr) : Prop :=
  forall first rest,
    argv = first :: rest ->
    ~ In (lower first) admin_commands /\ ~ In (lower first) elevated_commands.

(** Reading in text mode takes a carriage return, alone or before a line
    feed, for the end of a line. *)
Fixpoint universal_newlines (s : pystr) : pystr :=
  match s with
  | [] => []
  | c :: r =>
      if c =? 13 then
        match r with
        | c2 :: r2 => if c2 =? 10 then 10 :: universal_newlines r2
                      else 10 :: universal_newlines r
        | [] => [10]
        end
      else c :: universal_newlines r
  end.

(** The lines of a text, each with the newline that ends it; the last one
    has none when the text does not end with one. *)
Fixpoint lines_of (s : pystr) : list pystr :=
  match s with
  | [] => []
  | c :: r =>
      if c =? 10 then [c] :: lines_of r
      else match lines_of r with
           | [] => [[c]]
           | line :: rest => (c :: line) :: rest
           end
  end.

(** The lines iterating over the log file yields. *)
Definition file_lines (st : state) : list pystr :=
  lines_of (universal_newlines (log_file st)).

(** [json.loads] accepts the line. *)
Definition parses (line : pystr) : bool :=
  match json_loads (strip line) with
  | Some _ => true
  | None => false
  end.

(** A corrupt line: [json.loads] raises [JSONDecodeError] on it. *)
Definition corrupt_line (line : pystr) : Prop := json_loads (strip line) = None.

(** A valid record line: it parses to an object that has the two fields
    the summary reads. *)
Definition record_line (line : pystr) : Prop :=
  exists members r l,
    json_loads (strip line) = Some (JObj members)
    /\ dict_get members (str "result") = Some r
    /\ dict_get members (str "permission_level") = Some l.

(** The test for a valid record line. *)
Definition is_record_line (line : pystr) : bool :=
  match json_loads (strip line) with
  | Some (JObj members) =>
      match dict_get members (str "result"),
            dict_get members (str "permission_level") with
      | Some _, Some _ => true
      | _, _ => false
      end
  | _ => false
  end.

(** An entry the summary can read its two fields from. *)
Definition has_fields (e : json) : Prop :=
  exists members r l,
    e = JObj members
    /\ dict_get members (str "result") = Some r
    /\ dict_get members (str "permission_level") = Some l.

(** The call gets past the gate and reaches it in [st2]: the gate was not
    needed, or it answered [True]. *)
Definition gate_passes (os : os_response) (operation : PrivilegedOperation)
    (st st2 : state) : Prop :=
  (escalation_required operation st
   /\ request_permission operation (at_gate os operation st) = (Ret true, st2))
  \/ (fst (check_permission_required operation st) = Ret false
      /\ st2 = at_gate os operation st).

(** The entry [_log_operation] builds for an operation and its outcome. *)
Definition audit_entry_of (os : os_response) (operation : PrivilegedOperation)
    (user : pystr) (result : OperationResult) (message : pystr) : AuditEntry.t :=
  {| AuditEntry.timestamp := now_start os;
     AuditEntry.operation := join (str " ") (command operation);
     AuditEntry.permission_level := level_value (permission_level operation);
     AuditEntry.result := result_value result;
     AuditEntry.user := user;
     AuditEntry.details :=
       [(str "description", JStr (description operation));
        (str "duration_seconds", JNum (elapsed os));
        (str "message", JStr message);
        (str "working_directory",
         match working_directory operation with
         | Some d => JStr d
         | None => JNull
         end)] |}.

(** The dictionary [_log_operation] serialises for an entry. *)
Definition log_entry_of (e : AuditEntry.t) : json :=
  JObj [(str "timestamp", JStr (isoformat (AuditEntry.timestamp e)));
        (str "operation", JStr (AuditEntry.operation e));
        (str "permission_level", JStr (AuditEntry.permission_level e));
        (str "result", JStr (AuditEntry.result e));
        (str "user", JStr (AuditEntry.user e));
        (str "details", JObj (AuditEntry.details e))].

(** The outcome the [try] block of the orchestrator settles on, read off
    what the operating system answers. *)
Definition handled (operation : PrivilegedOperation) (e : exn) : OperationResult * pystr :=
  match exn_cls e with
  | TimeoutExpired =>
      (OPERATION_FAILED,
       str "Operation timed out after " ++ str_of_Z (timeout operation) ++ str " seconds")
  | PermissionError =>
      (PERMISSION_DENIED, str "Permission denied - unable to execute command")
  | _ => (OPERATION_FAILED, str "Unexpected error: " ++ exn_str e)
  end.

Definition process_outcome (os : os_response) (operation : PrivilegedOperation)
    : OperationResult * pystr :=
  match popen_raises os with
  | Some e => handled operation e
  | None =>
      match communicate_result os with
      | inl e => handled operation e
      | inr (stdout, stderr, returncode) =>
          if (returncode =? 0)%Z
          then (SUCCESS,
                match stdout with
                | [] => str "Operation completed successfully"
                | _ => stdout
                end)
          else (OPERATION_FAILED,
                str "Command failed with return code " ++ str_of_Z returncode
                ++ str ": " ++ stderr)
      end
  end.

(** The events of [kill_spawned] after the exception [e] of a process that
    was spawned. *)
Definition kill_events (e : exn) : list event :=
  match exn_cls e with
  | TimeoutExpired => [EvKill]
  | _ => []
  end.

(** The process events of the [try] block, for the argument vector and
    environment it runs with. *)
Definition process_events (os : os_response) (operation : PrivilegedOperation)
    (argv : list pystr) : list event :=
  EvPopen argv (working_directory operation)
    match environment operation with
    | Some (kv :: overlay) => dict_update (environ os) (kv :: overlay)
    | _ => environ os
    end
  :: match popen_raises os with
     | Some e => []
     | None =>
         EvCommunicate (timeout operation)
         :: match communicate_result os with
            | inl e => kill_events e
            | inr _ => []
            end
     end.

(** What has become of the process the [try] block spawned, if it spawned
    one: it has exited, or it was killed after the timeout, or it is still
    running. *)
Definition process_children (os : os_response) : list child :=
  match popen_raises os with
  | Some _ => []
  | None =>
      [match communicate_result os with
       | inr (_, _, returncode) => Exited returncode
       | inl e =>
           match exn_cls e, kill_raises os with
           | TimeoutExpired, None => Killed
           | _, _ => Running
           end
       end]
  end.

(** The state after the [try] block ran with the argument vector [argv]. *)
Definition spawned (os : os_response) (operation : PrivilegedOperation)
    (argv : list pystr) (st : state) : state :=
  {| current_user := current_user st;
     is_privileged := is_privileged st;
     session_operations := session_operations st;
     log_file := log_file st;
     stdin := stdin st;
     stdout_write := stdout_write st;
     handlers := handlers st;
     children := process_children os ++ children st;
     trace := trace st ++ process_events os operation argv |}.

(** The state [_log_operation] leaves for the outcome [rm]. *)
Definition recorded (os : os_response) (operation : PrivilegedOperation)
    (rm : OperationResult * pystr) (st : state) : state :=
  let entry := audit_entry_of os operation (current_user st) (fst rm) (snd rm) in
  let line := json_dumps (log_entry_of entry) in
  match write_raises os with
  | None =>
      {| current_user := current_user st;
         is_privileged := is_privileged st;
         session_operations := session_operations st ++ [entry];
         log_file := log_file st ++ line ++ [10];
         stdin := stdin st;
         stdout_write := stdout_write st;
         handlers := handlers st;
         children := children st;
         trace := trace st ++ [EvSessionAppend entry; EvFileAppend line true] |}
  | Some e =>
      logged os 2 "ERROR" (str "Failed to write audit log: " ++ exn_str e)
        {| current_user := current_user st;
           is_privileged := is_privileged st;
           session_operations := session_operations st ++ [entry];
           log_file := log_file st ++ firstn (write_cut os) (line ++ [10]);
           stdin := stdin st;
           stdout_write := stdout_write st;
           handlers := handlers st;
           children := children st;
           trace :=
             trace st
             ++ [EvSessionAppend entry; EvFileAppend line false;
                 EvLoggerError (str "Failed to write audit log: " ++ exn_str e)] |}
  end.

(** The lines the gate prints before it asks. *)
Definition gate_banner (operation : PrivilegedOperation) : list pystr :=
  [10 :: 128274 :: str " Privileged Operation Required";
   str "Description: " ++ description operation;
   str "Command: " ++ join (str " ") (command operation);
   str "Permission Level: " ++ level_value (permission_level operation)]
  ++ match permission_level operation with
     | ADMINISTRATIVE =>
         [9888 :: 65039 :: str "  This operation makes system-level changes"]
     | ELEVATED =>
         [9888 :: 65039 :: str "  This operation requires elevated privileges"]
     | BASIC => []
     end.

(** All the gate can write to standard output. *)
Definition gate_texts (operation : PrivilegedOperation) : list pystr :=
  gate_banner operation ++ [proceed_prompt; str "Please enter 'y' or 'n'"].

(** Standard output takes each of the texts: writing it raises nothing. *)
Definition stdout_takes (st : state) (texts : list pystr) : Prop :=
  forall text, In text texts -> stdout_write st text = None.

(** The records of the attempt, as the file handler appends them. *)
Definition attempt_records (os : os_response) (operation : PrivilegedOperation)
    (h : logging_setup) : pystr :=
  file_record os 0 h "INFO"
    (str "Attempting privileged operation: " ++ description operation)
  ++ file_record os 1 h "INFO" (str "Command: " ++ join (str " ") (command operation)).

(** The state in which a call that got past the gate, or was refused
    there, reaches [_log_operation], seen from the state of the caller. *)
Definition before_record (os : os_response) (operation : PrivilegedOperation)
    (st s : state) : Prop :=
  current_user s = current_user st
  /\ is_privileged s = is_privileged st
  /\ session_operations s = session_operations st
  /\ log_file s = log_file st ++ attempt_records os operation (handlers st)
  /\ stdout_write s = stdout_write st
  /\ handlers s = handlers st
  /\ exists before,
       trace s = trace st ++ before
       /\ session_appends before = [] /\ file_appends before = [].

Definition cancelled : OperationResult * pystr :=
  (USER_CANCELLED, str "User cancelled the operation").

(** A run of several calls on one manager, each with what the operating
    system answers during it. *)
Fixpoint run_calls (calls : list (os_response * PrivilegedOperation)) (st : state)
    : list (outcome (OperationResult * pystr)) * state :=
  match calls with
  | [] => ([], st)
  | (os, operation) :: rest =>
      let (out, st1) := execute_with_escalation os operation st in
      let (outs, st2) := run_calls rest st1 in
      (out :: outs, st2)
  end.

(** The entries of the calls that completed, in the order of the calls. *)
Fixpoint completed_entries (user : pystr)
    (calls : list (os_response * PrivilegedOperation))
    (outs : list (outcome (OperationResult * pystr))) : list AuditEntry.t :=
  match calls, outs with
  | (os, operation) :: calls', Ret (r, m) :: outs' =>
      audit_entry_of os operation user r m :: completed_entries user calls' outs'
  | _ :: calls', Raise _ :: outs' => completed_entries user calls' outs'
  | _, _ => []
  end.

(** The same answers of the operating system, with another fate for the
    write to the audit log. *)
Definition with_write (os : os_response) (w : option exn) : os_response :=
  {| now_start := now_start os;
     elapsed := elapsed os;
     environ := environ os;
     popen_raises := popen_raises os;
     communicate_result := communicate_result os;
     kill_raises := kill_raises os;
     write_raises := w;
     write_cut := write_cut os;
     asctime := asctime os;
     handler_cut := handler_cut os |}.

(** ** Sample runs *)

(** The operation of the scenarios: [chmod 755 /tmp/x] at the elevated
    level, with approval required. *)
Definition chmod_operation : PrivilegedOperation :=
  {| command := [str "chmod"; str "755"; str "/tmp/x"];
     description := str "Change permissions/ownership for /tmp/x";
     permission_level := ELEVATED;
     requires_user_approval := true;
     timeout := 1;
     working_directory := None;
     environment := None |}.

(** An operation with an environment of its own: [make] with [CC] set. *)
Definition build_operation : PrivilegedOperation :=
  {| command := [str "make"];
     description := str "Build";
     permission_level := BASIC;
     requires_user_approval := true;
     timeout := 300;
     working_directory := None;
     environment := Some [(str "CC", str "clang")] |}.

(** A fresh manager of an unprivileged user, the first of its process to
    configure logging, with [answers] waiting on standard input and a
    standard output that takes every text. *)
Definition fresh_manager (answers : list pystr) : state :=
  {| current_user := str "alice";
     is_privileged := false;
     session_operations := [];
     log_file := [];
     stdin := answers;
     stdout_write := fun _ => None;
     handlers := {| file_handler := true; stream_handler := true |};
     children := [];
     trace := [] |}.

(** The same manager in a process whose root logger had handlers of its
    own before: [basicConfig] has installed neither handler, and the records
    of the logger go where the host sends them, which here is neither the
    log file nor standard output. *)
Definition embedded_manager (answers : list pystr) : state :=
  {| current_user := str "alice";
     is_privileged := false;
     session_operations := [];
     log_file := [];
     stdin := answers;
     stdout_write := fun _ => None;
     handlers := {| file_handler := false; stream_handler := false |};
     children := [];
     trace := [] |}.

(** A standard output that is closed: every write raises [ValueError]. *)
Definition closed_stdout (text : pystr) : option exn :=
  Some {| exn_cls := OtherException; exn_str := str "I/O operation on closed file." |}.

(** A standard output in the ASCII encoding: a text with a character
    outside it raises [UnicodeEncodeError], whose message names the first
    run of such characters. *)
Fixpoint hex_of (width : nat) (c : N) : pystr :=
  match width with
  | O => []
  | S w => hex_of w (c / 16) ++ [hex_digit (c mod 16)]
  end.

Definition escaped_char (c : N) : pystr :=
  if c <? 256 then str "\x" ++ hex_of 2 c
  else if c <? 65536 then str "\u" ++ hex_of 4 c
  else str "\U" ++ hex_of 8 c.

Fixpoint ascii_run (s : pystr) : nat :=
  match s with
  | c :: r => if c <? 128 then S (ascii_run r) else O
  | [] => O
  end.

Fixpoint other_run (s : pystr) : nat :=
  match s with
  | c :: r => if c <? 128 then O else S (other_run r)
  | [] => O
  end.

Definition ascii_stdout (text : pystr) : option exn :=
  let start := ascii_run text in
  match skipn start text with
  | [] => None
  | c :: r =>
      Some {| exn_cls := UnicodeEncodeError;
              exn_str :=
                match other_run r with
                | O =>
                    str "'ascii' codec can't encode character '" ++ escaped_char c
                    ++ str "' in position " ++ str_of_Z (Z.of_nat start)
                    ++ str ": ordinal not in range(128)"
                | S more =>
                    str "'ascii' codec can't encode characters in position "
                    ++ str_of_Z (Z.of_nat start) ++ str "-"
                    ++ str_of_Z (Z.of_nat (start + S more) - 1)
                    ++ str ": ordinal not in range(128)"
                end |}
  end.

(** The fresh manager with another standard output. *)
Definition manager_on (write : pystr -> option exn) (answers : list pystr) : state :=
  {| current_user := str "alice";
     is_privileged := false;
     session_operations := [];
     log_file := [];
     stdin := answers;
     stdout_write := write;
     handlers := {| file_handler := true; stream_handler := true |};
     children := [];
     trace := [] |}.

(** What the operating system answers in the scenarios: the process is
    spawned and [communicate] gives [result]; [w] is the fate of the write
    to the log file, and where that write fails nothing of the line reaches
    the file and the file handler of the logger cannot write either from
    then on. *)
Definition os_answers (result : exn + (pystr * pystr * Z)) (w : option exn) : os_response :=
  {| now_start := {| isoformat := str "2024-01-01T12:00:00.000123" |};
     elapsed := {| num_neg := false; num_int := 0; num_frac := [d0; d1; d2];
                   num_exp := None |};
     environ := [(str "PATH", str "/usr/bin")];
     popen_raises := None;
     communicate_result := result;
     kill_raises := None;
     write_raises := w;
     write_cut := O;
     asctime := fun _ => str "2024-01-01 12:00:00,000";
     handler_cut :=
       fun k => match w with
                | Some _ => if (2 <=? k)%nat then Some O else None
                | None => None
                end |}.

(** The process outlives the time limit and cannot be killed: it runs as
    root under [sudo], so the signal of the unprivileged caller is refused. *)
Definition times_out_unkillable : os_response :=
  {| now_start := {| isoformat := str "2024-01-01T12:00:00.000123" |};
     elapsed := {| num_neg := false; num_int := 1; num_frac := [d0; d0; d2];
                   num_exp := None |};
     environ := [(str "PATH", str "/usr/bin")];
     popen_raises := None;
     communicate_result :=
       inl {| exn_cls := TimeoutExpired; exn_str := str "timed out" |};
     kill_raises :=
       Some {| exn_cls := PermissionError;
               exn_str := str "[Errno 1] Operation not permitted" |};
     write_raises := None;
     write_cut := O;
     asctime := fun _ => str "2024-01-01 12:00:00,000";
     handler_cut := fun _ => None |}.

Definition exits_zero : exn + (pystr * pystr * Z) := inr (str "ok", [], 0%Z).
Definition exits_one : exn + (pystr * pystr * Z) := inr ([], str "denied", 1%Z).
Definition times_out : exn + (pystr * pystr * Z) :=
  inl {| exn_cls := TimeoutExpired; exn_str := str "timed out" |}.
Definition disk_full : exn :=
  {| exn_cls := OtherException; exn_str := str "[Errno 28] No space left on device" |}.

(** A log that holds the records of two completed calls, one succeeding and
    one failing with exit code 1, followed by a line a crash cut short. *)
Definition sample_log : list pystr :=
  let written :=
    map (fun entry => json_dumps (log_entry_of entry) ++ [10])
      (session_operations
         (snd (run_calls [(os_answers exits_zero None, chmod_operation);
                          (os_answers exits_one None, chmod_operation)]
                 (fresh_manager [str "y"; str "yes"])))) in
  written ++ map (firstn 40) (firstn 1 written).

(** ** Reading back what was written *)

(** The code points of a [str]: below U+110000. *)
Definition valid_str (s : pystr) : bool := forallb (fun c => c <? 1114112) s.

(** What [scanstring] returns for the escaped form of [s]: a high surrogate
    directly followed by a low surrogate comes back as the one character
    the pair encodes. *)
Fixpoint combine_surrogates (s : pystr) : pystr :=
  match s with
  | c :: t =>
      match t with
      | c2 :: r =>
          if is_high_surrogate c && is_low_surrogate c2
          then join_surrogates c c2 :: combine_surrogates r
          else c :: combine_surrogates t
      | [] => [c]
      end
  | [] => []
  end.

(** [s] has a high surrogate directly followed by a low surrogate. *)
Fixpoint has_surrogate_pair (s : pystr) : bool :=
  match s with
  | c :: t =>
      match t with
      | c2 :: _ => (is_high_surrogate c && is_low_surrogate c2) || has_surrogate_pair t
      | [] => false
      end
  | [] => false
  end.

(** All strings of a JSON value are [str]s. *)
Fixpoint json_valid (v : json) : bool :=
  match v with
  | JStr s => valid_str s
  | JArr items => forallb json_valid items
  | JObj members =>
      forallb (fun kv => match kv with (k, x) => valid_str k && json_valid x end) members
  | _ => true
  end.

(** The value [json.loads] gives back for [json.dumps v]. *)
Fixpoint json_reloaded (v : json) : json :=
  match v with
  | JStr s => JStr (combine_surrogates s)
  | JArr items => JArr (map json_reloaded items)
  | JObj members =>
      JObj (map (fun kv => match kv with (k, x) => (combine_surrogates k, json_reloaded x) end)
              members)
  | _ => v
  end.

(** The line [_log_operation] writes for an entry, and what the loop of
    [get_audit_summary] parses from it. *)
Definition log_line (e : AuditEntry.t) : pystr := json_dumps (log_entry_of e) ++ [10].

Definition reparsed (e : AuditEntry.t) : option json := json_loads (strip (log_line e)).

(** The strings of an entry are [str]s. *)
Definition entry_valid (e : AuditEntry.t) : bool :=
  valid_str (isoformat (AuditEntry.timestamp e))
  && valid_str (AuditEntry.operation e)
  && valid_str (AuditEntry.permission_level e)
  && valid_str (AuditEntry.result e)
  && valid_str (AuditEntry.user e)
  && json_valid (JObj (AuditEntry.details e)).

(** An entry whose operation is a high surrogate followed by a low one. *)
Definition surrogate_entry : AuditEntry.t :=
  {| AuditEntry.timestamp := {| isoformat := str "2024-01-01T12:00:00" |};
     AuditEntry.operation := [55296; 56320];
     AuditEntry.permission_level := str "basic";
     AuditEntry.result := str "success";
     AuditEntry.user := str "alice";
     AuditEntry.details := [] |}.

(** The text after a high surrogate escape does not go on with the escape
    of a low surrogate. *)
Definition no_low_escape (t : pystr) : Prop :=
  forall g1 g2 g3 g4 r,
    t = 92 :: 117 :: g1 :: g2 :: g3 :: g4 :: r ->
    exists u, hex4_value g1 g2 g3 g4 = Some u /\ is_low_surrogate u = false.

(** ** Numbers as text *)

Fixpoint digits_of_uint (u : Decimal.uint) : list digit :=
  match u with
  | Decimal.Nil => []
  | Decimal.D0 u => d0 :: digits_of_uint u
  | Decimal.D1 u => d1 :: digits_of_uint u
  | Decimal.D2 u => d2 :: digits_of_uint u
  | Decimal.D3 u => d3 :: digits_of_uint u
  | Decimal.D4 u => d4 :: digits_of_uint u
  | Decimal.D5 u => d5 :: digits_of_uint u
  | Decimal.D6 u => d6 :: digits_of_uint u
  | Decimal.D7 u => d7 :: digits_of_uint u
  | Decimal.D8 u => d8 :: digits_of_uint u
  | Decimal.D9 u => d9 :: digits_of_uint u
  end.

(** The text does not go on with a digit. *)
Definition no_digit_ahead (s : pystr) : Prop :=
  match s with
  | [] => True
  | c :: _ => digit_of c = None
  end.

(** The text after a value cannot be taken for more of a number: it does
    not start with a digit, a point or an exponent mark. *)
Definition value_end (s : pystr) : Prop :=
  match s with
  | [] => True
  | c :: _ => digit_of c = None /\ c <> 46 /\ c <> 101 /\ c <> 69
  end.

(** The text [json.dumps] writes for one member of an object. *)
Definition member_text (kv : pystr * json) : pystr :=
  match kv with
  | (k, x) => encode_basestring_ascii k ++ str ": " ++ json_dumps x
  end.

Definition reloaded_member (kv : pystr * json) : pystr * json :=
  match kv with
  | (k, x) => (combine_surrogates k, json_reloaded x)
  end.

(** [json.loads] reads [v] back from what [json.dumps] wrote, whatever
    follows the value. *)
Definition round_trips (v : json) : Prop :=
  forall fuel rest,
    (length (json_dumps v) < fuel)%nat ->
    value_end rest ->
    scan_once fuel (json_dumps v ++ rest) = Some (json_reloaded v, rest).

(** The first line of the input the prompt recognises, if any: what the
    consent gate answers from the lines on standard input. *)
Fixpoint first_answer (lines : list pystr) : option bool :=
  match lines with
  | [] => None
  | line :: rest =>
      let response := lower (strip line) in
      if str_in response [str "y"; str "yes"] then Some true
      else if str_in response [str "n"; str "no"; []] then Some false
      else first_answer rest
  end.

(* ================================================================== *)
(** * The operations built on the orchestrator *)

(** [PrivilegedOperation(command=..., description=..., permission_level=...,
    timeout=...)]: the other fields take the defaults of the dataclass. *)
Definition operation_with_defaults (cmd : list pystr) (text : pystr)
    (level : PermissionLevel) (seconds : Z) : PrivilegedOperation :=
  {| command := cmd;
     description := text;
     permission_level := level;
     requires_user_approval := true;
     timeout := seconds;
     working_directory := None;
     environment := None |}.

(** [install_package] *)
Definition install_package (os : os_response) (package_name package_manager : pystr)
    : M (OperationResult * pystr) :=
  let chosen :=
    if str_eqb package_manager (str "pip") then
      Some ([str "pip"; str "install"; package_name],
            str "Install Python package '" ++ package_name ++ str "' using pip")
    else if str_eqb package_manager (str "conda") then
      Some ([str "conda"; str "install"; str "-y"; package_name],
            str "Install Python package '" ++ package_name ++ str "' using conda")
    else None in
  match chosen with
  | None =>
      ret (OPERATION_FAILED, str "Unsupported package manager: " ++ package_manager)
  | Some (cmd, text) =>
      execute_with_escalation os (operation_with_defaults cmd text ELEVATED 600)
  end.

(** The operation [manage_file_permissions] builds for one of its commands. *)
Definition permissions_operation (file_path : pystr) (cmd : list pystr)
    : PrivilegedOperation :=
  operation_with_defaults cmd (str "Change permissions/ownership for " ++ file_path)
    ELEVATED 300.

(** The loop of [manage_file_permissions] over the commands still to run;
    [oss i] is what the operating system answers during the call for the
    command of index [i]. *)
Fixpoint change_each (oss : nat -> os_response) (i : nat) (file_path : pystr)
    (commands : list (list pystr)) : M (OperationResult * pystr) :=
  match commands with
  | [] => ret (SUCCESS, str "Permissions updated successfully")
  | cmd :: rest =>
      '(result, message) <-
        execute_with_escalation (oss i) (permissions_operation file_path cmd) ;;
      match result with
      | SUCCESS => change_each oss (S i) file_path rest
      | _ => ret (result, message)
      end
  end.

(** The commands [manage_file_permissions] collects: [chmod] when
    [permissions] is not empty, [chown] when an owner is given and not empty. *)
Definition permission_commands (file_path permissions : pystr) (owner : option pystr)
    : list (list pystr) :=
  match permissions with
  | [] => []
  | _ :: _ => [[str "chmod"; permissions; file_path]]
  end
  ++ match owner with
     | Some (c :: o) => [[str "chown"; c :: o; file_path]]
     | _ => []
     end.

(** [manage_file_permissions] *)
Definition manage_file_permissions (oss : nat -> os_response)
    (file_path permissions : pystr) (owner : option pystr)
    : M (OperationResult * pystr) :=
  change_each oss 0 file_path (permission_commands file_path permissions owner).

(** [execute_script]; [access] is what [os.access(script_path, os.R_OK)]
    answers, or the exception it raises on a path it cannot take. *)
Definition execute_script (os : os_response) (access : exn + bool)
    (script_path : pystr) (arguments : option (list pystr)) (interpreter : pystr)
    : M (OperationResult * pystr) :=
  let cmd :=
    [interpreter; script_path]
    ++ match arguments with
       | Some args => args
       | None => []
       end in
  match access with
  | inl e => raise e
  | inr false =>
      ret (PERMISSION_DENIED, str "Cannot read script file: " ++ script_path)
  | inr true =>
      execute_with_escalation os
        (operation_with_defaults cmd (str "Execute script: " ++ script_path)
           (analyze_command_permissions cmd) 300)
  end.

(** [result == OperationResult.SUCCESS] *)
Definition is_success (result : OperationResult) : bool :=
  match result with
  | SUCCESS => true
  | _ => false
  end.

(** [os.getenv(name, default)] on the environment of the process. *)
Definition getenv (env : dict pystr) (name default : pystr) : pystr :=
  match dict_get env name with
  | Some v => v
  | None => default
  end.

(** [p[:p.rfind('/') + 1]]: [p] up to its last slash, the slash included. *)
Fixpoint upto_last_slash (p : pystr) : pystr :=
  match p with
  | [] => []
  | c :: p' =>
      match upto_last_slash p' with
      | [] => if c =? 47 then [c] else []
      | head => c :: head
      end
  end.

Fixpoint lstrip_slashes (s : pystr) : pystr :=
  match s with
  | c :: s' => if c =? 47 then lstrip_slashes s' else s
  | [] => []
  end.

(** [os.path.dirname] of [posixpath]. *)
Definition dirname (p : pystr) : pystr :=
  let head := upto_last_slash p in
  if forallb (fun c => c =? 47) head then head
  else rev (lstrip_slashes (rev head)).

Module PythonPrivileges.

(** [PythonPrivileges.install_system_package] *)
Definition install_system_package (os : os_response) (package_name : pystr) : M bool :=
  '(result, message) <- install_package os package_name (str "pip") ;;
  print (str "Package installation: " ++ message) ;;
  ret (is_success result).

(** The operation [setup_development_environment] runs. *)
Definition requirements_operation (requirements_file : pystr) : PrivilegedOperation :=
  operation_with_defaults [str "pip"; str "install"; str "-r"; requirements_file]
    (str "Install packages from " ++ requirements_file) ELEVATED 600.

(** [PythonPrivileges.setup_development_environment]; [file_exists] is what
    [os.path.exists(requirements_file)] answers. *)
Definition setup_development_environment (os : os_response) (file_exists : bool)
    (requirements_file : pystr) : M bool :=
  if negb file_exists then
    print (str "Requirements file not found: " ++ requirements_file) ;;
    ret false
  else
    '(result, message) <-
      execute_with_escalation os (requirements_operation requirements_file) ;;
    print (str "Environment setup: " ++ message) ;;
    ret (is_success result).

(** The text of the unit file. *)
Definition service_content (env : dict pystr) (script_path : pystr) : pystr :=
  str "[Unit]" ++ [10]
  ++ str "Description=Claude Python Agent Service" ++ [10]
  ++ str "After=network.target" ++ [10]
  ++ [10]
  ++ str "[Service]" ++ [10]
  ++ str "Type=simple" ++ [10]
  ++ str "User=" ++ getenv env (str "USER") (str "claude") ++ [10]
  ++ str "WorkingDirectory=" ++ dirname script_path ++ [10]
  ++ str "ExecStart=/usr/bin/python3 " ++ script_path ++ [10]
  ++ str "Restart=always" ++ [10]
  ++ str "RestartSec=10" ++ [10]
  ++ [10]
  ++ str "[Install]" ++ [10]
  ++ str "WantedBy=multi-user.target" ++ [10].

(** The three operations of [create_system_service]. *)
Definition copy_operation (temp_file service_name : pystr) : PrivilegedOperation :=
  operation_with_defaults
    [str "cp"; temp_file; str "/etc/systemd/system/" ++ service_name ++ str ".service"]
    (str "Create systemd service: " ++ service_name) ADMINISTRATIVE 300.

Definition setup_operation (service_name : pystr) (cmd : list pystr)
    : PrivilegedOperation :=
  operation_with_defaults cmd (str "Setup service " ++ service_name) ADMINISTRATIVE 300.

(** [PythonPrivileges.create_system_service].  [env] is the environment of
    the process, [write_temp] what creating the temporary file and writing
    the text to it gives, the name of the file or the exception raised, and
    [unlink_raises] the fate of [os.unlink]; [oss 0], [oss 1] and [oss 2]
    are the answers of the operating system during the three calls of the
    orchestrator. *)
Definition create_system_service (oss : nat -> os_response) (env : dict pystr)
    (write_temp : pystr -> exn + pystr) (unlink_raises : option exn)
    (service_name script_path : pystr) : M bool :=
  match write_temp (service_content env script_path) with
  | inl e => raise e
  | inr temp_file =>
      '(result, message) <-
        execute_with_escalation (oss O) (copy_operation temp_file service_name) ;;
      match unlink_raises with
      | Some e => raise e
      | None => ret tt
      end ;;
      (if is_success result then
         execute_with_escalation (oss 1%nat)
           (setup_operation service_name [str "systemctl"; str "daemon-reload"]) ;;
         execute_with_escalation (oss 2%nat)
           (setup_operation service_name [str "systemctl"; str "enable"; service_name]) ;;
         ret tt
       else ret tt) ;;
      print (str "Service creation: " ++ message) ;;
      ret (is_success result)
  end.

End PythonPrivileges.

(* ================================================================== *)
(** * Further observations *)

(** Escalation is needed: the answer of [check_permission_required]. *)
Definition needs_escalation (operation : PrivilegedOperation) (st : state) : bool :=
  match permission_level operation with
  | BASIC => false
  | _ => negb (is_privileged st)
  end.

(** The argument vector the orchestrator runs for an operation. *)
Definition spawned_argv (operation : PrivilegedOperation) (st : state) : list pystr :=
  if needs_escalation operation st
  then str "sudo" :: command operation
  else command operation.

(** The environment the orchestrator gives the process. *)
Definition spawned_env (os : os_response) (operation : PrivilegedOperation)
    : dict pystr :=
  match environment operation with
  | Some (kv :: overlay) => dict_update (environ os) (kv :: overlay)
  | _ => environ os
  end.

(** The processes a trace spawned or tried to spawn: argument vector,
    working directory and environment of each. *)
Fixpoint popen_calls (tr : list event)
    : list (list pystr * option pystr * dict pystr) :=
  match tr with
  | [] => []
  | EvPopen argv cwd env :: tr' => (argv, cwd, env) :: popen_calls tr'
  | _ :: tr' => popen_calls tr'
  end.

(** The time limits the trace waited with. *)
Fixpoint communicate_timeouts (tr : list event) : list Z :=
  match tr with
  | [] => []
  | EvCommunicate t :: tr' => t :: communicate_timeouts tr'
  | _ :: tr' => communicate_timeouts tr'
  end.

(** What went to and came from the console. *)
Definition console_events (tr : list event) : list event := filter is_console tr.

(** The dialogue with the user: what [print] showed and [input] asked. *)
Definition dialogue_events (tr : list event) : list event := filter is_dialogue tr.

(** The prompts a trace asked. *)
Fixpoint input_count (tr : list event) : nat :=
  match tr with
  | [] => O
  | EvInput _ :: tr' => S (input_count tr')
  | _ :: tr' => input_count tr'
  end.

(** The order of the permission levels. *)
Definition level_rank (l : PermissionLevel) : nat :=
  match l with
  | BASIC => 0
  | ELEVATED => 1
  | ADMINISTRATIVE => 2
  end.

(** The lines of the input after the one the prompt recognises. *)
Fixpoint after_answer (lines : list pystr) : list pystr :=
  match lines with
  | [] => []
  | line :: rest =>
      let response := lower (strip line) in
      if str_in response [str "y"; str "yes"] then rest
      else if str_in response [str "n"; str "no"; []] then rest
      else after_answer rest
  end.

(** The entries of the log the summary computes its statistics from. *)
Definition recent_window {A} (limit : Z) (entries : list A) : list A :=
  if (Z.of_nat (length entries) >? limit)%Z
  then slice_from (- limit) entries
  else entries.

(** The number of elements of a list that pass a test. *)
Definition count_if {A} (p : A -> bool) (l : list A) : Z :=
  Z.of_nat (length (filter p l)).

(** The keys of a dictionary. *)
Definition keys {V} (d : dict V) : list pystr := map fst d.

(** All characters are printable ASCII: from the space to the tilde. *)
Definition printable (s : pystr) : Prop := Forall (fun c => 32 <= c /\ c <= 126) s.

Definition printableb (s : pystr) : bool :=
  forallb (fun c => (32 <=? c) && (c <=? 126)) s.

(** The text of the record [_log_operation] writes for an entry, without
    the newline. *)
Definition record_text (e : AuditEntry.t) : pystr := json_dumps (log_entry_of e).

(** What one call adds to the log file, for the handlers [h] of the logger
    and its outcome. *)
Definition call_records (h : logging_setup) (user : pystr)
    (call : os_response * PrivilegedOperation)
    (out : outcome (OperationResult * pystr)) : pystr :=
  attempt_records (fst call) (snd call) h
  ++ match out with
     | Ret (r, m) =>
         match write_raises (fst call) with
         | None => log_line (audit_entry_of (fst call) (snd call) user r m)
         | Some e =>
             firstn (write_cut (fst call))
               (log_line (audit_entry_of (fst call) (snd call) user r m))
             ++ file_record (fst call) 2 h "ERROR"
                  (str "Failed to write audit log: " ++ exn_str e)
         end
     | Raise _ => []
     end.

(** What a run of calls adds to the log file. *)
Fixpoint run_records (h : logging_setup) (user : pystr)
    (calls : list (os_response * PrivilegedOperation))
    (outs : list (outcome (OperationResult * pystr))) : pystr :=
  match calls, outs with
  | call :: calls', out :: outs' =>
      call_records h user call out ++ run_records h user calls' outs'
  | _, _ => []
  end.

(** [e.result == 'success'] and [e.permission_level in ['elevated',
    'administrative']] on an entry of the session history. *)
Definition entry_succeeded (e : AuditEntry.t) : bool :=
  str_eqb (AuditEntry.result e) (str "success").

Definition entry_elevated (e : AuditEntry.t) : bool :=
  str_eqb (AuditEntry.permission_level e) (str "elevated")
  || str_eqb (AuditEntry.permission_level e) (str "administrative").

(** The process was spawned and exited with the code 0. *)
Definition exited_zero (os : os_response) : Prop :=
  popen_raises os = None
  /\ exists out err, communicate_result os = inr (out, err, 0%Z).

(** The operating system refuses to spawn the process. *)
Definition spawn_denied : os_response :=
  {| now_start := {| isoformat := str "2024-01-01T12:00:00" |};
     elapsed := {| num_neg := false; num_int := 0; num_frac := [d1]; num_exp := None |};
     environ := [];
     popen_raises :=
       Some {| exn_cls := PermissionError;
               exn_str := str "[Errno 13] Permission denied: 'sudo'" |};
     communicate_result := exits_zero;
     kill_raises := None;
     write_raises := None;
     write_cut := O;
     asctime := fun _ => str "2024-01-01 12:00:00,000";
     handler_cut := fun _ => None |}.

(** Answers of the operating system to three calls in a row: the first
    process exits with 0, the two after it with 1. *)
Definition only_first_exits_zero (i : nat) : os_response :=
  match i with
  | O => os_answers exits_zero None
  | S _ => os_answers exits_one None
  end.

(** The statistics of the entries of a session history, as the summary
    counts them on the log. *)
Definition stats_of (limit : Z) (entries : list AuditEntry.t) : summary_stats :=
  let recent := recent_window limit entries in
  {| total_entries := Z.of_nat (length recent);
     success_count := count_if entry_succeeded recent;
     failure_count := count_if (fun e => negb (entry_succeeded e)) recent;
     elevated_operations := count_if entry_elevated recent;
     recent_operations :=
       slice_from (-10) (map (fun e => json_reloaded (log_entry_of e)) recent) |}.

(* ================================================================== *)
(** * The consent gate *)

Lemma popen_count_app a b : popen_count (a ++ b) = (popen_count a + popen_count b)%nat.
Proof.
  induction a as [|e a IH]; simpl; [reflexivity|].
  destruct e; simpl; rewrite IH; reflexivity.
Qed.

Lemma file_appends_app a b : file_appends (a ++ b) = file_appends a ++ file_appends b.
Proof.
  induction a as [|e a IH]; simpl; [reflexivity|].
  destruct e; simpl; rewrite IH; reflexivity.
Qed.

Lemma session_appends_app a b :
  session_appends (a ++ b) = session_appends a ++ session_appends b.
Proof.
  induction a as [|e a IH]; simpl; [reflexivity|].
  destruct e; simpl; rewrite IH; reflexivity.
Qed.

Lemma logger_errors_app a b : logger_errors (a ++ b) = logger_errors a ++ logger_errors b.
Proof.
  induction a as [|e a IH]; simpl; [reflexivity|].
  destruct e; simpl; rewrite IH; reflexivity.
Qed.

Lemma console_only_refl st : console_only st st.
Proof.
  repeat split. exists []. split; [now rewrite List.app_nil_r | reflexivity].
Qed.

Lemma console_only_trans a b c : console_only a b -> console_only b c -> console_only a c.
Proof.
  intros (U1 & P1 & S1 & L1 & (W1 & H1 & C1) & e1 & T1 & F1)
         (U2 & P2 & S2 & L2 & (W2 & H2 & C2) & e2 & T2 & F2).
  repeat split; try congruence.
  exists (e1 ++ e2). split.
  - rewrite T2, T1, app_assoc. reflexivity.
  - rewrite forallb_app, F1, F2. reflexivity.
Qed.

Lemma console_error_frame st st' e :
  console_only st st' -> console_error st' e -> console_error st e.
Proof.
  intros (_ & _ & _ & _ & (W & _ & _) & _) [EOF|(text & RAISED)].
  - left. exact EOF.
  - right. exists text. rewrite <- W. exact RAISED.
Qed.

Lemma console_ret {A} (a : A) : console_action (ret a).
Proof.
  intros st. split; [apply console_only_refl | discriminate].
Qed.

Lemma console_bind {A B} (m : M A) (k : A -> M B) :
  console_action m -> (forall a, console_action (k a)) -> console_action (bind m k).
Proof.
  intros Hm Hk st. unfold bind.
  destruct (Hm st) as [C1 E1].
  destruct (m st) as [[a|e] st1]; simpl in *.
  - destruct (Hk a st1) as [C2 E2].
    split; [eauto using console_only_trans | ].
    intros e H. eapply console_error_frame; [exact C1 | now apply E2].
  - split; [exact C1 | intros e' H; inversion H; subst; now apply E1].
Qed.

Lemma console_print text : console_action (print text).
Proof.
  intros st. unfold print, bind, get, emit, raise. cbv beta iota.
  destruct (stdout_write st text) as [e|] eqn:W; cbn [fst snd].
  - split; [apply console_only_refl|].
    intros e' H. injection H as <-. right. exists text. exact W.
  - split; [|discriminate].
    repeat split. exists [EvPrint text]. split; reflexivity.
Qed.

Lemma console_get {A} (f : state -> A) : console_action (get f).
Proof.
  intros st. split; [apply console_only_refl | discriminate].
Qed.

Lemma console_input prompt : console_action (input prompt).
Proof.
  intros st. unfold input, bind, get, emit, raise. cbv beta iota.
  destruct (stdout_write st prompt) as [e|] eqn:W; cbn [fst snd].
  - split; [apply console_only_refl|].
    intros e' H. injection H as <-. right. exists prompt. exact W.
  - cbn [stdin]. destruct (stdin st) as [|line rest]; cbn [fst snd].
    + split.
      * repeat split. exists [EvInput prompt]. split; reflexivity.
      * intros e H. inversion H. left. reflexivity.
    + split.
      * repeat split. exists [EvInput prompt]. split; reflexivity.
      * intros e H. discriminate.
Qed.

Lemma console_prompt_loop pending : console_action (prompt_loop pending).
Proof.
  induction pending as [|p rest IH]; simpl;
    (apply console_bind; [apply console_input | intros line]);
    do 2 (match goal with
          | |- console_action (if ?c then _ else _) => destruct c; [apply console_ret|]
          end);
    (apply console_bind; [apply console_print | intros _]).
  - apply console_bind; [apply console_input | intros _; apply console_ret].
  - exact IH.
Qed.

Lemma console_request_permission operation : console_action (request_permission operation).
Proof.
  unfold request_permission.
  destruct (requires_user_approval operation); simpl; [|apply console_ret].
  repeat (apply console_bind; [apply console_print | intros _]).
  apply console_bind.
  - destruct (permission_level operation);
      [apply console_ret | apply console_print | apply console_print].
  - intros _. apply console_bind; [apply console_get | intros pending].
    apply console_prompt_loop.
Qed.

(* ================================================================== *)
(** * The orchestrator in closed form *)

Lemma check_permission_required_spec operation st :
  check_permission_required operation st
  = (Ret (match permission_level operation with
          | BASIC => false
          | _ => negb (is_privileged st)
          end), st).
Proof.
  unfold check_permission_required, bind, get, ret.
  destruct (permission_level operation); try reflexivity;
    destruct (is_privileged st); reflexivity.
Qed.

Arguments str : simpl never.
Arguments json_dumps : simpl never.
Arguments join : simpl never.
Arguments str_of_Z : simpl never.
Arguments dict_update : simpl never.
Arguments format_record : simpl never.

Lemma bind_ret {A B} (m : M A) (k : A -> M B) st a st' :
  m st = (Ret a, st') -> bind m k st = k a st'.
Proof. intros H. unfold bind. rewrite H. reflexivity. Qed.

(** The handlers, in closed form: they raise nothing. *)
Lemma handle_record_spec os k levelname msg st :
  handle_record os k levelname msg st = (Ret tt, logged os k levelname msg st).
Proof.
  destruct st as [user priv session file inp write h procs tr].
  unfold handle_record, logged, file_record, stream_record, bind, get, ret,
    append_log, emit.
  cbv beta iota zeta.
  cbn [current_user is_privileged session_operations log_file stdin stdout_write
       handlers children trace].
  destruct (file_handler h);
    cbn [current_user is_privileged session_operations log_file stdin stdout_write
         handlers children trace];
    destruct (stream_handler h);
    try destruct (write (format_record (asctime os k) levelname msg));
    cbn [current_user is_privileged session_operations log_file stdin stdout_write
         handlers children trace];
    rewrite ?List.app_nil_r; reflexivity.
Qed.

Lemma logger_info_spec os k msg st :
  logger_info os k msg st
  = (Ret tt, logged os k "INFO" msg (add_events st [EvLoggerInfo msg])).
Proof.
  unfold logger_info, bind, emit. cbv beta iota. apply handle_record_spec.
Qed.

Lemma logger_error_spec os k msg st :
  logger_error os k msg st
  = (Ret tt, logged os k "ERROR" msg (add_events st [EvLoggerError msg])).
Proof.
  unfold logger_error, bind, emit. cbv beta iota. apply handle_record_spec.
Qed.

Lemma at_gate_eq os operation st :
  at_gate os operation st
  = logged os 1 "INFO" (str "Command: " ++ join (str " ") (command operation))
      (add_events
         (logged os 0 "INFO"
            (str "Attempting privileged operation: " ++ description operation)
            (add_events st
               [EvLoggerInfo
                  (str "Attempting privileged operation: " ++ description operation)]))
         [EvLoggerInfo (str "Command: " ++ join (str " ") (command operation))]).
Proof.
  unfold at_gate, bind. rewrite logger_info_spec. cbv beta iota.
  rewrite logger_info_spec. reflexivity.
Qed.

(** What the two records of the attempt leave: the manager is as it was, the
    file has the records its handler could write, and the trace has the two
    calls of the logger, each followed by what the stream handler wrote. *)
Lemma at_gate_frame os operation st :
  current_user (at_gate os operation st) = current_user st
  /\ is_privileged (at_gate os operation st) = is_privileged st
  /\ session_operations (at_gate os operation st) = session_operations st
  /\ log_file (at_gate os operation st)
     = log_file st
       ++ file_record os 0 (handlers st) "INFO"
            (str "Attempting privileged operation: " ++ description operation)
       ++ file_record os 1 (handlers st) "INFO"
            (str "Command: " ++ join (str " ") (command operation))
  /\ (stdin (at_gate os operation st) = stdin st
      /\ stdout_write (at_gate os operation st) = stdout_write st
      /\ handlers (at_gate os operation st) = handlers st
      /\ children (at_gate os operation st) = children st)
  /\ trace (at_gate os operation st)
     = trace st
       ++ EvLoggerInfo (str "Attempting privileged operation: " ++ description operation)
          :: stream_record os 0 st "INFO"
               (str "Attempting privileged operation: " ++ description operation)
       ++ EvLoggerInfo (str "Command: " ++ join (str " ") (command operation))
          :: stream_record os 1 st "INFO"
               (str "Command: " ++ join (str " ") (command operation)).
Proof.
  rewrite at_gate_eq. unfold logged, add_events, stream_record.
  cbn [current_user is_privileged session_operations log_file stdin stdout_write
       handlers children trace].
  repeat split; rewrite <- ?List.app_assoc; reflexivity.
Qed.

Lemma log_operation_spec os operation r m st :
  _log_operation os operation r m (now_start os) st
  = (Ret tt, recorded os operation (r, m) st).
Proof.
  unfold _log_operation, recorded. cbv zeta.
  unfold bind at 1. unfold get at 1. cbv beta iota.
  unfold bind at 1. unfold session_append, bind, emit. cbv beta iota.
  unfold try_except, file_append. cbn [fst snd].
  destruct (write_raises os) as [e|].
  - unfold bind, emit, raise, append_log. cbv beta iota.
    rewrite logger_error_spec. unfold add_events.
    cbn [current_user is_privileged session_operations log_file stdin stdout_write
         handlers children trace].
    rewrite <- !List.app_assoc. reflexivity.
  - unfold bind, emit, append_log. cbv beta iota.
    cbn [current_user is_privileged session_operations log_file stdin stdout_write
         handlers children trace].
    rewrite <- !List.app_assoc. reflexivity.
Qed.

(** The [try] block: whatever the operating system answers, it settles on
    [process_outcome] and raises nothing. *)
Lemma try_block_spec os operation argv st :
  try_except
    (Popen os argv (working_directory operation)
       match environment operation with
       | Some (kv :: overlay) => dict_update (environ os) (kv :: overlay)
       | _ => environ os
       end ;;
     '(stdout, stderr, returncode) <- communicate os (timeout operation) ;;
     if (returncode =? 0)%Z
     then ret (SUCCESS,
               match stdout with
               | [] => str "Operation completed successfully"
               | _ => stdout
               end)
     else ret (OPERATION_FAILED,
               str "Command failed with return code " ++ str_of_Z returncode
               ++ str ": " ++ stderr))
    (fun e =>
       match exn_cls e with
       | TimeoutExpired =>
           kill_spawned os ;;
           ret (OPERATION_FAILED,
                str "Operation timed out after " ++ str_of_Z (timeout operation)
                ++ str " seconds")
       | PermissionError =>
           ret (PERMISSION_DENIED, str "Permission denied - unable to execute command")
       | _ =>
           ret (OPERATION_FAILED, str "Unexpected error: " ++ exn_str e)
       end) st
  = (Ret (process_outcome os operation), spawned os operation argv st).
Proof.
  unfold spawned, process_outcome, process_events, process_children, handled,
    kill_events, kill_spawned.
  unfold Popen, communicate, process_kill, settle.
  unfold try_except, bind, emit, get, ret, raise.
  destruct (popen_raises os) as [[[] ?]|];
    [..| destruct (communicate_result os) as [[[] ?]|[[? ?] ?]]];
    cbn [fst snd exn_cls exn_str current_user is_privileged session_operations
         log_file stdin stdout_write handlers children trace app];
    try match goal with
        | |- context [(?rc =? 0)%Z] => destruct (rc =? 0)%Z
        end;
    try destruct (kill_raises os);
    cbn [fst snd exn_cls exn_str current_user is_privileged session_operations
         log_file stdin stdout_write handlers children trace app];
    repeat rewrite <- List.app_assoc; reflexivity.
Qed.

(** The whole of [execute_with_escalation]: the gate when escalation is
    required, then the process and the record. *)
Lemma execute_closed_form os operation st :
  execute_with_escalation os operation st =
  if match permission_level operation with
     | BASIC => false
     | _ => negb (is_privileged st)
     end
  then
    match request_permission operation (at_gate os operation st) with
    | (Raise e, st2) => (Raise e, st2)
    | (Ret false, st2) => (Ret cancelled, recorded os operation cancelled st2)
    | (Ret true, st2) =>
        (Ret (process_outcome os operation),
         recorded os operation (process_outcome os operation)
           (spawned os operation (str "sudo" :: command operation) st2))
    end
  else
    (Ret (process_outcome os operation),
     recorded os operation (process_outcome os operation)
       (spawned os operation (command operation) (at_gate os operation st))).
Proof.
  unfold execute_with_escalation. cbv zeta.
  unfold bind at 1.
  unfold bind at 1. rewrite logger_info_spec. cbv beta iota.
  rewrite logger_info_spec. cbv beta iota.
  rewrite <- at_gate_eq.
  destruct (at_gate_frame os operation st) as (_ & P1 & _).
  generalize dependent (at_gate os operation st).
  intros st1 P1.
  unfold bind at 1. rewrite check_permission_required_spec. rewrite P1.
  cbv beta iota.
  destruct (match permission_level operation with
            | BASIC => false
            | _ => negb (is_privileged st)
            end) eqn:NEEDS.
  - unfold bind at 1.
    destruct (console_request_permission operation st1)
      as [(U & P & S & L & W & evs & T & F) _].
    destruct (request_permission operation st1) as [[[|]|e] st2]; simpl in P |- *.
    + unfold bind at 1. unfold get at 1. cbv beta iota.
      assert (PRIV : is_privileged st2 = false).
      { rewrite P, P1. destruct (permission_level operation); [discriminate| |];
          now destruct (is_privileged st). }
      rewrite PRIV. cbn [andb negb].
      unfold bind at 1. rewrite try_block_spec.
      destruct (process_outcome os operation) as [r m].
      unfold bind at 1. rewrite log_operation_spec. reflexivity.
    + unfold bind at 1. rewrite log_operation_spec. reflexivity.
    + reflexivity.
  - unfold bind at 1. unfold ret at 1. cbv beta iota. cbn [andb negb].
    unfold bind at 1. unfold get at 1. cbv beta iota.
    unfold bind at 1. rewrite try_block_spec.
    destruct (process_outcome os operation) as [r m].
    unfold bind at 1. rewrite log_operation_spec. reflexivity.
Qed.

(** A call that returns has passed or skipped the gate, talking only to the
    console there, and has then recorded its outcome once. *)
Lemma execute_returns os operation st r m :
  fst (execute_with_escalation os operation st) = Ret (r, m) ->
  exists st2 st3,
    console_only (at_gate os operation st) st2
    /\ snd (execute_with_escalation os operation st) = recorded os operation (r, m) st3
    /\ ((r, m) = cancelled /\ st3 = st2
        /\ escalation_required operation st
        /\ request_permission operation (at_gate os operation st) = (Ret false, st2)
        \/ (r, m) = process_outcome os operation
           /\ exists argv, st3 = spawned os operation argv st2).
Proof.
  rewrite execute_closed_form. unfold escalation_required.
  rewrite check_permission_required_spec. cbn [fst].
  destruct (match permission_level operation with
            | BASIC => false
            | _ => negb (is_privileged st)
            end) eqn:NEEDS.
  - destruct (console_request_permission operation (at_gate os operation st)) as [C _].
    destruct (request_permission operation (at_gate os operation st)) as [[[|]|e] st2];
      cbn [fst snd] in *; intros H; [| |discriminate]; injection H as H1.
    + exists st2, (spawned os operation (str "sudo" :: command operation) st2).
      rewrite <- H1. split; [exact C|]. split; [reflexivity|].
      right. split; [reflexivity | eauto].
    + exists st2, st2. subst r m. split; [exact C|]. split; [reflexivity|].
      left. repeat split.
  - cbn [fst snd]. intros H. injection H as H1.
    exists (at_gate os operation st),
      (spawned os operation (command operation) (at_gate os operation st)).
    rewrite <- H1. split; [apply console_only_refl|]. split; [reflexivity|].
    right. split; [reflexivity | eauto].
Qed.

(** A call that raises has raised at the gate, [EOFError] at its prompt or
    what a write to standard output raised, before any process and any
    record. *)
Lemma execute_raises os operation st e :
  fst (execute_with_escalation os operation st) = Raise e ->
  console_error st e
  /\ console_only (at_gate os operation st) (snd (execute_with_escalation os operation st)).
Proof.
  rewrite execute_closed_form.
  destruct (match permission_level operation with
            | BASIC => false
            | _ => negb (is_privileged st)
            end) eqn:NEEDS.
  - destruct (console_request_permission operation (at_gate os operation st)) as [C E].
    destruct (request_permission operation (at_gate os operation st)) as [[[|]|e'] st2];
      cbn [fst snd] in *; intros H; inversion H; subst.
    split; [|exact C].
    destruct (E e eq_refl) as [EOF|(text & RAISED)]; [left; exact EOF|].
    right. exists text.
    destruct (at_gate_frame os operation st) as (_ & _ & _ & _ & (_ & W & _) & _).
    rewrite <- W. exact RAISED.
  - cbn [fst]. discriminate.
Qed.

Lemma dialogue_is_console evs :
  forallb is_dialogue evs = true -> forallb is_console evs = true.
Proof.
  induction evs as [|e evs IH]; simpl; [reflexivity|].
  destruct e; simpl; try discriminate; exact IH.
Qed.

Lemma console_no_popen evs : forallb is_console evs = true -> popen_count evs = O.
Proof.
  induction evs as [|e evs IH]; simpl; [reflexivity|].
  destruct e; simpl; try discriminate; exact IH.
Qed.

Lemma console_no_record evs :
  forallb is_console evs = true ->
  session_appends evs = [] /\ file_appends evs = [] /\ logger_errors evs = [].
Proof.
  induction evs as [|e evs IH]; simpl; [repeat split|].
  destruct e; simpl; try discriminate; exact IH.
Qed.

Lemma stream_record_console os k st levelname msg :
  forallb is_console (stream_record os k st levelname msg) = true.
Proof.
  unfold stream_record. destruct (stream_handler (handlers st)); [|reflexivity].
  destruct (stdout_write st _); reflexivity.
Qed.

(** What the orchestrator has done when it reaches the gate spawned
    nothing and recorded nothing. *)
Lemma at_gate_events os operation st :
  exists evs,
    trace (at_gate os operation st) = trace st ++ evs
    /\ popen_count evs = O
    /\ session_appends evs = [] /\ file_appends evs = [] /\ logger_errors evs = [].
Proof.
  destruct (at_gate_frame os operation st) as (_ & _ & _ & _ & _ & T).
  eexists. split; [exact T|].
  cbn [popen_count session_appends file_appends logger_errors app].
  rewrite !popen_count_app, !session_appends_app, !file_appends_app, !logger_errors_app.
  cbn [popen_count session_appends file_appends logger_errors app].
  rewrite !(console_no_popen _ (stream_record_console _ _ _ _ _)).
  destruct (console_no_record _ (stream_record_console os 0 st "INFO"
              (str "Attempting privileged operation: " ++ description operation)))
    as (-> & -> & ->).
  destruct (console_no_record _ (stream_record_console os 1 st "INFO"
              (str "Command: " ++ join (str " ") (command operation))))
    as (-> & -> & ->).
  repeat split.
Qed.

(** The message the logger is given for a failed write. *)
Lemma recorded_frame os operation rm st :
  current_user (recorded os operation rm st) = current_user st
  /\ is_privileged (recorded os operation rm st) = is_privileged st
  /\ session_operations (recorded os operation rm st)
     = session_operations st
       ++ [audit_entry_of os operation (current_user st) (fst rm) (snd rm)]
  /\ log_file (recorded os operation rm st)
     = log_file st
       ++ match write_raises os with
          | None =>
              log_line (audit_entry_of os operation (current_user st) (fst rm) (snd rm))
          | Some e =>
              firstn (write_cut os)
                (log_line (audit_entry_of os operation (current_user st) (fst rm) (snd rm)))
              ++ file_record os 2 (handlers st) "ERROR"
                   (str "Failed to write audit log: " ++ exn_str e)
          end
  /\ (stdin (recorded os operation rm st) = stdin st
      /\ stdout_write (recorded os operation rm st) = stdout_write st
      /\ handlers (recorded os operation rm st) = handlers st
      /\ children (recorded os operation rm st) = children st)
  /\ trace (recorded os operation rm st)
     = trace st
       ++ EvSessionAppend (audit_entry_of os operation (current_user st) (fst rm) (snd rm))
          :: EvFileAppend
               (json_dumps (log_entry_of
                  (audit_entry_of os operation (current_user st) (fst rm) (snd rm))))
               match write_raises os with None => true | Some _ => false end
          :: match write_raises os with
             | None => []
             | Some e =>
                 EvLoggerError (str "Failed to write audit log: " ++ exn_str e)
                 :: stream_record os 2 st "ERROR"
                      (str "Failed to write audit log: " ++ exn_str e)
             end.
Proof.
  unfold recorded. cbv zeta.
  destruct (write_raises os) as [e|]; unfold logged, stream_record;
    cbn [current_user is_privileged session_operations log_file stdin stdout_write
         handlers children trace];
    repeat split; rewrite <- ?List.app_assoc; reflexivity.
Qed.

(** The events of the record step: no process, one entry handed to the
    session history, one attempt to write its line. *)
Lemma recorded_events os operation rm st :
  exists evs,
    trace (recorded os operation rm st) = trace st ++ evs
    /\ popen_count evs = O
    /\ session_appends evs
       = [audit_entry_of os operation (current_user st) (fst rm) (snd rm)]
    /\ file_appends evs
       = [(json_dumps (log_entry_of
             (audit_entry_of os operation (current_user st) (fst rm) (snd rm))),
           match write_raises os with None => true | Some _ => false end)].
Proof.
  destruct (recorded_frame os operation rm st) as (_ & _ & _ & _ & _ & T).
  eexists. split; [exact T|].
  cbn [popen_count session_appends file_appends].
  destruct (write_raises os) as [e|]; cbn [popen_count session_appends file_appends];
    [|repeat split].
  rewrite (console_no_popen _ (stream_record_console _ _ _ _ _)).
  destruct (console_no_record _ (stream_record_console os 2 st "ERROR"
              (str "Failed to write audit log: " ++ exn_str e)))
    as (-> & -> & _).
  repeat split.
Qed.

(* ================================================================== *)
(** * The orchestrator: claims *)

(** C2.  When escalation is required and the consent gate returns false,
    [execute_with_escalation] returns USER_CANCELLED with its message and the
    trace of the call holds no process spawn: [Popen] is never reached. *)
Theorem declined_gate_never_spawns os operation st st2 :
  escalation_required operation st ->
  request_permission operation (at_gate os operation st) = (Ret false, st2) ->
  fst (execute_with_escalation os operation st)
  = Ret (USER_CANCELLED, str "User cancelled the operation")
  /\ popen_count (trace (snd (execute_with_escalation os operation st)))
     = popen_count (trace st).
Proof.
  unfold escalation_required. rewrite check_permission_required_spec. cbn [fst].
  intros NEEDS GATE. rewrite execute_closed_form.
  injection NEEDS as NEEDS. rewrite NEEDS, GATE. cbn [fst snd].
  split; [reflexivity|].
  destruct (console_request_permission operation (at_gate os operation st)) as [C _].
  rewrite GATE in C. cbn [snd] in C.
  destruct C as (_ & _ & _ & _ & _ & evs & T & F).
  destruct (at_gate_events os operation st) as (gevs & TG & PG & _).
  destruct (recorded_events os operation cancelled st2) as (revs & TR & PR & _).
  rewrite TR, T, TG.
  rewrite !popen_count_app, PG, PR, (console_no_popen _ (dialogue_is_console _ F)).
  lia.
Qed.

Lemma declined_gate_never_spawns_witness :
  fst (execute_with_escalation (os_answers exits_zero None) chmod_operation
         (fresh_manager [str "maybe"; str " No "]))
  = Ret (USER_CANCELLED, str "User cancelled the operation")
  /\ popen_count (trace (snd (execute_with_escalation (os_answers exits_zero None)
                                chmod_operation (fresh_manager [str "maybe"; str " No "]))))
     = popen_count (trace (fresh_manager [str "maybe"; str " No "])).
Proof.
  eapply declined_gate_never_spawns.
  - reflexivity.
  - vm_compute. reflexivity.
Defined.

Lemma process_outcome_results os operation :
  In (fst (process_outcome os operation)) [SUCCESS; PERMISSION_DENIED; OPERATION_FAILED].
Proof.
  unfold process_outcome, handled.
  destruct (popen_raises os) as [[[] ?]|];
    [..| destruct (communicate_result os) as [[[] ?]|[[? ?] rc]]];
    simpl; try destruct (rc =? 0)%Z; simpl; tauto.
Qed.

(** C8.  Whatever the operation, the manager and the answers of the
    operating system, a result [execute_with_escalation] returns is one of
    SUCCESS, PERMISSION_DENIED, OPERATION_FAILED and USER_CANCELLED:
    ESCALATION_FAILED is produced on no path. *)
Theorem never_escalation_failed os operation st :
  match fst (execute_with_escalation os operation st) with
  | Ret (r, _) =>
      In r [SUCCESS; PERMISSION_DENIED; OPERATION_FAILED; USER_CANCELLED]
      /\ result_value r <> result_value ESCALATION_FAILED
  | Raise _ => True
  end.
Proof.
  destruct (fst (execute_with_escalation os operation st)) as [[r m]|e] eqn:RUN; [|exact I].
  destruct (execute_returns _ _ _ RUN) as (st2 & evs & _ & _ & [(C & _)|(P & _)]).
  - injection C as -> _. split; [simpl; tauto | discriminate].
  - pose proof (process_outcome_results os operation) as IN.
    rewrite <- P in IN. cbn [fst] in IN.
    destruct IN as [<-|[<-|[<-|[]]]]; (split; [simpl; tauto | discriminate]).
Qed.

(** C3, at the input where the code leaves the claim: escalation is
    required, approval is required and standard input is at its end.  The
    [input] of the prompt raises [EOFError]; [request_permission] is called
    outside the [try], so the exception leaves [execute_with_escalation],
    with no process spawned and nothing recorded: the session history is
    empty, no write of a record was attempted, and the log file holds the
    two INFO records of the logger and nothing else. *)
Theorem closed_stdin_raises_to_caller :
  fst (execute_with_escalation (os_answers exits_zero None) chmod_operation (fresh_manager []))
  = Raise {| exn_cls := EOFError; exn_str := str "EOF when reading a line" |}
  /\ session_operations
       (snd (execute_with_escalation (os_answers exits_zero None) chmod_operation
               (fresh_manager []))) = []
  /\ popen_count
       (trace (snd (execute_with_escalation (os_answers exits_zero None) chmod_operation
                      (fresh_manager [])))) = O
  /\ file_appends
       (trace (snd (execute_with_escalation (os_answers exits_zero None) chmod_operation
                      (fresh_manager [])))) = []
  /\ file_lines
       (snd (execute_with_escalation (os_answers exits_zero None) chmod_operation
               (fresh_manager [])))
     = [str "2024-01-01 12:00:00,000 - INFO - Attempting privileged operation: Change permissions/ownership for /tmp/x" ++ [10];
        str "2024-01-01 12:00:00,000 - INFO - Command: chmod 755 /tmp/x" ++ [10]].
Proof.
  vm_compute. repeat split.
Qed.

(** Apart from that, nothing is raised: a call whose gate is answered, or
    not asked, returns a value. *)
Lemma answered_gate_returns os operation st :
  (forall e st2, request_permission operation (at_gate os operation st) <> (Raise e, st2)) ->
  exists r m, fst (execute_with_escalation os operation st) = Ret (r, m).
Proof.
  intros ANSWERED. rewrite execute_closed_form.
  destruct (match permission_level operation with
            | BASIC => false
            | _ => negb (is_privileged st)
            end).
  - destruct (request_permission operation (at_gate os operation st)) as [[[|]|e] st2] eqn:G.
    + destruct (process_outcome os operation) as [r m]. cbn [fst]. eauto.
    + unfold cancelled. cbn [fst]. eauto.
    + exfalso. eapply ANSWERED. reflexivity.
  - destruct (process_outcome os operation) as [r m]. cbn [fst]. eauto.
Qed.

Lemma execute_passed os operation st st2 :
  gate_passes os operation st st2 ->
  exists argv,
    execute_with_escalation os operation st
    = (Ret (process_outcome os operation),
       recorded os operation (process_outcome os operation)
         (spawned os operation argv st2)).
Proof.
  unfold gate_passes, escalation_required.
  rewrite check_permission_required_spec. cbn [fst].
  rewrite execute_closed_form.
  intros [(NEEDS & GATE)|(NEEDS & ->)]; injection NEEDS as NEEDS; rewrite NEEDS.
  - rewrite GATE. eauto.
  - eauto.
Qed.

(** C4, as stated, fails where the kill fails: [process.kill()] raises (the
    process below runs under [sudo] and the caller may not signal it), the
    bare [except] swallows that, and the call reports the timeout while the
    process it spawned is still running. *)
Lemma failed_kill_leaves_process_running :
  fst (execute_with_escalation times_out_unkillable chmod_operation
         (fresh_manager [str "y"]))
  = Ret (OPERATION_FAILED, str "Operation timed out after 1 seconds")
  /\ children (snd (execute_with_escalation times_out_unkillable chmod_operation
                      (fresh_manager [str "y"])))
     = [Running]
  /\ ~ In Killed
       (children (snd (execute_with_escalation times_out_unkillable chmod_operation
                         (fresh_manager [str "y"])))).
Proof.
  split; [vm_compute; reflexivity|].
  split; [vm_compute; reflexivity|].
  vm_compute. intros [H|[]]. discriminate.
Qed.

(** C4, amended.  When the call gets past the gate and the spawned process
    does not exit within [operation.timeout] seconds ([communicate] raises
    [TimeoutExpired]), a kill of the process is attempted after it was
    spawned and waited for; the process is killed when that kill does not
    raise and is left running when it does; either way
    [execute_with_escalation] returns OPERATION_FAILED with the message
    [Operation timed out after <timeout> seconds].  A process that exits
    with a non-zero code gives OPERATION_FAILED with the message
    [Command failed with return code <code>: <stderr>], a different result,
    and is recorded as exited. *)
Theorem timeout_is_reported_distinctly os operation st st2 e :
  gate_passes os operation st st2 ->
  popen_raises os = None ->
  communicate_result os = inl e ->
  exn_cls e = TimeoutExpired ->
  fst (execute_with_escalation os operation st)
  = Ret (OPERATION_FAILED,
         str "Operation timed out after " ++ str_of_Z (timeout operation) ++ str " seconds")
  /\ (exists argv env after,
        trace (snd (execute_with_escalation os operation st))
        = trace st2
          ++ EvPopen argv (working_directory operation) env
             :: EvCommunicate (timeout operation) :: EvKill :: after)
  /\ children (snd (execute_with_escalation os operation st))
     = match kill_raises os with
       | None => Killed
       | Some _ => Running
       end :: children st2
  /\ (forall os' st2' out err rc,
        gate_passes os' operation st st2' ->
        popen_raises os' = None ->
        communicate_result os' = inr (out, err, rc) ->
        rc <> 0%Z ->
        fst (execute_with_escalation os' operation st)
        = Ret (OPERATION_FAILED,
               str "Command failed with return code " ++ str_of_Z rc ++ str ": " ++ err)
        /\ children (snd (execute_with_escalation os' operation st))
           = Exited rc :: children st2'
        /\ fst (execute_with_escalation os' operation st)
           <> fst (execute_with_escalation os operation st)).
Proof.
  intros PASS SPAWNED WAIT TIMEOUT.
  destruct (execute_passed PASS) as (argv & RUN).
  assert (OUT : process_outcome os operation
                = (OPERATION_FAILED,
                   str "Operation timed out after " ++ str_of_Z (timeout operation)
                   ++ str " seconds")).
  { unfold process_outcome, handled. rewrite SPAWNED, WAIT, TIMEOUT. reflexivity. }
  rewrite RUN, OUT. cbn [fst snd]. split; [reflexivity|].
  match goal with
  | |- context [recorded os operation ?rm ?s] =>
      destruct (recorded_frame os operation rm s) as (_ & _ & _ & _ & (_ & _ & _ & CH) & TR)
  end.
  split; [|split].
  - rewrite TR. unfold spawned, process_events, kill_events. cbn [trace].
    rewrite SPAWNED, WAIT, TIMEOUT. rewrite <- !List.app_assoc. cbn [app]. eauto.
  - rewrite CH. unfold spawned, process_children. cbn [children].
    rewrite SPAWNED, WAIT, TIMEOUT. destruct (kill_raises os); reflexivity.
  - intros os' st2' out err rc PASS' SPAWNED' WAIT' NONZERO.
    destruct (execute_passed PASS') as (argv' & RUN').
    rewrite RUN'. cbn [fst snd].
    match goal with
    | |- context [recorded os' operation ?rm ?s] =>
        destruct (recorded_frame os' operation rm s) as (_ & _ & _ & _ & (_ & _ & _ & CH') & _)
    end.
    rewrite CH'. unfold spawned, process_children, process_outcome. cbn [children].
    rewrite SPAWNED', WAIT'.
    destruct (rc =? 0)%Z eqn:RC; [apply Z.eqb_eq in RC; contradiction|].
    split; [reflexivity|]. split; [reflexivity|]. simpl. discriminate.
Qed.

Lemma timeout_is_reported_distinctly_witness :
  fst (execute_with_escalation (os_answers times_out None) chmod_operation
         (fresh_manager [str "y"]))
  = Ret (OPERATION_FAILED, str "Operation timed out after 1 seconds")
  /\ children (snd (execute_with_escalation (os_answers times_out None) chmod_operation
                      (fresh_manager [str "y"])))
     = [Killed]
  /\ fst (execute_with_escalation (os_answers exits_one None) chmod_operation
            (fresh_manager [str "y"]))
     = Ret (OPERATION_FAILED, str "Command failed with return code 1: denied").
Proof.
  destruct (@timeout_is_reported_distinctly
              (os_answers times_out None) chmod_operation (fresh_manager [str "y"])
              (snd (request_permission chmod_operation
                      (at_gate (os_answers times_out None) chmod_operation
                         (fresh_manager [str "y"]))))
              {| exn_cls := TimeoutExpired; exn_str := str "timed out" |})
    as (T & _ & K & D).
  - left. split; vm_compute; reflexivity.
  - reflexivity.
  - reflexivity.
  - reflexivity.
  - split; [exact T|]. split; [exact K|].
    refine (proj1 (D (os_answers exits_one None)
                     (snd (request_permission chmod_operation
                             (at_gate (os_answers exits_one None) chmod_operation
                                (fresh_manager [str "y"]))))
                     [] (str "denied") 1%Z _ _ _ _));
      [left; split; vm_compute; reflexivity | reflexivity | reflexivity | discriminate].
Defined.

Lemma process_outcome_with_write os w operation :
  process_outcome (with_write os w) operation = process_outcome os operation.
Proof. reflexivity. Qed.

Lemma spawned_with_write os w operation argv st :
  spawned (with_write os w) operation argv st = spawned os operation argv st.
Proof. reflexivity. Qed.

Lemma at_gate_with_write os w operation st :
  at_gate (with_write os w) operation st = at_gate os operation st.
Proof. reflexivity. Qed.

Lemma audit_entry_with_write os w operation user r m :
  audit_entry_of (with_write os w) operation user r m = audit_entry_of os operation user r m.
Proof. reflexivity. Qed.

Lemma stream_record_frame os k st st' levelname msg :
  stdout_write st' = stdout_write st ->
  handlers st' = handlers st ->
  stream_record os k st' levelname msg = stream_record os k st levelname msg.
Proof. intros W H. unfold stream_record. rewrite W, H. reflexivity. Qed.

Lemma process_events_no_record os operation argv :
  session_appends (process_events os operation argv) = []
  /\ file_appends (process_events os operation argv) = [].
Proof.
  unfold process_events, kill_events.
  destruct (popen_raises os) as [[[] ?]|];
    [..| destruct (communicate_result os) as [[[] ?]|?]];
    simpl; split; reflexivity.
Qed.

Lemma after_gate_before_record os operation st st2 :
  console_only (at_gate os operation st) st2 ->
  before_record os operation st st2.
Proof.
  intros (U & P & S & L & (W & H & _) & evs & T & F).
  destruct (at_gate_frame os operation st) as (UG & PG & SG & LG & (_ & WG & HG & _) & _).
  destruct (at_gate_events os operation st) as (gevs & TG & _ & GS & GF & _).
  destruct (console_no_record _ (dialogue_is_console _ F)) as (CS & CF & _).
  unfold before_record, attempt_records.
  rewrite U, UG, P, PG, S, SG, L, LG, W, WG, H, HG.
  repeat split.
  exists (gevs ++ evs). rewrite T, TG, <- List.app_assoc.
  rewrite session_appends_app, file_appends_app, GS, GF, CS, CF.
  repeat split.
Qed.

Lemma spawned_before_record os operation argv st st2 :
  before_record os operation st st2 ->
  before_record os operation st (spawned os operation argv st2).
Proof.
  intros (U & P & S & L & W & H & before & T & BS & BF).
  destruct (process_events_no_record os operation argv) as (PS & PF).
  unfold before_record, spawned.
  cbn [current_user is_privileged session_operations log_file stdout_write handlers trace].
  repeat split; try assumption.
  exists (before ++ process_events os operation argv).
  rewrite T, <- List.app_assoc, session_appends_app, file_appends_app, BS, BF, PS, PF.
  repeat split.
Qed.

(** A call that returns has reached [_log_operation] once, in a state that
    differs from the caller's by the records of the attempt and by events
    that record nothing. *)
Lemma execute_returns_record os operation st r m :
  fst (execute_with_escalation os operation st) = Ret (r, m) ->
  exists s,
    snd (execute_with_escalation os operation st) = recorded os operation (r, m) s
    /\ before_record os operation st s.
Proof.
  intros RUN.
  destruct (execute_returns _ _ _ RUN) as (st2 & st3 & C & REC & CASES).
  exists st3. split; [exact REC|].
  pose proof (@after_gate_before_record _ _ _ _ C) as B.
  destruct CASES as [(_ & -> & _)|(_ & argv & ->)];
    [exact B | now apply spawned_before_record].
Qed.

(** The effect of a call that returns, from the state of its caller. *)
Lemma execute_returns_effect os operation st r m :
  fst (execute_with_escalation os operation st) = Ret (r, m) ->
  current_user (snd (execute_with_escalation os operation st)) = current_user st
  /\ session_operations (snd (execute_with_escalation os operation st))
     = session_operations st ++ [audit_entry_of os operation (current_user st) r m]
  /\ log_file (snd (execute_with_escalation os operation st))
     = log_file st ++ attempt_records os operation (handlers st)
       ++ match write_raises os with
          | None => log_line (audit_entry_of os operation (current_user st) r m)
          | Some e =>
              firstn (write_cut os)
                (log_line (audit_entry_of os operation (current_user st) r m))
              ++ file_record os 2 (handlers st) "ERROR"
                   (str "Failed to write audit log: " ++ exn_str e)
          end
  /\ handlers (snd (execute_with_escalation os operation st)) = handlers st
  /\ exists before after,
       trace (snd (execute_with_escalation os operation st))
       = trace st ++ before
         ++ EvSessionAppend (audit_entry_of os operation (current_user st) r m)
            :: EvFileAppend
                 (json_dumps (log_entry_of
                    (audit_entry_of os operation (current_user st) r m)))
                 match write_raises os with None => true | Some _ => false end
            :: after
       /\ session_appends before = [] /\ file_appends before = []
       /\ session_appends after = [] /\ file_appends after = []
       /\ after = match write_raises os with
                  | None => []
                  | Some e =>
                      EvLoggerError (str "Failed to write audit log: " ++ exn_str e)
                      :: stream_record os 2 st "ERROR"
                           (str "Failed to write audit log: " ++ exn_str e)
                  end.
Proof.
  intros RUN.
  destruct (execute_returns_record _ _ _ RUN)
    as (s & -> & U & P & S & L & W & H & before & T & BS & BF).
  destruct (recorded_frame os operation (r, m) s)
    as (UR & _ & SR & LR & (_ & _ & HR & _) & TR).
  cbn [fst snd] in *.
  rewrite UR, SR, LR, HR, TR, U, S, L, H, T, <- !List.app_assoc.
  assert (SAME : forall msg, stream_record os 2 s "ERROR" msg
                             = stream_record os 2 st "ERROR" msg)
    by (intros msg; now apply stream_record_frame).
  do 4 (split; [reflexivity|]).
  exists before. eexists. split; [reflexivity|].
  split; [exact BS|]. split; [exact BF|].
  destruct (write_raises os) as [e|]; cbn [session_appends file_appends];
    [|repeat split].
  rewrite SAME.
  destruct (console_no_record _ (stream_record_console os 2 st "ERROR"
              (str "Failed to write audit log: " ++ exn_str e)))
    as (-> & -> & _).
  repeat split.
Qed.

(** What the record step changes, side by side for a write that fails and
    one that succeeds. *)
Lemma recorded_write_failure os operation rm s e :
  write_raises os = Some e ->
  exists pre line,
    trace (recorded (with_write os None) operation rm s)
    = pre ++ [EvFileAppend line true]
    /\ trace (recorded os operation rm s)
       = pre ++ [EvFileAppend line false;
                 EvLoggerError (str "Failed to write audit log: " ++ exn_str e)]
         ++ stream_record os 2 s "ERROR" (str "Failed to write audit log: " ++ exn_str e)
    /\ log_file (recorded (with_write os None) operation rm s)
       = log_file s ++ line ++ [10]
    /\ log_file (recorded os operation rm s)
       = log_file s
         ++ firstn (write_cut os) (line ++ [10])
         ++ file_record os 2 (handlers s) "ERROR"
              (str "Failed to write audit log: " ++ exn_str e)
    /\ session_operations (recorded os operation rm s)
       = session_operations (recorded (with_write os None) operation rm s)
    /\ stdin (recorded os operation rm s)
       = stdin (recorded (with_write os None) operation rm s)
    /\ children (recorded os operation rm s)
       = children (recorded (with_write os None) operation rm s).
Proof.
  intros W.
  destruct (recorded_frame os operation rm s)
    as (_ & _ & S1 & L1 & (I1 & _ & _ & C1) & T1).
  destruct (recorded_frame (with_write os None) operation rm s)
    as (_ & _ & S2 & L2 & (I2 & _ & _ & C2) & T2).
  rewrite W in *. cbn [write_raises with_write] in *.
  rewrite !audit_entry_with_write in *.
  set (entry := audit_entry_of os operation (current_user s) (fst rm) (snd rm)) in *.
  exists (trace s ++ [EvSessionAppend entry]), (json_dumps (log_entry_of entry)).
  rewrite T1, T2, L1, L2, S1, S2, I1, I2, C1, C2, <- !List.app_assoc.
  repeat split.
Qed.

(** C5.  When the append to the log file fails with an error [e], the call
    ends as it does when the write succeeds: the same outcome and message
    come back, or the same exception of the gate; nothing of the write
    failure reaches the caller.  The failure goes to the logger alone:
    after the failed attempt the logger is given
    [Failed to write audit log: e] at level ERROR, which its handlers put
    on standard output and, as far as the file handler can still write,
    into the log file, after what the failed write left there of the line.
    The session history, the input read and the process are the same in the
    two runs. *)
Theorem write_failure_is_isolated os operation st e :
  write_raises os = Some e ->
  fst (execute_with_escalation os operation st)
  = fst (execute_with_escalation (with_write os None) operation st)
  /\ match fst (execute_with_escalation os operation st) with
     | Ret _ =>
         exists pre line,
           trace (snd (execute_with_escalation (with_write os None) operation st))
           = pre ++ [EvFileAppend line true]
           /\ trace (snd (execute_with_escalation os operation st))
              = pre ++ [EvFileAppend line false;
                        EvLoggerError (str "Failed to write audit log: " ++ exn_str e)]
                ++ stream_record os 2 st "ERROR"
                     (str "Failed to write audit log: " ++ exn_str e)
           /\ log_file (snd (execute_with_escalation (with_write os None) operation st))
              = log_file st ++ attempt_records os operation (handlers st)
                ++ line ++ [10]
           /\ log_file (snd (execute_with_escalation os operation st))
              = log_file st ++ attempt_records os operation (handlers st)
                ++ firstn (write_cut os) (line ++ [10])
                ++ file_record os 2 (handlers st) "ERROR"
                     (str "Failed to write audit log: " ++ exn_str e)
           /\ session_operations (snd (execute_with_escalation os operation st))
              = session_operations
                  (snd (execute_with_escalation (with_write os None) operation st))
           /\ stdin (snd (execute_with_escalation os operation st))
              = stdin (snd (execute_with_escalation (with_write os None) operation st))
           /\ children (snd (execute_with_escalation os operation st))
              = children (snd (execute_with_escalation (with_write os None) operation st))
     | Raise _ =>
         snd (execute_with_escalation os operation st)
         = snd (execute_with_escalation (with_write os None) operation st)
     end.
Proof.
  intros W. rewrite !execute_closed_form.
  rewrite !process_outcome_with_write, !spawned_with_write, !at_gate_with_write.
  assert (SIDE : forall rm s,
            before_record os operation st s ->
            exists pre line,
              trace (recorded (with_write os None) operation rm s)
              = pre ++ [EvFileAppend line true]
              /\ trace (recorded os operation rm s)
                 = pre ++ [EvFileAppend line false;
                           EvLoggerError (str "Failed to write audit log: " ++ exn_str e)]
                   ++ stream_record os 2 st "ERROR"
                        (str "Failed to write audit log: " ++ exn_str e)
              /\ log_file (recorded (with_write os None) operation rm s)
                 = log_file st ++ attempt_records os operation (handlers st)
                   ++ line ++ [10]
              /\ log_file (recorded os operation rm s)
                 = log_file st ++ attempt_records os operation (handlers st)
                   ++ firstn (write_cut os) (line ++ [10])
                   ++ file_record os 2 (handlers st) "ERROR"
                        (str "Failed to write audit log: " ++ exn_str e)
              /\ session_operations (recorded os operation rm s)
                 = session_operations (recorded (with_write os None) operation rm s)
              /\ stdin (recorded os operation rm s)
                 = stdin (recorded (with_write os None) operation rm s)
              /\ children (recorded os operation rm s)
                 = children (recorded (with_write os None) operation rm s)).
  { intros rm s (_ & _ & _ & L & WR & H & _).
    destruct (@recorded_write_failure os operation rm s _ W)
      as (pre & line & T1 & T2 & F1 & F2 & S & I & C).
    exists pre, line.
    rewrite T1, T2, F1, F2, L, H, <- !List.app_assoc,
      (@stream_record_frame os 2%nat st s _ _ WR H).
    repeat split; assumption. }
  destruct (match permission_level operation with
            | BASIC => false
            | _ => negb (is_privileged st)
            end).
  - destruct (console_request_permission operation (at_gate os operation st)) as [C _].
    apply after_gate_before_record in C.
    destruct (request_permission operation (at_gate os operation st)) as [[[|]|x] st2];
      cbn [fst snd] in *; rewrite ?spawned_with_write;
      (split; [reflexivity|]); [| |reflexivity].
    + apply SIDE. now apply spawned_before_record.
    + apply SIDE. exact C.
  - cbn [fst snd]. rewrite ?spawned_with_write. split; [reflexivity|].
    apply SIDE. apply spawned_before_record. apply after_gate_before_record.
    apply console_only_refl.
Qed.

Lemma write_failure_is_isolated_witness :
  fst (execute_with_escalation (os_answers exits_zero (Some disk_full)) chmod_operation
         (fresh_manager [str "y"]))
  = fst (execute_with_escalation
           (with_write (os_answers exits_zero (Some disk_full)) None) chmod_operation
           (fresh_manager [str "y"])).
Proof.
  exact (proj1 (@write_failure_is_isolated
                  (os_answers exits_zero (Some disk_full)) chmod_operation
                  (fresh_manager [str "y"]) disk_full eq_refl)).
Defined.

(** C1, as stated, fails where the write to the log file fails: the call
    below completes with SUCCESS, and the audit log has gained the two INFO
    records of the logger and no audit record. *)
Lemma failed_write_leaves_no_record :
  fst (execute_with_escalation (os_answers exits_zero (Some disk_full)) chmod_operation
         (fresh_manager [str "y"]))
  = Ret (SUCCESS, str "ok")
  /\ file_lines (snd (execute_with_escalation (os_answers exits_zero (Some disk_full))
                        chmod_operation (fresh_manager [str "y"])))
     = [str "2024-01-01 12:00:00,000 - INFO - Attempting privileged operation: Change permissions/ownership for /tmp/x" ++ [10];
        str "2024-01-01 12:00:00,000 - INFO - Command: chmod 755 /tmp/x" ++ [10]]
  /\ filter is_record_line
       (file_lines (snd (execute_with_escalation (os_answers exits_zero (Some disk_full))
                           chmod_operation (fresh_manager [str "y"]))))
     = [].
Proof.
  vm_compute. repeat split.
Qed.

(** C1, amended.  Every call of [execute_with_escalation] that returns,
    whatever its outcome, has built exactly one audit entry and recorded it
    exactly once: the call appended that entry to the session history and
    made exactly one attempt to append its JSON line to the log file.  What
    the call has added to the file is the two INFO records of the logger,
    as far as its file handler wrote them, followed by that one line when
    the write succeeded; when the write failed, they are followed by what
    the failed write left of the line and by the ERROR record of the logger,
    as far as the handler wrote it. *)
Theorem returning_call_records_once os operation st r m :
  fst (execute_with_escalation os operation st) = Ret (r, m) ->
  exists evs,
    trace (snd (execute_with_escalation os operation st)) = trace st ++ evs
    /\ session_appends evs = [audit_entry_of os operation (current_user st) r m]
    /\ file_appends evs
       = [(json_dumps (log_entry_of (audit_entry_of os operation (current_user st) r m)),
           match write_raises os with None => true | Some _ => false end)]
    /\ session_operations (snd (execute_with_escalation os operation st))
       = session_operations st ++ [audit_entry_of os operation (current_user st) r m]
    /\ log_file (snd (execute_with_escalation os operation st))
       = log_file st ++ attempt_records os operation (handlers st)
         ++ match write_raises os with
            | None => log_line (audit_entry_of os operation (current_user st) r m)
            | Some e =>
                firstn (write_cut os)
                  (log_line (audit_entry_of os operation (current_user st) r m))
                ++ file_record os 2 (handlers st) "ERROR"
                     (str "Failed to write audit log: " ++ exn_str e)
            end.
Proof.
  intros RUN.
  destruct (execute_returns_effect _ _ _ RUN)
    as (_ & S & L & _ & before & after & T & BS & BF & AS & AF & _).
  eexists. split; [exact T|].
  rewrite session_appends_app, file_appends_app, BS, BF.
  cbn [session_appends file_appends app]. rewrite AS, AF.
  repeat split; assumption.
Qed.

Lemma returning_call_records_once_witness :
  exists evs,
    trace (snd (execute_with_escalation (os_answers times_out None) chmod_operation
                  (fresh_manager [str "y"])))
    = trace (fresh_manager [str "y"]) ++ evs
    /\ length (session_appends evs) = 1%nat
    /\ length (file_appends evs) = 1%nat.
Proof.
  destruct (@returning_call_records_once
              (os_answers times_out None) chmod_operation (fresh_manager [str "y"])
              OPERATION_FAILED (str "Operation timed out after 1 seconds"))
    as (evs & T & S & F & _).
  - vm_compute. reflexivity.
  - exists evs. rewrite S, F. repeat split. exact T.
Defined.

Lemma execute_session_step os operation st :
  current_user (snd (execute_with_escalation os operation st)) = current_user st
  /\ session_operations (snd (execute_with_escalation os operation st))
     = session_operations st
       ++ match fst (execute_with_escalation os operation st) with
          | Ret (r, m) => [audit_entry_of os operation (current_user st) r m]
          | Raise _ => []
          end.
Proof.
  destruct (fst (execute_with_escalation os operation st)) as [[r m]|e] eqn:RUN.
  - destruct (execute_returns_effect _ _ _ RUN) as (U & S & _).
    split; assumption.
  - destruct (execute_raises _ _ _ RUN) as (_ & (U & _ & S & _)).
    destruct (at_gate_frame os operation st) as (UG & _ & SG & _).
    rewrite U, UG, S, SG, List.app_nil_r. split; reflexivity.
Qed.

Lemma run_calls_session calls : forall st,
  current_user (snd (run_calls calls st)) = current_user st
  /\ session_operations (snd (run_calls calls st))
     = session_operations st
       ++ completed_entries (current_user st) calls (fst (run_calls calls st)).
Proof.
  induction calls as [|[os operation] calls IH]; intros st; simpl.
  - rewrite List.app_nil_r. split; reflexivity.
  - destruct (execute_session_step os operation st) as (U1 & S1).
    destruct (execute_with_escalation os operation st) as [out st1]; cbn [fst snd] in *.
    destruct (IH st1) as (U2 & S2).
    destruct (run_calls calls st1) as [outs st2]; cbn [fst snd] in *.
    rewrite U2, S2, S1, U1. split; [reflexivity|].
    destruct out as [[r m]|e]; simpl; rewrite <- List.app_assoc; reflexivity.
Qed.

(** C10.  After any sequence of calls on one manager, the session history
    is what it was before followed by exactly one entry for each call that
    completed, in the order the calls completed; and each such call hands
    its entry to the session history directly before its attempt to write
    the log file, so the entry is in [get_session_history()] whether the
    write succeeds or fails.  A call that raised at the gate adds nothing. *)
Theorem session_history_one_entry_per_completed_call calls st :
  fst (get_session_history (snd (run_calls calls st)))
  = Ret (session_operations st
         ++ completed_entries (current_user st) calls (fst (run_calls calls st)))
  /\ (forall os operation st0,
        match fst (execute_with_escalation os operation st0) with
        | Ret (r, m) =>
            let entry := audit_entry_of os operation (current_user st0) r m in
            (exists pre post,
               trace (snd (execute_with_escalation os operation st0))
               = pre
                 ++ EvSessionAppend entry
                    :: EvFileAppend (json_dumps (log_entry_of entry))
                         match write_raises os with None => true | Some _ => false end
                    :: post)
            /\ fst (get_session_history (snd (execute_with_escalation os operation st0)))
               = Ret (session_operations st0 ++ [entry])
        | Raise _ =>
            fst (get_session_history (snd (execute_with_escalation os operation st0)))
            = Ret (session_operations st0)
        end).
Proof.
  split.
  - unfold get_session_history, get. cbn [fst].
    destruct (run_calls_session calls st) as (_ & ->). reflexivity.
  - intros os operation st0. unfold get_session_history, get. cbn [fst].
    destruct (execute_session_step os operation st0) as (_ & S).
    destruct (fst (execute_with_escalation os operation st0)) as [[r m]|e] eqn:RUN.
    + split; [|now rewrite S].
      destruct (execute_returns_effect _ _ _ RUN)
        as (_ & _ & _ & _ & before & after & T & _).
      exists (trace st0 ++ before), after.
      rewrite T, <- List.app_assoc. reflexivity.
    + rewrite S, List.app_nil_r. reflexivity.
Qed.

(* ================================================================== *)
(** * The classifier *)

Lemma str_eqb_eq a : forall b, str_eqb a b = true <-> a = b.
Proof.
  induction a as [|x a IH]; intros [|y b]; simpl; split; intros H;
    try reflexivity; try discriminate.
  - apply andb_true_iff in H. destruct H as [XY AB].
    apply N.eqb_eq in XY. apply IH in AB. congruence.
  - injection H as -> ->. rewrite N.eqb_refl. simpl. now apply IH.
Qed.

Lemma str_in_In x l : str_in x l = true <-> In x l.
Proof.
  unfold str_in. rewrite existsb_exists. split.
  - intros (y & IN & EQ). apply str_eqb_eq in EQ. now subst.
  - intros IN. exists x. split; [exact IN | now apply str_eqb_eq].
Qed.

Lemma str_in_false x l : ~ In x l -> str_in x l = false.
Proof.
  intros NOT. destruct (str_in x l) eqn:E; [|reflexivity].
  apply str_in_In in E. contradiction.
Qed.

Lemma startswith_prefix s : forall prefix,
  startswith s prefix = true <-> exists rest, s = prefix ++ rest.
Proof.
  induction s as [|c s IH]; intros [|p prefix]; simpl.
  - split; [exists []; reflexivity | reflexivity].
  - split; [discriminate | intros (rest & H); discriminate].
  - split; [intros _; eexists; reflexivity | reflexivity].
  - rewrite andb_true_iff, N.eqb_eq, IH. split.
    + intros (-> & rest & ->). exists rest. reflexivity.
    + intros (rest & H). injection H as -> ->. split; [reflexivity | eauto].
Qed.

Lemma path_scan_spec argv :
  existsb (fun arg => existsb (fun path => startswith arg path) privileged_paths) argv = true
  <-> touches_privileged_path argv.
Proof.
  unfold touches_privileged_path. rewrite existsb_exists. split.
  - intros (arg & IN & H). apply existsb_exists in H. destruct H as (path & INP & SW).
    apply startswith_prefix in SW. destruct SW as (rest & ->). eauto 6.
  - intros (arg & path & rest & IN & INP & ->). exists (path ++ rest).
    split; [exact IN|]. apply existsb_exists. exists path.
    split; [exact INP|]. apply startswith_prefix. eauto.
Qed.

(** C6.  For every argv whose first token, lowered, is in neither the
    administrative nor the elevated command set: if some argument starts
    with one of /etc, /usr/local, /opt, /var, /root then
    [analyze_command_permissions] returns ELEVATED, and otherwise it returns
    BASIC. *)
Theorem privileged_path_decides_level argv :
  first_token_unclassified argv ->
  (touches_privileged_path argv -> analyze_command_permissions argv = ELEVATED)
  /\ (~ touches_privileged_path argv -> analyze_command_permissions argv = BASIC).
Proof.
  intros UNCLASSIFIED. destruct argv as [|first rest].
  - split; [|reflexivity].
    intros (arg & _ & _ & [] & _).
  - destruct (UNCLASSIFIED first rest eq_refl) as (NA & NE).
    unfold analyze_command_permissions.
    rewrite (str_in_false _ _ NA), (str_in_false _ _ NE).
    destruct (existsb _ (first :: rest)) eqn:SCAN.
    + split; [reflexivity|]. intros NOT. apply path_scan_spec in SCAN. contradiction.
    + split; [|reflexivity]. intros TOUCH. apply path_scan_spec in TOUCH. congruence.
Qed.

Lemma privileged_path_decides_level_witness :
  analyze_command_permissions [str "cat"; str "/etc/passwd"] = ELEVATED
  /\ analyze_command_permissions [str "cat"; str "notes.txt"] = BASIC.
Proof.
  split.
  - apply (proj1 (@privileged_path_decides_level [str "cat"; str "/etc/passwd"]
                    ltac:(intros first rest H; injection H as <- <-;
                          split; intros IN; apply str_in_In in IN;
                          vm_compute in IN; discriminate))).
    exists (str "/etc/passwd"), (str "/etc"), (str "/passwd").
    split; [right; left; reflexivity|]. split; [left; reflexivity | reflexivity].
  - apply (proj2 (@privileged_path_decides_level [str "cat"; str "notes.txt"]
                    ltac:(intros first rest H; injection H as <- <-;
                          split; intros IN; apply str_in_In in IN;
                          vm_compute in IN; discriminate))).
    intros TOUCH. apply path_scan_spec in TOUCH. vm_compute in TOUCH. discriminate.
Defined.

(* ================================================================== *)
(** * The audit summary *)

Lemma read_entries_skips_corrupt lines :
  read_entries lines = read_entries (filter parses lines).
Proof.
  induction lines as [|line lines IH]; simpl; [reflexivity|].
  unfold parses at 1.
  destruct (json_loads (strip line)) as [v|] eqn:P; simpl.
  - rewrite P, IH. reflexivity.
  - exact IH.
Qed.

(** Corrupt lines contribute to nothing the summary returns, whatever the
    limit. *)
Lemma summary_ignores_corrupt_lines lines limit :
  get_audit_summary (inr lines) limit
  = get_audit_summary (inr (filter parses lines)) limit.
Proof.
  unfold get_audit_summary.
  rewrite <- read_entries_skips_corrupt. reflexivity.
Qed.

Lemma read_entries_records lines :
  Forall (fun line => record_line line \/ corrupt_line line) lines ->
  Forall has_fields (read_entries lines)
  /\ length (read_entries lines) = length (filter parses lines).
Proof.
  induction 1 as [|line lines H _ IH]; simpl; [split; constructor|].
  destruct IH as (F & L). unfold parses at 1.
  destruct H as [(members & r & l & P & R & LV)|C].
  - rewrite P. simpl. split; [|now rewrite L].
    constructor; [|exact F]. exists members, r, l. auto.
  - unfold corrupt_line in C. rewrite C. split; assumption.
Qed.

Lemma sum_if_total k p entries :
  (k = str "result" \/ k = str "permission_level") ->
  Forall has_fields entries ->
  exists n, sum_if (on_field k p) entries = inr n.
Proof.
  intros K. induction 1 as [|e entries (members & r & l & -> & R & LV) _ (n & IH)]; simpl.
  - eauto.
  - unfold on_field at 1, subscript.
    destruct K as [-> | ->]; [rewrite R | rewrite LV]; rewrite IH; eauto.
Qed.

Lemma Forall_skipn {A} (P : A -> Prop) n : forall l, Forall P l -> Forall P (skipn n l).
Proof.
  induction n as [|n IH]; intros l H; simpl; [exact H|].
  destruct H; [constructor | now apply IH].
Qed.

Lemma Forall_slice_from {A} (P : A -> Prop) i l : Forall P l -> Forall P (slice_from i l).
Proof.
  unfold slice_from. destruct (i <? 0)%Z; apply Forall_skipn.
Qed.

(** For a limit of at least one the summary counts as the claim says. *)
Lemma summary_total_for_positive_limit lines limit :
  Forall (fun line => record_line line \/ corrupt_line line) lines ->
  (1 <= limit)%Z ->
  reported_total (get_audit_summary (inr lines) limit)
  = Some (Z.min (Z.of_nat (length (filter parses lines))) limit).
Proof.
  intros LINES POS. destruct (read_entries_records LINES) as (F & LEN).
  unfold get_audit_summary. rewrite <- LEN.
  set (entries := read_entries lines) in *.
  set (recent := if (Z.of_nat (length entries) >? limit)%Z
                 then slice_from (- limit) entries else entries).
  assert (FR : Forall has_fields recent).
  { unfold recent. destruct (_ >? _)%Z; [now apply Forall_slice_from | exact F]. }
  destruct (sum_if_total (fun v => json_eq_str v (str "success"))
              (or_introl eq_refl) FR) as (n1 & ->).
  destruct (sum_if_total (fun v => negb (json_eq_str v (str "success")))
              (or_introl eq_refl) FR) as (n2 & ->).
  destruct (sum_if_total (fun v => json_eq_str v (str "elevated")
                                   || json_eq_str v (str "administrative"))
              (or_intror eq_refl) FR) as (n3 & ->).
  cbn [reported_total total_entries]. f_equal.
  unfold recent. destruct (Z.of_nat (length entries) >? limit)%Z eqn:GT.
  - apply Z.gtb_lt in GT. unfold slice_from.
    destruct (- limit <? 0)%Z eqn:NEG; [|apply Z.ltb_ge in NEG; lia].
    rewrite length_skipn. lia.
  - rewrite Z.gtb_ltb in GT. apply Z.ltb_ge in GT. lia.
Qed.

Lemma is_record_line_spec line : is_record_line line = true -> record_line line.
Proof.
  unfold is_record_line, record_line.
  destruct (json_loads (strip line)) as [[| | | | | | |members]|]; try discriminate.
  destruct (dict_get members (str "result")) as [r|] eqn:R; [|discriminate].
  destruct (dict_get members (str "permission_level")) as [l|] eqn:L; [|discriminate].
  intros _. exists members, r, l. repeat split; assumption.
Qed.

Lemma record_or_corrupt_lines lines :
  forallb (fun line => is_record_line line || negb (parses line)) lines = true ->
  Forall (fun line => record_line line \/ corrupt_line line) lines.
Proof.
  intros H. apply Forall_forall. intros line IN.
  rewrite forallb_forall in H. specialize (H line IN).
  apply orb_true_iff in H. destruct H as [R|C].
  - left. now apply is_record_line_spec.
  - right. unfold parses in C. unfold corrupt_line.
    destruct (json_loads (strip line)); [discriminate | reflexivity].
Qed.

(** C7, at the input where the code leaves the claim: the limit 0 on a log
    of two valid records and one corrupt line.  [len(entries) > 0] holds, so
    the code takes [entries[-0:]], which is the whole list: the summary
    reports 2 entries, where the claim gives min(2, 0) = 0. *)
Theorem zero_limit_keeps_every_entry :
  length sample_log = 3%nat
  /\ length (filter parses sample_log) = 2%nat
  /\ Forall (fun line => record_line line \/ corrupt_line line) sample_log
  /\ reported_total (get_audit_summary (inr sample_log) 0) = Some 2%Z
  /\ Z.min (Z.of_nat (length (filter parses sample_log))) 0 = 0%Z.
Proof.
  split; [vm_compute; reflexivity|].
  split; [vm_compute; reflexivity|].
  split; [apply record_or_corrupt_lines; vm_compute; reflexivity|].
  split; vm_compute; reflexivity.
Qed.

(* ================================================================== *)
(** * The round trip through the log *)

(** C9, as stated, fails on an entry whose operation is the two code points
    U+D800 U+DC00: the line holds the escapes of both, and [json.loads]
    reads the two escapes as the single character U+10000. *)
Lemma surrogate_pair_does_not_round_trip :
  entry_valid surrogate_entry = true
  /\ (exists members,
        reparsed surrogate_entry = Some (JObj members)
        /\ dict_get members (str "operation") = Some (JStr [65536]))
  /\ AuditEntry.operation surrogate_entry <> [65536].
Proof.
  split; [vm_compute; reflexivity|]. split.
  - eexists. split; vm_compute; reflexivity.
  - discriminate.
Qed.

(** ** Arithmetic of the escapes *)

Lemma lor_disjoint a b : b < 1024 -> N.lor (a * 1024) b = a * 1024 + b.
Proof.
  intros B.
  assert (L : N.land (a * 1024) b = 0).
  { apply N.bits_inj. intros i. rewrite N.land_spec, N.bits_0.
    destruct (N.lt_ge_cases i 10) as [LT|GE].
    - change 1024 with (2 ^ 10). rewrite N.mul_pow2_bits_low by exact LT. reflexivity.
    - rewrite <- (N.mod_small b (2 ^ 10)) by exact B.
      rewrite N.mod_pow2_bits_high by exact GE. apply andb_false_r. }
  rewrite <- N.lxor_lor by exact L. symmetry. apply N.add_nocarry_lxor. exact L.
Qed.

(** The surrogate pair [json.dumps] writes for a character above U+FFFF,
    and its way back. *)
Lemma surrogate_round_trip c :
  65536 <= c -> c < 1114112 ->
  N.lor 55296 (N.land (N.shiftr (c - 65536) 10) 1023) = 55296 + (c - 65536) / 1024
  /\ N.lor 56320 (N.land (c - 65536) 1023) = 56320 + (c - 65536) mod 1024
  /\ join_surrogates (55296 + (c - 65536) / 1024) (56320 + (c - 65536) mod 1024) = c.
Proof.
  intros LO HI. set (n := c - 65536).
  assert (NB : n < 1048576) by (unfold n; lia).
  assert (Q : n / 1024 < 1024) by (apply N.Div0.div_lt_upper_bound; lia).
  assert (R : n mod 1024 < 1024) by (apply N.mod_lt; lia).
  split; [|split].
  - rewrite N.shiftr_div_pow2. change (2 ^ 10) with 1024.
    change 1023 with (N.ones 10). rewrite N.land_ones. change (2 ^ 10) with 1024.
    rewrite N.mod_small by exact Q.
    change 55296 with (54 * 1024). rewrite lor_disjoint by exact Q. reflexivity.
  - change 1023 with (N.ones 10). rewrite N.land_ones. change (2 ^ 10) with 1024.
    change 56320 with (55 * 1024). rewrite lor_disjoint by exact R. reflexivity.
  - unfold join_surrogates. rewrite N.shiftl_mul_pow2. change (2 ^ 10) with 1024.
    rewrite (N.add_comm 55296), (N.add_comm 56320), !N.add_sub.
    rewrite lor_disjoint by exact R.
    pose proof (N.div_mod n 1024). unfold n in *. lia.
Qed.

Lemma hex_value_digit d : d < 16 -> hex_value (hex_digit d) = Some d.
Proof.
  intros D. unfold hex_value, hex_digit.
  destruct (d <? 10) eqn:E.
  - apply N.ltb_lt in E.
    replace ((48 <=? 48 + d) && (48 + d <=? 57)) with true.
    + f_equal. lia.
    + symmetry. apply andb_true_iff. split; apply N.leb_le; lia.
  - apply N.ltb_ge in E.
    replace ((48 <=? 87 + d) && (87 + d <=? 57)) with false.
    + replace ((97 <=? 87 + d) && (87 + d <=? 102)) with true.
      * f_equal. lia.
      * symmetry. apply andb_true_iff. split; apply N.leb_le; lia.
    + symmetry. apply andb_false_iff. right. apply N.leb_gt. lia.
Qed.

Lemma hex4_sum n : n < 65536 ->
  ((n / 4096 mod 16 * 16 + n / 256 mod 16) * 16 + n / 16 mod 16) * 16 + n mod 16 = n.
Proof.
  intros B.
  pose proof (N.div_mod n 16 ltac:(lia)).
  pose proof (N.div_mod (n / 16) 16 ltac:(lia)).
  pose proof (N.div_mod (n / 16 / 16) 16 ltac:(lia)).
  rewrite !N.Div0.div_div in *.
  change (16 * 16) with 256 in *. change (256 * 16) with 4096 in *.
  assert (n / 4096 < 16) by (apply N.Div0.div_lt_upper_bound; lia).
  rewrite (N.mod_small (n / 4096) 16) by assumption.
  pose proof (N.mod_lt n 16 ltac:(lia)).
  pose proof (N.mod_lt (n / 16) 16 ltac:(lia)).
  pose proof (N.mod_lt (n / 256) 16 ltac:(lia)).
  lia.
Qed.

Lemma hex4_value_hex4 n :
  n < 65536 ->
  hex4_value (hex_digit (n / 4096 mod 16)) (hex_digit (n / 256 mod 16))
    (hex_digit (n / 16 mod 16)) (hex_digit (n mod 16)) = Some n.
Proof.
  intros B. unfold hex4_value.
  rewrite !hex_value_digit by (apply N.mod_lt; lia).
  f_equal. now apply hex4_sum.
Qed.

Arguments hex4_value : simpl never.
Arguments hex_digit : simpl never.
Arguments is_high_surrogate : simpl never.
Arguments is_low_surrogate : simpl never.
Arguments join_surrogates : simpl never.
Arguments unescape : simpl never.

(** ** [scanstring] on what [json.dumps] writes *)

Lemma scanstring_plain c t :
  c <> 34 -> c <> 92 -> 32 <= c -> scanstring (c :: t) = cons_char c (scanstring t).
Proof.
  intros Q B C. simpl.
  rewrite (proj2 (N.eqb_neq c 34) Q), (proj2 (N.eqb_neq c 92) B).
  rewrite (proj2 (N.ltb_ge c 32) C). reflexivity.
Qed.

Lemma scanstring_short x ch t :
  x <> 117 -> unescape x = Some ch ->
  scanstring (92 :: x :: t) = cons_char ch (scanstring t).
Proof.
  intros U E. simpl. rewrite (proj2 (N.eqb_neq x 117) U), E. reflexivity.
Qed.

Lemma scanstring_u n t :
  n < 65536 ->
  scanstring (backslash_u n ++ t)
  = if is_high_surrogate n then
      match t with
      | b :: u :: g1 :: g2 :: g3 :: g4 :: r3 =>
          if (b =? 92) && (u =? 117) then
            match hex4_value g1 g2 g3 g4 with
            | None => None
            | Some uni2 =>
                if is_low_surrogate uni2
                then cons_char (join_surrogates n uni2) (scanstring r3)
                else cons_char n (scanstring t)
            end
          else cons_char n (scanstring t)
      | _ => cons_char n (scanstring t)
      end
    else cons_char n (scanstring t).
Proof.
  intros B. unfold backslash_u, hex4. simpl.
  rewrite (hex4_value_hex4 B). reflexivity.
Qed.

Lemma escape_cases c :
  c < 1114112 ->
  (exists x, escape_cp c = [92; x] /\ x <> 117 /\ unescape x = Some c)
  \/ (escape_cp c = [c] /\ c <> 34 /\ c <> 92 /\ 32 <= c)
  \/ (escape_cp c = backslash_u c /\ c < 65536
      /\ (c < 32 \/ 126 < c))
  \/ (65536 <= c
      /\ escape_cp c
         = backslash_u (55296 + (c - 65536) / 1024)
           ++ backslash_u (56320 + (c - 65536) mod 1024)).
Proof.
  intros V. unfold escape_cp.
  destruct (c =? 34) eqn:E34;
    [apply N.eqb_eq in E34; subst; left; exists 34; repeat split; discriminate|].
  destruct (c =? 92) eqn:E92;
    [apply N.eqb_eq in E92; subst; left; exists 92; repeat split; discriminate|].
  destruct (c =? 10) eqn:E10;
    [apply N.eqb_eq in E10; subst; left; exists 110; repeat split; discriminate|].
  destruct (c =? 13) eqn:E13;
    [apply N.eqb_eq in E13; subst; left; exists 114; repeat split; discriminate|].
  destruct (c =? 9) eqn:E9;
    [apply N.eqb_eq in E9; subst; left; exists 116; repeat split; discriminate|].
  destruct (c =? 8) eqn:E8;
    [apply N.eqb_eq in E8; subst; left; exists 98; repeat split; discriminate|].
  destruct (c =? 12) eqn:E12;
    [apply N.eqb_eq in E12; subst; left; exists 102; repeat split; discriminate|].
  apply N.eqb_neq in E34, E92.
  destruct ((32 <=? c) && (c <=? 126)) eqn:PR.
  - apply andb_true_iff in PR. destruct PR as [LO HI]. apply N.leb_le in LO.
    right. left. repeat split; assumption.
  - right. right.
    assert (OUT : c < 32 \/ 126 < c).
    { apply andb_false_iff in PR. destruct PR as [LO|HI];
        [left; now apply N.leb_gt in LO | right; now apply N.leb_gt in HI]. }
    destruct (c <? 65536) eqn:BMP.
    + apply N.ltb_lt in BMP. left. repeat split; assumption.
    + apply N.ltb_ge in BMP. right. split; [exact BMP|].
      destruct (surrogate_round_trip BMP V) as (-> & -> & _). reflexivity.
Qed.

Lemma high_of_pair c :
  65536 <= c -> c < 1114112 ->
  55296 + (c - 65536) / 1024 < 65536
  /\ is_high_surrogate (55296 + (c - 65536) / 1024) = true
  /\ is_low_surrogate (55296 + (c - 65536) / 1024) = false
  /\ 56320 + (c - 65536) mod 1024 < 65536
  /\ is_low_surrogate (56320 + (c - 65536) mod 1024) = true.
Proof.
  intros LO HI.
  assert (Q : (c - 65536) / 1024 < 1024) by (apply N.Div0.div_lt_upper_bound; lia).
  assert (R : (c - 65536) mod 1024 < 1024) by (apply N.mod_lt; lia).
  unfold is_high_surrogate, is_low_surrogate.
  generalize dependent ((c - 65536) / 1024). generalize dependent ((c - 65536) mod 1024).
  intros r R q Q.
  repeat split; try lia.
  - apply andb_true_iff. split; apply N.leb_le; lia.
  - apply andb_false_iff. left. apply N.leb_gt. lia.
  - apply andb_true_iff. split; apply N.leb_le; lia.
Qed.

Lemma scanstring_high_then_low c c2 t :
  c < 65536 -> is_high_surrogate c = true ->
  c2 < 65536 -> is_low_surrogate c2 = true ->
  scanstring (backslash_u c ++ backslash_u c2 ++ t)
  = cons_char (join_surrogates c c2) (scanstring t).
Proof.
  intros B H B2 L. rewrite (scanstring_u _ B), H.
  unfold backslash_u at 1, hex4. cbn [app andb N.eqb Pos.eqb].
  rewrite (hex4_value_hex4 B2), L. reflexivity.
Qed.

Lemma scanstring_high_alone c t :
  c < 65536 -> is_high_surrogate c = true -> no_low_escape t ->
  scanstring (backslash_u c ++ t) = cons_char c (scanstring t).
Proof.
  intros B H NL. rewrite (scanstring_u _ B), H.
  destruct t as [|b [|u [|g1 [|g2 [|g3 [|g4 r3]]]]]]; try reflexivity.
  destruct (b =? 92) eqn:EB; [|reflexivity].
  destruct (u =? 117) eqn:EU; [|reflexivity].
  apply N.eqb_eq in EB, EU. subst b u. cbn [andb].
  destruct (NL _ _ _ _ _ eq_refl) as (x & -> & ->). reflexivity.
Qed.

(** A character that is not a high surrogate comes back as it is. *)
Lemma scanstring_escape c t :
  c < 1114112 -> is_high_surrogate c = false ->
  scanstring (escape_cp c ++ t) = cons_char c (scanstring t).
Proof.
  intros V NH.
  destruct (escape_cases V) as [(x & -> & U & E)|[(-> & Q & B & P)|[(-> & B & _)|(LO & ->)]]].
  - now apply scanstring_short.
  - now apply scanstring_plain.
  - rewrite (scanstring_u _ B), NH. reflexivity.
  - destruct (high_of_pair LO V) as (BH & H & _ & BL & L).
    rewrite <- List.app_assoc, (scanstring_high_then_low _ BH H BL L).
    destruct (surrogate_round_trip LO V) as (_ & _ & ->). reflexivity.
Qed.

Lemma no_low_escape_end rest : no_low_escape (34 :: rest).
Proof. intros g1 g2 g3 g4 r H. discriminate. Qed.

Lemma no_low_escape_u n t :
  n < 65536 -> is_low_surrogate n = false -> no_low_escape (backslash_u n ++ t).
Proof.
  intros B NL g1 g2 g3 g4 r. unfold backslash_u, hex4.
  intros H. injection H as <- <- <- <- _.
  exists n. split; [now apply hex4_value_hex4 | exact NL].
Qed.

Lemma no_low_escape_escape c t :
  c < 1114112 -> is_low_surrogate c = false -> no_low_escape (escape_cp c ++ t).
Proof.
  intros V NL.
  destruct (escape_cases V) as [(x & -> & U & E)|[(-> & Q & B & P)|[(-> & B & _)|(LO & ->)]]].
  - intros g1 g2 g3 g4 r H. injection H as H _. contradiction.
  - intros g1 g2 g3 g4 r H. injection H as H _. contradiction.
  - now apply no_low_escape_u.
  - destruct (high_of_pair LO V) as (BH & _ & NLH & _).
    rewrite <- List.app_assoc. now apply no_low_escape_u.
Qed.

Lemma escape_surrogate c :
  is_high_surrogate c = true \/ is_low_surrogate c = true ->
  escape_cp c = backslash_u c /\ c < 65536.
Proof.
  unfold is_high_surrogate, is_low_surrogate. intros H.
  assert (R : 55296 <= c /\ c <= 57343).
  { destruct H as [H|H]; apply andb_true_iff in H; destruct H as [LO HI];
      apply N.leb_le in LO, HI; lia. }
  destruct R as [LO HI]. split; [|lia]. unfold escape_cp.
  repeat match goal with
         | |- context [c =? ?k] =>
             replace (c =? k) with false by (symmetry; apply N.eqb_neq; lia)
         end.
  replace (c <=? 126) with false by (symmetry; apply N.leb_gt; lia).
  rewrite andb_false_r.
  replace (c <? 65536) with true by (symmetry; apply N.ltb_lt; lia).
  reflexivity.
Qed.

Lemma combine_cons_single c t :
  is_high_surrogate c && match t with c2 :: _ => is_low_surrogate c2 | [] => false end = false ->
  combine_surrogates (c :: t) = c :: combine_surrogates t.
Proof.
  intros H. destruct t as [|c2 r]; [reflexivity|].
  cbn [combine_surrogates] in *. rewrite H. reflexivity.
Qed.

Lemma combine_cons_pair c c2 r :
  is_high_surrogate c = true -> is_low_surrogate c2 = true ->
  combine_surrogates (c :: c2 :: r) = join_surrogates c c2 :: combine_surrogates r.
Proof.
  intros H L. cbn [combine_surrogates]. rewrite H, L. reflexivity.
Qed.

Lemma scanstring_round_trip_bounded n : forall s rest,
  (length s <= n)%nat -> valid_str s = true ->
  scanstring (flat_map escape_cp s ++ 34 :: rest) = Some (combine_surrogates s, rest).
Proof.
  induction n as [|n IH]; intros s rest LEN VALID.
  - destruct s; [reflexivity | simpl in LEN; lia].
  - destruct s as [|c s1]; [reflexivity|].
    cbn [valid_str forallb] in VALID. apply andb_true_iff in VALID.
    destruct VALID as [V V1]. apply N.ltb_lt in V. fold (valid_str s1) in V1.
    cbn [length] in LEN.
    cbn [flat_map]. rewrite <- List.app_assoc.
    destruct (is_high_surrogate c) eqn:H.
    + destruct (escape_surrogate c (or_introl H)) as (-> & B).
      destruct s1 as [|c2 s2].
      * cbn [flat_map app].
        rewrite (scanstring_high_alone B H (@no_low_escape_end rest)). reflexivity.
      * cbn [valid_str forallb] in V1. apply andb_true_iff in V1.
        destruct V1 as [V2 V3]. apply N.ltb_lt in V2. fold (valid_str s2) in V3.
        cbn [length] in LEN.
        destruct (is_low_surrogate c2) eqn:L.
        -- destruct (escape_surrogate c2 (or_intror L)) as (E2 & B2).
           cbn [flat_map]. rewrite E2, <- List.app_assoc.
           rewrite (scanstring_high_then_low _ B H B2 L).
           rewrite IH by (assumption || lia).
           rewrite combine_cons_pair by assumption. reflexivity.
        -- rewrite (scanstring_high_alone B H).
           ++ rewrite IH;
                [| cbn [length]; lia
                 | cbn [valid_str forallb]; apply andb_true_iff; split;
                   [now apply N.ltb_lt | exact V3]].
              rewrite (combine_cons_single c (c2 :: s2)) by (rewrite H, L; reflexivity).
              reflexivity.
           ++ cbn [flat_map]. rewrite <- List.app_assoc.
              now apply no_low_escape_escape.
    + rewrite (scanstring_escape _ V H).
      rewrite IH by (assumption || lia).
      rewrite (combine_cons_single c s1) by (rewrite H; reflexivity).
      reflexivity.
Qed.

(** [scanstring] reads back a string [json.dumps] has written, up to the
    joining of surrogate pairs. *)
Lemma scanstring_round_trip s rest :
  valid_str s = true ->
  scanstring (flat_map escape_cp s ++ 34 :: rest) = Some (combine_surrogates s, rest).
Proof.
  apply (scanstring_round_trip_bounded (n := length s)). lia.
Qed.

Lemma combine_without_pair s :
  has_surrogate_pair s = false -> combine_surrogates s = s.
Proof.
  induction s as [|c t IH]; [reflexivity|].
  destruct t as [|c2 r]; [reflexivity|].
  intros H. cbn [has_surrogate_pair] in H. apply orb_false_iff in H.
  destruct H as [P REST].
  rewrite (combine_cons_single c (c2 :: r)) by exact P.
  rewrite IH by exact REST. reflexivity.
Qed.

(** ** Numbers *)

Lemma digit_of_cp d : digit_of (digit_cp d) = Some d.
Proof. destruct d; reflexivity. Qed.

Lemma digit_cp_range d : 48 <= digit_cp d /\ digit_cp d <= 57.
Proof. destruct d; simpl; lia. Qed.

Lemma scan_digits_digits ds rest :
  no_digit_ahead rest -> scan_digits (map digit_cp ds ++ rest) = (ds, rest).
Proof.
  intros END. induction ds as [|d ds IH]; cbn [map app].
  - destruct rest as [|c r]; [reflexivity|]. cbn [scan_digits]. simpl in END.
    rewrite END. reflexivity.
  - cbn [scan_digits]. rewrite digit_of_cp, IH. reflexivity.
Qed.

Lemma uint_chars_digits u : uint_chars u = map digit_cp (digits_of_uint u).
Proof.
  induction u as [|u IH|u IH|u IH|u IH|u IH|u IH|u IH|u IH|u IH|u IH];
    cbn [uint_chars digits_of_uint map digit_cp]; [reflexivity | rewrite IH; reflexivity ..].
Qed.

Lemma uint_of_digits_of_uint u : uint_of_digits (digits_of_uint u) = u.
Proof.
  induction u as [|u IH|u IH|u IH|u IH|u IH|u IH|u IH|u IH|u IH|u IH];
    cbn [uint_of_digits digits_of_uint]; [reflexivity | rewrite IH; reflexivity ..].
Qed.

Lemma to_uint_normal n : N.to_uint n = Decimal.unorm (N.to_uint n).
Proof.
  rewrite <- (DecimalN.Unsigned.to_of (N.to_uint n)), DecimalN.Unsigned.of_to.
  reflexivity.
Qed.

Lemma to_uint_leading_zero n u : N.to_uint n = Decimal.D0 u -> n = 0.
Proof.
  intros H. pose proof (to_uint_normal n) as NORM. rewrite H in NORM.
  rewrite DecimalFacts.unorm_D0 in NORM.
  destruct (Decimal.nzhead u) eqn:NZ;
    [| exfalso;
       rewrite DecimalFacts.unorm_nzhead in NORM by (rewrite NZ; discriminate);
       symmetry in NORM; now apply DecimalFacts.nzhead_nonzero in NORM ..].
  assert (Z0 : Decimal.unorm u = Decimal.zero) by (unfold Decimal.unorm; now rewrite NZ).
  rewrite Z0 in NORM. rewrite NORM in H.
  rewrite <- (DecimalN.Unsigned.of_to n), H. reflexivity.
Qed.

Lemma to_uint_nonnil n : N.to_uint n <> Decimal.Nil.
Proof.
  rewrite to_uint_normal. apply DecimalFacts.unorm_nonnil.
Qed.

Lemma scan_int_uint u rest :
  u <> Decimal.Nil -> (forall u', u <> Decimal.D0 u') -> no_digit_ahead rest ->
  scan_int (uint_chars u ++ rest) = Some (N.of_uint u, rest).
Proof.
  intros NN NZ END.
  rewrite <- (uint_of_digits_of_uint u) at 2. rewrite uint_chars_digits.
  pose proof (@scan_digits_digits (digits_of_uint u) rest END) as SCAN.
  destruct u as [|u|u|u|u|u|u|u|u|u|u];
    [contradiction | exfalso; now apply (NZ u) | ..];
    cbn [digits_of_uint map app digit_cp] in *;
    unfold scan_int; cbn [N.eqb Pos.eqb]; rewrite SCAN; reflexivity.
Qed.

Lemma scan_int_str_of_N i rest :
  no_digit_ahead rest -> scan_int (str_of_N i ++ rest) = Some (i, rest).
Proof.
  intros END. unfold str_of_N.
  destruct (N.eq_dec i 0) as [->|NZ]; [reflexivity|].
  rewrite scan_int_uint.
  - rewrite DecimalN.Unsigned.of_to. reflexivity.
  - apply to_uint_nonnil.
  - intros u' H. apply to_uint_leading_zero in H. contradiction.
  - exact END.
Qed.

Lemma value_end_no_digit rest : value_end rest -> no_digit_ahead rest.
Proof. destruct rest; [trivial | intros (D & _); exact D]. Qed.

Lemma scan_frac_digits frac rest :
  no_digit_ahead rest ->
  (frac = [] -> match rest with c :: _ => c <> 46 | [] => True end) ->
  scan_frac (match frac with [] => [] | _ :: _ => 46 :: map digit_cp frac end ++ rest)
  = (frac, rest).
Proof.
  intros END POINT. destruct frac as [|d ds].
  - cbn [app]. destruct rest as [|c r]; [reflexivity|].
    unfold scan_frac. rewrite (proj2 (N.eqb_neq c 46) (POINT eq_refl)). reflexivity.
  - cbn [app]. unfold scan_frac. cbn [N.eqb Pos.eqb].
    rewrite (@scan_digits_digits (d :: ds) rest END). reflexivity.
Qed.

Lemma scan_exp_exponent e rest :
  value_end rest ->
  scan_exp (match e with None => [] | Some x => dumps_exponent x end ++ rest) = (e, rest).
Proof.
  intros END. destruct e as [[upper sign hd tl]|].
  - pose proof (@scan_digits_digits (hd :: tl) rest (value_end_no_digit _ END)) as SCAN.
    unfold dumps_exponent. cbn [exp_upper exp_sign exp_hd exp_tl].
    destruct upper, sign as [[|]|]; cbn [app]; unfold scan_exp; cbn [N.eqb Pos.eqb orb];
      try (rewrite SCAN; reflexivity);
      cbn [map app] in *; destruct hd; cbn [digit_cp N.eqb Pos.eqb] in *;
      rewrite SCAN; reflexivity.
  - cbn [app]. destruct rest as [|c r]; [reflexivity|].
    destruct END as (_ & _ & E1 & E2). unfold scan_exp.
    rewrite (proj2 (N.eqb_neq c 101) E1), (proj2 (N.eqb_neq c 69) E2). reflexivity.
Qed.

Lemma str_of_N_head i : exists d tl, str_of_N i = digit_cp d :: tl.
Proof.
  unfold str_of_N. rewrite uint_chars_digits.
  pose proof (to_uint_nonnil i) as NN.
  destruct (N.to_uint i); [contradiction | cbn [digits_of_uint map]; eauto ..].
Qed.

Lemma scan_number_dumps n rest :
  value_end rest -> scan_number (dumps_number n ++ rest) = Some (n, rest).
Proof.
  intros END. destruct n as [neg i frac e]. unfold dumps_number.
  cbn [num_neg num_int num_frac num_exp]. rewrite <- !List.app_assoc.
  set (etext := match e with None => [] | Some x => dumps_exponent x end).
  set (ftext := match frac with [] => [] | _ :: _ => 46 :: map digit_cp frac end).
  assert (EEND : no_digit_ahead (etext ++ rest)
                 /\ match etext ++ rest with c :: _ => c <> 46 | [] => True end).
  { unfold etext. destruct e as [[[] ? ? ?]|]; cbn; try (split; [reflexivity | discriminate]).
    destruct rest; [split; trivial | destruct END as (D & P & _); split; assumption]. }
  destruct EEND as (EE & EP).
  assert (FEND : no_digit_ahead (ftext ++ etext ++ rest)).
  { unfold ftext. destruct frac; [exact EE | reflexivity]. }
  assert (TAIL : scan_number
                   ((if neg then [45] else []) ++ str_of_N i ++ ftext ++ etext ++ rest)
                 = match scan_int (str_of_N i ++ ftext ++ etext ++ rest) with
                   | None => None
                   | Some (i', s2) =>
                       let (frac', s3) := scan_frac s2 in
                       let (e', s4) := scan_exp s3 in
                       Some ({| num_neg := neg; num_int := i'; num_frac := frac';
                                num_exp := e' |}, s4)
                   end).
  { destruct neg; [reflexivity|].
    destruct (str_of_N_head i) as (d & tl & ->).
    unfold scan_number. cbn [app]. destruct d; reflexivity. }
  rewrite TAIL, (@scan_int_str_of_N i _ FEND).
  unfold ftext. rewrite (@scan_frac_digits frac _ EE (fun _ => EP)).
  unfold etext. rewrite (@scan_exp_exponent e _ END). reflexivity.
Qed.

(** ** Values *)

Lemma json_induction (P : json -> Prop) :
  P JNull -> (forall b, P (JBool b)) -> (forall n, P (JNum n)) -> P JNaN ->
  (forall b, P (JInfinity b)) -> (forall s, P (JStr s)) ->
  (forall items, Forall P items -> P (JArr items)) ->
  (forall members, Forall (fun kv => P (snd kv)) members -> P (JObj members)) ->
  forall v, P v.
Proof.
  intros HNull HBool HNum HNaN HInf HStr HArr HObj.
  fix IH 1. intros [|b|n| |b|s|items|members].
  - exact HNull.
  - apply HBool.
  - apply HNum.
  - exact HNaN.
  - apply HInf.
  - apply HStr.
  - apply HArr. induction items as [|x items IHitems]; constructor.
    + apply IH.
    + exact IHitems.
  - apply HObj. induction members as [|[k x] members IHmembers]; constructor.
    + apply IH.
    + exact IHmembers.
Qed.

Lemma json_dumps_array items :
  json_dumps (JArr items) = 91 :: join (str ", ") (map json_dumps items) ++ [93].
Proof. reflexivity. Qed.

Lemma json_dumps_object members :
  json_dumps (JObj members) = 123 :: join (str ", ") (map member_text members) ++ [125].
Proof. reflexivity. Qed.

(** What a dumped value starts with: never white space, never a closing
    bracket. *)
Lemma json_dumps_head v :
  exists c tl, json_dumps v = c :: tl /\ is_json_ws c = false /\ c <> 93.
Proof.
  destruct v as [|[|]|n| |[|]|s|items|members];
    try (eexists; eexists; split; [reflexivity | split; [reflexivity | discriminate]]).
  change (json_dumps (JNum n)) with (dumps_number n). unfold dumps_number.
  destruct (num_neg n).
  - eexists; eexists; split; [reflexivity | split; [reflexivity | discriminate]].
  - destruct (str_of_N_head (num_int n)) as (d & tl & ->).
    eexists; eexists; split; [reflexivity|].
    destruct d; split; (reflexivity || discriminate).
Qed.

Lemma skip_ws_dumps v rest : skip_ws (json_dumps v ++ rest) = json_dumps v ++ rest.
Proof.
  destruct (json_dumps_head v) as (c & tl & -> & WS & _).
  cbn [app skip_ws]. rewrite WS. reflexivity.
Qed.

Arguments scan_number : simpl never.
Arguments scanstring : simpl never.

Lemma scan_once_number fuel c tl n rest :
  c = 45 \/ (exists d, c = digit_cp d) ->
  scan_number (c :: tl) = Some (n, rest) ->
  scan_once (S fuel) (c :: tl) = Some (JNum n, rest).
Proof.
  intros [->|(d & ->)] SCAN.
  - unfold str. simpl. rewrite SCAN. reflexivity.
  - destruct d; unfold str; simpl; simpl in SCAN; rewrite SCAN; reflexivity.
Qed.

Lemma round_trips_scalar v :
  match v with
  | JArr _ | JObj _ => False
  | _ => True
  end ->
  json_valid v = true -> round_trips v.
Proof.
  intros SCALAR VALID [|fuel] rest LEN END; [inversion LEN|].
  destruct v as [|[|]|n| |[|]|s|items|members]; try contradiction; try reflexivity.
  - change (json_dumps (JNum n)) with (dumps_number n).
    pose proof (@scan_number_dumps n rest END) as SCAN.
    assert (HEAD : exists c tl, dumps_number n = c :: tl
                                /\ (c = 45 \/ exists d, c = digit_cp d)).
    { unfold dumps_number. destruct (num_neg n).
      - eexists; eexists; split; [reflexivity | left; reflexivity].
      - destruct (str_of_N_head (num_int n)) as (d & tl & ->).
        eexists; eexists; split; [reflexivity | right; eauto]. }
    destruct HEAD as (c & tl & E & HEAD). rewrite E in *.
    cbn [app] in *. now apply scan_once_number.
  - change (json_dumps (JStr s)) with (encode_basestring_ascii s).
    unfold encode_basestring_ascii. cbn [app json_valid json_reloaded] in *.
    rewrite <- List.app_assoc. cbn [app].
    cbn [scan_once N.eqb Pos.eqb].
    rewrite (@scanstring_round_trip s rest VALID). reflexivity.
Qed.

Lemma scan_items_step f s :
  scan_items (S f) s
  = match scan_once f s with
    | None => None
    | Some (v, r) =>
        match skip_ws r with
        | c :: r1 =>
            if c =? 93 then Some ([v], r1)
            else if c =? 44 then
              match scan_items f (skip_ws r1) with
              | Some (xs, rest) => Some (v :: xs, rest)
              | None => None
              end
            else None
        | [] => None
        end
    end.
Proof. reflexivity. Qed.

Lemma scan_once_array f r :
  scan_once (S f) (91 :: r)
  = match skip_ws r with
    | c1 :: r1 =>
        if c1 =? 93 then Some (JArr [], r1)
        else
          match scan_items f (c1 :: r1) with
          | Some (xs, rest) => Some (JArr xs, rest)
          | None => None
          end
    | [] => None
    end.
Proof. reflexivity. Qed.

Lemma join_single sep p : join sep [p] = p.
Proof. reflexivity. Qed.

Lemma join_cons sep p q l : join sep (p :: q :: l) = p ++ sep ++ join sep (q :: l).
Proof. reflexivity. Qed.

Lemma skip_ws_join_dumps x items rest :
  skip_ws (join (str ", ") (map json_dumps (x :: items)) ++ rest)
  = join (str ", ") (map json_dumps (x :: items)) ++ rest.
Proof.
  destruct items as [|y items]; cbn [map].
  - apply skip_ws_dumps.
  - rewrite join_cons, <- List.app_assoc. apply skip_ws_dumps.
Qed.

Lemma scan_items_round_trip items : forall x fuel rest,
  Forall (fun v => json_valid v = true -> round_trips v) (x :: items) ->
  forallb json_valid (x :: items) = true ->
  (length (join (str ", ") (map json_dumps (x :: items))) + 1 < fuel)%nat ->
  scan_items fuel (join (str ", ") (map json_dumps (x :: items)) ++ 93 :: rest)
  = Some (map json_reloaded (x :: items), rest).
Proof.
  induction items as [|y items IH]; intros x [|f] rest ALL VALID LEN; try lia.
  - cbn [map] in *. rewrite join_single in *.
    cbn [forallb] in VALID. rewrite andb_true_r in VALID.
    rewrite scan_items_step.
    rewrite (Forall_inv ALL VALID f (93 :: rest)); [reflexivity | lia |].
    repeat split; discriminate.
  - cbn [map forallb] in *. apply andb_true_iff in VALID. destruct VALID as [VX VREST].
    rewrite join_cons in *. rewrite length_app in LEN. rewrite length_app in LEN.
    change (length (str ", ")) with 2%nat in LEN.
    rewrite <- List.app_assoc, scan_items_step.
    rewrite (Forall_inv ALL VX f); [| lia | repeat split; discriminate].
    rewrite <- List.app_assoc.
    change (str ", " ++ ?t) with (44 :: 32 :: t).
    change (skip_ws (44 :: 32 :: ?t)) with (44 :: 32 :: t).
    cbn [N.eqb Pos.eqb].
    change (skip_ws (32 :: ?t)) with (skip_ws t).
    rewrite (skip_ws_join_dumps y items). cbn [map].
    rewrite (IH y f rest (Forall_inv_tail ALL) VREST) by lia.
    reflexivity.
Qed.

Lemma scan_members_step f s :
  scan_members (S f) s
  = match scanstring s with
    | None => None
    | Some (key, r) =>
        match skip_ws r with
        | c :: r1 =>
            if c =? 58 then
              match scan_once f (skip_ws r1) with
              | None => None
              | Some (v, r2) =>
                  match skip_ws r2 with
                  | c2 :: r3 =>
                      if c2 =? 125 then Some ([(key, v)], r3)
                      else if c2 =? 44 then
                        match skip_ws r3 with
                        | c3 :: r4 =>
                            if c3 =? 34 then
                              match scan_members f r4 with
                              | Some (ms, rest) => Some ((key, v) :: ms, rest)
                              | None => None
                              end
                            else None
                        | [] => None
                        end
                      else None
                  | [] => None
                  end
              end
            else None
        | [] => None
        end
    end.
Proof. reflexivity. Qed.

Lemma scan_once_object f r :
  scan_once (S f) (123 :: r)
  = match skip_ws r with
    | c1 :: r1 =>
        if c1 =? 125 then Some (JObj [], r1)
        else if c1 =? 34 then
          match scan_members f r1 with
          | Some (ms, rest) => Some (JObj ms, rest)
          | None => None
          end
        else None
    | [] => None
    end.
Proof. reflexivity. Qed.

Arguments member_text : simpl never.
Arguments reloaded_member : simpl never.

Lemma member_text_eq k x :
  member_text (k, x) = 34 :: flat_map escape_cp k ++ 34 :: 58 :: 32 :: json_dumps x.
Proof.
  unfold member_text, encode_basestring_ascii. cbn [app].
  rewrite <- List.app_assoc. reflexivity.
Qed.

Lemma join_members_head k x members :
  exists body,
    join (str ", ") (map member_text ((k, x) :: members)) = 34 :: body.
Proof.
  destruct members as [|m members]; cbn [map].
  - rewrite join_single, member_text_eq. eauto.
  - rewrite join_cons, member_text_eq. cbn [app]. eauto.
Qed.

Lemma scan_members_round_trip members : forall k x fuel rest body,
  Forall (fun kv => json_valid (snd kv) = true -> round_trips (snd kv)) ((k, x) :: members) ->
  forallb (fun kv => match kv with (k, x) => valid_str k && json_valid x end)
    ((k, x) :: members) = true ->
  (length (join (str ", ") (map member_text ((k, x) :: members))) + 1 < fuel)%nat ->
  join (str ", ") (map member_text ((k, x) :: members)) ++ 125 :: rest = 34 :: body ->
  scan_members fuel body = Some (map reloaded_member ((k, x) :: members), rest).
Proof.
  induction members as [|[k2 x2] members IH];
    intros k x [|f] rest body ALL VALID LEN BODY; try lia;
    cbn [map forallb] in *; apply andb_true_iff in VALID; destruct VALID as [VM VREST];
    apply andb_true_iff in VM; destruct VM as [VK VX];
    pose proof (Forall_inv ALL) as RT; cbn [snd] in RT; specialize (RT VX).
  - rewrite join_single, member_text_eq in *. cbn [app length] in *.
    rewrite <- List.app_assoc in BODY. cbn [app] in BODY.
    injection BODY as <-.
    rewrite length_app in LEN. cbn [length] in LEN.
    rewrite scan_members_step, (@scanstring_round_trip k _ VK).
    change (skip_ws (58 :: ?t)) with (58 :: t). cbn [N.eqb Pos.eqb].
    change (skip_ws (32 :: ?t)) with (skip_ws t).
    rewrite skip_ws_dumps, (RT f (125 :: rest));
      [reflexivity | lia | repeat split; discriminate].
  - rewrite join_cons, member_text_eq in *. cbn [app length] in *.
    rewrite <- ?List.app_assoc in BODY. cbn [app] in BODY.
    rewrite <- ?List.app_assoc in BODY. injection BODY as <-.
    rewrite ?length_app in LEN; cbn [length] in LEN;
      rewrite ?length_app in LEN; cbn [length] in LEN.
    change (length (str ", ")) with 2%nat in LEN.
    destruct (join_members_head k2 x2 members) as (body2 & J2).
    cbn [map] in J2. rewrite J2 in *. cbn [length] in LEN.
    rewrite scan_members_step, (@scanstring_round_trip k _ VK).
    change (skip_ws (58 :: ?t)) with (58 :: t). cbn [N.eqb Pos.eqb].
    change (skip_ws (32 :: ?t)) with (skip_ws t).
    rewrite skip_ws_dumps, (RT f); [| lia | repeat split; discriminate].
    cbn [app skip_ws is_json_ws N.eqb Pos.eqb orb].
    rewrite (IH k2 x2 f rest (body2 ++ 125 :: rest) (Forall_inv_tail ALL) VREST);
      [reflexivity | rewrite J2; cbn [length]; lia | rewrite J2; reflexivity].
Qed.

Lemma join_dumps_head x items :
  exists c t,
    join (str ", ") (map json_dumps (x :: items)) = c :: t
    /\ is_json_ws c = false /\ c <> 93.
Proof.
  destruct (json_dumps_head x) as (c & tl & E & WS & NB).
  destruct items as [|y items]; cbn [map].
  - rewrite join_single, E. eauto.
  - rewrite join_cons, E. cbn [app]. eauto.
Qed.

(** [json.loads] reads back every value [json.dumps] has written, up to the
    joining of surrogate pairs in its strings. *)
Lemma json_round_trip v : json_valid v = true -> round_trips v.
Proof.
  induction v as [|b|n| |b|s|items IH|members IH] using json_induction;
    try (apply round_trips_scalar; exact I).
  - intros VALID [|f] rest LEN END; [inversion LEN|].
    rewrite json_dumps_array in *. cbn [app length json_valid json_reloaded] in *.
    rewrite <- List.app_assoc. cbn [app]. rewrite scan_once_array.
    destruct items as [|x items]; [reflexivity|].
    rewrite length_app in LEN. cbn [length] in LEN.
    destruct (join_dumps_head x items) as (c & t & E & WS & NB).
    pose proof (@scan_items_round_trip items x f rest IH VALID) as ITEMS.
    rewrite E in *. cbn [app skip_ws length] in *. rewrite WS.
    rewrite (proj2 (N.eqb_neq c 93) NB), ITEMS by lia. reflexivity.
  - intros VALID [|f] rest LEN END; [inversion LEN|].
    rewrite json_dumps_object in *. cbn [app length json_valid json_reloaded] in *.
    rewrite <- List.app_assoc. cbn [app]. rewrite scan_once_object.
    destruct members as [|[k x] members]; [reflexivity|].
    rewrite length_app in LEN. cbn [length] in LEN.
    destruct (join_members_head k x members) as (body & E).
    pose proof (@scan_members_round_trip members k x f rest (body ++ 125 :: rest)
                  IH VALID) as MEMBERS.
    rewrite E in *. cbn [app skip_ws length is_json_ws N.eqb Pos.eqb orb] in *.
    rewrite MEMBERS by (lia || reflexivity). reflexivity.
Qed.

Lemma json_loads_dumps v :
  json_valid v = true -> json_loads (json_dumps v) = Some (json_reloaded v).
Proof.
  intros VALID. unfold json_loads.
  rewrite <- (List.app_nil_r (json_dumps v)) at 2.
  rewrite skip_ws_dumps.
  rewrite (@json_round_trip v VALID (S (length (json_dumps v))) []); [reflexivity | | exact I].
  lia.
Qed.

(** [strip] takes the newline off a line that holds one dumped object. *)
Lemma strip_object_line members :
  strip (json_dumps (JObj members) ++ [10]) = json_dumps (JObj members).
Proof.
  rewrite json_dumps_object. unfold strip.
  change (lstrip ((123 :: ?t) ++ [10])) with ((123 :: t) ++ [10]).
  rewrite rev_unit.
  change (123 :: ?t ++ [125]) with ((123 :: t) ++ [125]).
  rewrite rev_unit.
  change (lstrip (10 :: 125 :: ?t)) with (125 :: t).
  change (rev (125 :: ?x)) with (rev x ++ [125]).
  rewrite rev_involutive. reflexivity.
Qed.

Lemma log_entry_valid e : entry_valid e = true -> json_valid (log_entry_of e) = true.
Proof.
  unfold entry_valid. intros H.
  repeat (apply andb_true_iff in H; let H' := fresh "V" in destruct H as [H H']).
  unfold log_entry_of. cbn [json_valid forallb] in *.
  rewrite H, V, V0, V1, V2, V3. reflexivity.
Qed.

(** C9, amended.  For every audit entry none of whose [operation],
    [permission_level], [result] and [user] has a high surrogate directly
    followed by a low surrogate, the line [_log_operation] writes for it is
    parsed by the loop of [get_audit_summary] into a record whose
    [operation], [permission_level], [result] and [user] are those of the
    entry. *)
Theorem log_line_round_trip e :
  entry_valid e = true ->
  has_surrogate_pair (AuditEntry.operation e) = false ->
  has_surrogate_pair (AuditEntry.permission_level e) = false ->
  has_surrogate_pair (AuditEntry.result e) = false ->
  has_surrogate_pair (AuditEntry.user e) = false ->
  exists record,
    reparsed e = Some record
    /\ subscript record (str "operation") = inr (JStr (AuditEntry.operation e))
    /\ subscript record (str "permission_level")
       = inr (JStr (AuditEntry.permission_level e))
    /\ subscript record (str "result") = inr (JStr (AuditEntry.result e))
    /\ subscript record (str "user") = inr (JStr (AuditEntry.user e)).
Proof.
  intros VALID OP LEVEL RESULT USER.
  exists (json_reloaded (log_entry_of e)). split.
  - unfold reparsed, log_line, log_entry_of. rewrite strip_object_line.
    apply json_loads_dumps. now apply log_entry_valid.
  - unfold log_entry_of. cbn [json_reloaded map].
    rewrite (combine_without_pair _ OP), (combine_without_pair _ LEVEL),
      (combine_without_pair _ RESULT), (combine_without_pair _ USER).
    repeat split; reflexivity.
Qed.

Lemma log_line_round_trip_witness :
  exists record,
    reparsed (audit_entry_of (os_answers exits_zero None) chmod_operation
                (str "alice") SUCCESS (str "ok")) = Some record
    /\ subscript record (str "operation") = inr (JStr (str "chmod 755 /tmp/x"))
    /\ subscript record (str "user") = inr (JStr (str "alice")).
Proof.
  destruct (@log_line_round_trip
              (audit_entry_of (os_answers exits_zero None) chmod_operation
                 (str "alice") SUCCESS (str "ok")))
    as (record & P & O & _ & _ & U); try (vm_compute; reflexivity).
  exists record. repeat split; assumption.
Defined.

(* ================================================================== *)
(** * The prompt, read off the input *)

(** [print] and [input] on a standard output that takes the text, and on
    one that does not. *)
Lemma print_taken text st :
  stdout_write st text = None ->
  print text st = (Ret tt, add_events st [EvPrint text]).
Proof.
  intros W. unfold print, bind, get, emit. cbv beta iota. rewrite W. reflexivity.
Qed.

Lemma print_refused text st e :
  stdout_write st text = Some e -> print text st = (Raise e, st).
Proof.
  intros W. unfold print, bind, get, raise. cbv beta iota. rewrite W. reflexivity.
Qed.

Lemma input_refused prompt st e :
  stdout_write st prompt = Some e -> input prompt st = (Raise e, st).
Proof.
  intros W. unfold input, bind, get, raise. cbv beta iota. rewrite W. reflexivity.
Qed.

Lemma input_line prompt st line rest :
  stdout_write st prompt = None ->
  stdin st = line :: rest ->
  exists st',
    input prompt st = (Ret line, st')
    /\ stdin st' = rest
    /\ stdout_write st' = stdout_write st
    /\ trace st' = trace st ++ [EvInput prompt].
Proof.
  intros W IN. unfold input, bind, get, emit. cbv beta iota. rewrite W.
  cbn [stdin]. rewrite IN.
  eexists. split; [reflexivity|]. repeat split.
Qed.

Lemma input_at_end prompt st :
  stdout_write st prompt = None ->
  stdin st = [] ->
  exists e st',
    input prompt st = (Raise e, st')
    /\ exn_cls e = EOFError
    /\ stdin st' = []
    /\ trace st' = trace st ++ [EvInput prompt].
Proof.
  intros W IN. unfold input, bind, get, emit. cbv beta iota. rewrite W.
  cbn [stdin]. rewrite IN.
  eexists. eexists. split; [reflexivity|]. repeat split.
Qed.

(** The lines the gate prints one after the other, before what follows. *)
Lemma request_permission_banner operation :
  requires_user_approval operation = true ->
  request_permission operation
  = fold_right (fun text rest => print text ;; rest)
      (pending <- get stdin ;; prompt_loop (tl pending))
      (gate_banner operation).
Proof.
  intros APPROVAL. unfold request_permission, gate_banner. rewrite APPROVAL.
  cbn [negb]. destruct (permission_level operation); reflexivity.
Qed.

(** A run of [print]s goes through when standard output takes every text,
    and stops with the error of the first text it refuses. *)
Lemma prints_taken {A} texts (k : M A) : forall st,
  stdout_takes st texts ->
  fold_right (fun text rest => print text ;; rest) k texts st
  = k (add_events st (map EvPrint texts)).
Proof.
  induction texts as [|text texts IH]; intros st TAKES; cbn [fold_right map].
  - destruct st. unfold add_events. cbn. rewrite List.app_nil_r. reflexivity.
  - unfold bind at 1. rewrite print_taken by (apply TAKES; left; reflexivity).
    rewrite IH.
    + unfold add_events. cbn [current_user is_privileged session_operations log_file
        stdin stdout_write handlers children trace].
      rewrite <- List.app_assoc. reflexivity.
    + intros t IN. apply TAKES. right. exact IN.
Qed.

Lemma prints_upto {A} texts (k : M A) : forall st,
  (stdout_takes st texts
   /\ fold_right (fun text rest => print text ;; rest) k texts st
      = k (add_events st (map EvPrint texts)))
  \/ (exists shown text more e,
        texts = shown ++ text :: more
        /\ stdout_takes st shown
        /\ stdout_write st text = Some e
        /\ fold_right (fun text rest => print text ;; rest) k texts st
           = (Raise e, add_events st (map EvPrint shown))).
Proof.
  induction texts as [|text texts IH]; intros st.
  - left. split; [intros t []|]. apply (@prints_taken A [] k st). intros t [].
  - destruct (stdout_write st text) as [e|] eqn:W.
    + right. exists [], text, texts, e. split; [reflexivity|].
      split; [intros t []|]. split; [exact W|].
      cbn [fold_right map]. unfold bind at 1. rewrite (print_refused _ _ W).
      destruct st. unfold add_events. cbn. rewrite List.app_nil_r. reflexivity.
    + assert (STEP : fold_right (fun text rest => print text ;; rest) k (text :: texts) st
                     = fold_right (fun text rest => print text ;; rest) k texts
                         (add_events st [EvPrint text])).
      { cbn [fold_right]. unfold bind at 1. rewrite (print_taken _ _ W). reflexivity. }
      rewrite STEP.
      destruct (IH (add_events st [EvPrint text]))
        as [(TAKES & RUN)|(shown & t & more & e & -> & TAKES & REFUSED & RUN)].
      * left. split.
        -- intros t [<-|IN]; [exact W | exact (TAKES t IN)].
        -- rewrite RUN. unfold add_events.
           cbn [current_user is_privileged session_operations log_file
                stdin stdout_write handlers children trace map].
           rewrite <- List.app_assoc. reflexivity.
      * right. exists (text :: shown), t, more, e. split; [reflexivity|].
        split; [intros t' [<-|IN]; [exact W | exact (TAKES t' IN)]|].
        split; [exact REFUSED|].
        rewrite RUN. unfold add_events.
        cbn [current_user is_privileged session_operations log_file
             stdin stdout_write handlers children trace map].
        rewrite <- List.app_assoc. reflexivity.
Qed.

(** ** The scenarios of the specification *)

Example classify_empty : analyze_command_permissions [] = BASIC.
Proof. reflexivity. Qed.

Example classify_case_insensitive :
  analyze_command_permissions [str "SUDO"; str "ls"] = ELEVATED
  /\ analyze_command_permissions [str "Crontab"; str "/etc/crontab"] = ADMINISTRATIVE.
Proof. split; vm_compute; reflexivity. Qed.

Example approved_chmod_succeeds :
  fst (execute_with_escalation (os_answers exits_zero None) chmod_operation
         (fresh_manager [str "y"]))
  = Ret (SUCCESS, str "ok")
  /\ map AuditEntry.result
       (session_operations
          (snd (execute_with_escalation (os_answers exits_zero None) chmod_operation
                  (fresh_manager [str "y"]))))
     = [str "success"]
  /\ popen_count
       (trace (snd (execute_with_escalation (os_answers exits_zero None) chmod_operation
                      (fresh_manager [str "y"])))) = 1%nat.
Proof. vm_compute. repeat split. Qed.

Example three_calls_two_entries :
  map AuditEntry.result
    (session_operations
       (snd (run_calls [(os_answers exits_zero (Some disk_full), chmod_operation);
                        (os_answers exits_zero None, chmod_operation);
                        (os_answers times_out None, chmod_operation)]
               (fresh_manager [str "y"; str "n"]))))
  = [str "success"; str "user_cancelled"].
Proof. vm_compute. reflexivity. Qed.

(* ================================================================== *)
(** * The fuel of the scanner *)

Arguments scanstring : simpl nomatch.

Lemma cons_char_some c r x rest :
  cons_char c r = Some (x, rest) -> exists x', r = Some (x', rest).
Proof.
  destruct r as [[x' rest']|]; [|discriminate].
  simpl. intros H. injection H as _ <-. eauto.
Qed.

Lemma skip_ws_length s : (length (skip_ws s) <= length s)%nat.
Proof.
  induction s as [|c s IH]; simpl; [lia|].
  destruct (is_json_ws c); simpl; lia.
Qed.

Lemma scanstring_shorter_bounded n : forall s x r,
  (length s <= n)%nat -> scanstring s = Some (x, r) -> (length r < length s)%nat.
Proof.
  induction n as [|n IH]; intros s x r LEN H.
  - destruct s; [discriminate | simpl in LEN; lia].
  - destruct s as [|c s0]; [discriminate|].
    unfold scanstring in H; fold scanstring in H. simpl in LEN.
    repeat match type of H with
           | context [match ?t with _ => _ end] =>
               is_var t; destruct t; try discriminate; simpl in LEN
           | context [if ?b then _ else _] => destruct b eqn:?; try discriminate
           | context [match hex4_value ?a ?b ?c ?d with _ => _ end] =>
               destruct (hex4_value a b c d); try discriminate
           | context [match unescape ?a with _ => _ end] =>
               destruct (unescape a); try discriminate
           end;
      try (injection H as _ <-; simpl; lia);
      try (apply cons_char_some in H; destruct H as (x' & H);
           apply IH in H; simpl in *; lia).
Qed.

(** What [scanstring] leaves is shorter than what it was given. *)
Lemma scanstring_shorter s x r :
  scanstring s = Some (x, r) -> (length r < length s)%nat.
Proof. apply (@scanstring_shorter_bounded (length s)). lia. Qed.

Arguments scanstring : simpl never.

Lemma scan_digits_length s : forall ds r,
  scan_digits s = (ds, r) -> (length r + length ds = length s)%nat.
Proof.
  induction s as [|c s IH]; intros ds r H; simpl in H.
  - injection H as <- <-. reflexivity.
  - destruct (digit_of c).
    + destruct (scan_digits s) as [ds' r'] eqn:E. injection H as <- <-.
      specialize (IH _ _ eq_refl). simpl. lia.
    + injection H as <- <-. simpl. lia.
Qed.

Lemma scan_number_shorter s n r :
  scan_number s = Some (n, r) -> (length r < length s)%nat.
Proof.
  unfold scan_number.
  set (signed := match s with
                 | [] => (false, s)
                 | c :: r0 => if c =? 45 then (true, r0) else (false, s)
                 end).
  assert (SIGN : (length (snd signed) <= length s)%nat).
  { unfold signed. destruct s as [|c r0]; [simpl; lia|].
    destruct (c =? 45); simpl; lia. }
  destruct signed as [neg s1]. cbn [snd] in SIGN.
  destruct (scan_int s1) as [[i s2]|] eqn:INT; [|discriminate].
  assert (L2 : (length s2 < length s1)%nat).
  { unfold scan_int in INT. destruct s1 as [|c r0]; [discriminate|].
    destruct (c =? 48).
    - injection INT as _ <-. simpl. lia.
    - destruct (scan_digits (c :: r0)) as [ds rest] eqn:D.
      apply scan_digits_length in D.
      destruct ds; [discriminate|]. injection INT as _ <-. simpl in *. lia. }
  destruct (scan_frac s2) as [frac s3] eqn:FRAC.
  assert (L3 : (length s3 <= length s2)%nat).
  { unfold scan_frac in FRAC. destruct s2 as [|c r0]; [injection FRAC as _ <-; lia|].
    destruct (c =? 46); [|injection FRAC as _ <-; lia].
    destruct (scan_digits r0) as [ds rest] eqn:D. apply scan_digits_length in D.
    destruct ds; injection FRAC as _ <-; simpl in *; lia. }
  destruct (scan_exp s3) as [e s4] eqn:EXP.
  assert (L4 : (length s4 <= length s3)%nat).
  { unfold scan_exp in EXP. destruct s3 as [|c r0]; [injection EXP as _ <-; lia|].
    destruct ((c =? 101) || (c =? 69)); [|injection EXP as _ <-; lia].
    set (sg := match r0 with
               | [] => (None, r0)
               | x :: r' =>
                   if x =? 43 then (Some true, r')
                   else if x =? 45 then (Some false, r') else (None, r0)
               end) in EXP.
    assert (SG : (length (snd sg) <= length r0)%nat).
    { unfold sg. destruct r0 as [|x r']; [simpl; lia|].
      destruct (x =? 43); [simpl; lia|]. destruct (x =? 45); simpl; lia. }
    destruct sg as [sign r1]. cbn [snd] in SG.
    destruct (scan_digits r1) as [ds rest] eqn:D. apply scan_digits_length in D.
    destruct ds; injection EXP as _ <-; simpl in *; lia. }
  intros H. injection H as _ <-. lia.
Qed.

Ltac split_scan H :=
  repeat (match type of H with
          | match scanstring ?t with _ => _ end = _ =>
              destruct (scanstring t) as [[? ?]|] eqn:?
          | match scan_number ?t with _ => _ end = _ =>
              destruct (scan_number t) as [[? ?]|] eqn:?
          | match scan_once ?f ?t with _ => _ end = _ =>
              destruct (scan_once f t) as [[? ?]|] eqn:?
          | match scan_members ?f ?t with _ => _ end = _ =>
              destruct (scan_members f t) as [[? ?]|] eqn:?
          | match scan_items ?f ?t with _ => _ end = _ =>
              destruct (scan_items f t) as [[? ?]|] eqn:?
          | match skip_ws ?t with _ => _ end = _ =>
              destruct (skip_ws t) eqn:?
          | (if ?b then _ else _) = _ => destruct b eqn:?
          end; try discriminate).

(** Every successful scan reads at least one character. *)
Lemma scan_shorter fuel :
  (forall s v r, scan_once fuel s = Some (v, r) -> (length r < length s)%nat)
  /\ (forall s ms r, scan_members fuel s = Some (ms, r) -> (length r < length s)%nat)
  /\ (forall s xs r, scan_items fuel s = Some (xs, r) -> (length r < length s)%nat).
Proof.
  induction fuel as [|fuel (IHo & IHm & IHi)];
    [repeat split; intros; discriminate|].
  repeat split; intros s v r H; [destruct s as [|c r0]; [discriminate|]| |];
    cbn [scan_once scan_members scan_items] in H;
    repeat match type of H with
           | context [skipn ?k ?l] =>
               let L := fresh "L" in
               let x := fresh "x" in
               pose proof (List.length_skipn k l) as L;
               set (x := skipn k l) in *; clearbody x
           end;
    split_scan H; injection H as ? ?; subst;
    repeat match goal with
           | E : scanstring _ = Some _ |- _ => apply scanstring_shorter in E
           | E : scan_number _ = Some _ |- _ => apply scan_number_shorter in E
           | E : scan_once _ _ = Some _ |- _ => apply IHo in E
           | E : scan_members _ _ = Some _ |- _ => apply IHm in E
           | E : scan_items _ _ = Some _ |- _ => apply IHi in E
           | E : skip_ws ?t = _ |- _ =>
               let L := fresh "L" in
               pose proof (skip_ws_length t) as L; rewrite E in L; clear E
           end;
    repeat match goal with
           | E : context [skip_ws ?t] |- _ =>
               let L := fresh "L" in
               let x := fresh "x" in
               pose proof (skip_ws_length t) as L;
               set (x := skip_ws t) in *; clearbody x
           end;
    cbn [length] in *; lia.
Qed.

Lemma scan_once_shorter fuel s v r :
  scan_once fuel s = Some (v, r) -> (length r < length s)%nat.
Proof. apply (scan_shorter fuel). Qed.

Lemma scan_members_shorter fuel s ms r :
  scan_members fuel s = Some (ms, r) -> (length r < length s)%nat.
Proof. apply (scan_shorter fuel). Qed.

Lemma scan_items_shorter fuel s xs r :
  scan_items fuel s = Some (xs, r) -> (length r < length s)%nat.
Proof. apply (scan_shorter fuel). Qed.


Ltac skip_ws_facts :=
  repeat match goal with
         | E : skip_ws ?t = ?y |- _ =>
             lazymatch goal with
             | _ : (length y <= length t)%nat |- _ => fail
             | _ => assert (length y <= length t)%nat
                 by (rewrite <- E; apply skip_ws_length)
             end
         end.

Ltac under_skip_ws t :=
  try match t with
      | skip_ws ?u => pose proof (skip_ws_length u)
      end.

(** A scan that succeeds with some fuel succeeds with any fuel that is at
    least the number of characters it read. *)
Lemma scan_fuel_enough fuel :
  (forall s v r, scan_once fuel s = Some (v, r) ->
     forall f, (length s - length r <= f)%nat -> scan_once f s = Some (v, r))
  /\ (forall s ms r, scan_members fuel s = Some (ms, r) ->
     forall f, (length s - length r <= f)%nat -> scan_members f s = Some (ms, r))
  /\ (forall s xs r, scan_items fuel s = Some (xs, r) ->
     forall f, (length s - length r <= f)%nat -> scan_items f s = Some (xs, r)).
Proof.
  induction fuel as [|fuel (IHo & IHm & IHi)];
    [repeat split; intros; discriminate|].
  repeat split; intros s v r H f LE;
    [pose proof (@scan_once_shorter _ _ _ _ H) as SH
    |pose proof (@scan_members_shorter _ _ _ _ H) as SH
    |pose proof (@scan_items_shorter _ _ _ _ H) as SH];
    (destruct f as [|f]; [lia|]);
    [destruct s as [|c r0]; [discriminate|]| |];
    cbn [scan_once scan_members scan_items] in H |- *;
    repeat match type of H with
           | context [skipn ?k ?l] =>
               let x := fresh "x" in set (x := skipn k l) in *; clearbody x
           end;
    split_scan H; injection H as ? ?; subst;
    skip_ws_facts;
    repeat match goal with
           | E : scanstring _ = Some _ |- _ => apply scanstring_shorter in E
           | E : scan_number _ = Some _ |- _ => apply scan_number_shorter in E
           | E : scan_once fuel ?t = Some _ |- _ =>
               pose proof (@scan_once_shorter _ _ _ _ E); under_skip_ws t;
               pose proof (IHo _ _ _ E); clear E
           | E : scan_members fuel ?t = Some _ |- _ =>
               pose proof (@scan_members_shorter _ _ _ _ E); under_skip_ws t;
               pose proof (IHm _ _ _ E); clear E
           | E : scan_items fuel ?t = Some _ |- _ =>
               pose proof (@scan_items_shorter _ _ _ _ E); under_skip_ws t;
               pose proof (IHi _ _ _ E); clear E
           end;
    cbn [length] in *;
    repeat (match goal with
            | E : forall g, _ -> scan_once g ?t = _ |- context [scan_once ?f0 ?t] =>
                rewrite (E f0) by lia
            | E : forall g, _ -> scan_members g ?t = _ |- context [scan_members ?f0 ?t] =>
                rewrite (E f0) by lia
            | E : forall g, _ -> scan_items g ?t = _ |- context [scan_items ?f0 ?t] =>
                rewrite (E f0) by lia
            | E : ?x = _ |- context [?x] => rewrite E
            end; cbn beta iota);
    reflexivity.
Qed.

(** The fuel [json_loads] gives [scan_once] is enough: what any amount of
    fuel reads from a text, fuel above the length of the text reads too. *)
Lemma scan_once_fuel fuel s v r :
  scan_once fuel s = Some (v, r) ->
  forall f, (length s <= f)%nat -> scan_once f s = Some (v, r).
Proof.
  intros H f LE. apply (proj1 (scan_fuel_enough fuel) _ _ _ H). lia.
Qed.

(** So [json_loads] fails on a text only if the scanner fails on it whatever
    its fuel, or something other than white space follows the value. *)
Lemma json_loads_any_fuel fuel s v rest :
  scan_once fuel (skip_ws s) = Some (v, rest) ->
  skip_ws rest = [] ->
  json_loads s = Some v.
Proof.
  intros H END. unfold json_loads.
  rewrite (@scan_once_fuel _ _ _ _ H (S (length s))).
  - rewrite END. reflexivity.
  - pose proof (skip_ws_length s). lia.
Qed.

(* ================================================================== *)
(** * The consent prompt, line by line *)

(** The loop of the prompt, with the input it leaves. *)
Lemma prompt_loop_consumes lines : forall st,
  stdout_write st proceed_prompt = None ->
  stdout_write st (str "Please enter 'y' or 'n'") = None ->
  stdin st = lines ->
  match first_answer lines with
  | Some b =>
      exists st', prompt_loop (tl lines) st = (Ret b, st')
                  /\ stdin st' = after_answer lines
  | None =>
      exists e st', prompt_loop (tl lines) st = (Raise e, st')
                    /\ exn_cls e = EOFError /\ stdin st' = []
  end.
Proof.
  induction lines as [|line rest IH]; intros st ASK RETRY IN.
  - cbn [first_answer tl prompt_loop]. unfold bind at 1.
    destruct (@input_at_end _ _ ASK IN) as (e & st' & -> & E & END & _).
    exists e, st'. repeat split; assumption.
  - cbn [first_answer after_answer tl].
    destruct (@input_line _ _ _ _ ASK IN) as (st1 & READ & IN1 & W1 & _).
    assert (RETRY1 : stdout_write st1 (str "Please enter 'y' or 'n'") = None)
      by (rewrite W1; exact RETRY).
    assert (STEP : prompt_loop rest st
                   = if str_in (lower (strip line)) [str "y"; str "yes"] then (Ret true, st1)
                     else if str_in (lower (strip line)) [str "n"; str "no"; []]
                          then (Ret false, st1)
                          else match rest with
                               | [] => (_ <- input proceed_prompt ;; ret false)
                                         (add_events st1
                                            [EvPrint (str "Please enter 'y' or 'n'")])
                               | _ :: rest' =>
                                   prompt_loop rest'
                                     (add_events st1
                                        [EvPrint (str "Please enter 'y' or 'n'")])
                               end).
    { destruct rest; cbn [prompt_loop]; unfold bind at 1; rewrite READ;
        destruct (str_in _ [str "y"; str "yes"]); try reflexivity;
        destruct (str_in _ [str "n"; str "no"; []]); try reflexivity;
        unfold bind at 1; rewrite (@print_taken _ _ RETRY1); reflexivity. }
    rewrite STEP.
    destruct (str_in _ [str "y"; str "yes"]); [eauto|].
    destruct (str_in _ [str "n"; str "no"; []]); [eauto|].
    assert (ASK2 : stdout_write (add_events st1 [EvPrint (str "Please enter 'y' or 'n'")])
                     proceed_prompt = None)
      by (cbn [add_events stdout_write]; rewrite W1; exact ASK).
    assert (RETRY2 : stdout_write (add_events st1 [EvPrint (str "Please enter 'y' or 'n'")])
                       (str "Please enter 'y' or 'n'") = None)
      by (cbn [add_events stdout_write]; exact RETRY1).
    specialize (IH (add_events st1 [EvPrint (str "Please enter 'y' or 'n'")])
                   ASK2 RETRY2 IN1).
    destruct rest as [|line2 rest2]; [|exact IH].
    cbn [first_answer]. unfold bind at 1.
    destruct (@input_at_end _ _ ASK2 IN1) as (e & st' & -> & E & END & _).
    exists e, st'. repeat split; assumption.
Qed.

(** The gate, with the input it leaves. *)
Lemma request_permission_answer operation st :
  requires_user_approval operation = true ->
  stdout_takes st (gate_texts operation) ->
  match first_answer (stdin st) with
  | Some b =>
      exists st', request_permission operation st = (Ret b, st')
                  /\ stdin st' = after_answer (stdin st)
  | None =>
      exists e st', request_permission operation st = (Raise e, st')
                    /\ exn_cls e = EOFError /\ stdin st' = []
  end.
Proof.
  intros APPROVAL TAKES.
  rewrite (@request_permission_banner _ APPROVAL).
  rewrite prints_taken
    by (intros t IN; apply TAKES; unfold gate_texts; apply in_or_app; left; exact IN).
  assert (NEXT : forall s, (pending <- get stdin ;; prompt_loop (tl pending)) s
                           = prompt_loop (tl (stdin s)) s) by reflexivity.
  rewrite NEXT. cbn [add_events stdin].
  apply prompt_loop_consumes; [| |reflexivity];
    cbn [stdout_write]; apply TAKES; unfold gate_texts; apply in_or_app; right;
    simpl; tauto.
Qed.

(** The gate on a standard output that refuses its first line: the error
    of the write leaves the gate before anything is read. *)
Lemma request_permission_refused operation st e :
  requires_user_approval operation = true ->
  stdout_write st (10 :: 128274 :: str " Privileged Operation Required") = Some e ->
  request_permission operation st = (Raise e, st).
Proof.
  intros APPROVAL REFUSED.
  rewrite (@request_permission_banner _ APPROVAL).
  unfold gate_banner. cbn [app fold_right]. unfold bind at 1.
  rewrite (@print_refused _ _ _ REFUSED). reflexivity.
Qed.

(** X1.  With approval required and a standard output that takes what the
    gate writes, [request_permission] answers from the input alone: it
    returns [True] or [False] by the first line that, stripped and lowered,
    is one of [y], [yes], [n], [no] or empty, and leaves the lines after that
    one unread; when the input ends before such a line it raises [EOFError],
    having read all of it.  On a standard output that refuses the first line
    of the gate, as one that cannot encode its padlock does, the error of
    that write leaves [request_permission] and nothing is read or shown. *)
Theorem gate_answers_first_recognised_line operation st :
  requires_user_approval operation = true ->
  (stdout_takes st (gate_texts operation) ->
   match first_answer (stdin st) with
   | Some b =>
       exists st', request_permission operation st = (Ret b, st')
                   /\ stdin st' = after_answer (stdin st)
   | None =>
       exists e st', request_permission operation st = (Raise e, st')
                     /\ exn_cls e = EOFError /\ stdin st' = []
   end)
  /\ (forall e,
        stdout_write st (10 :: 128274 :: str " Privileged Operation Required") = Some e ->
        request_permission operation st = (Raise e, st)).
Proof.
  intros APPROVAL. split.
  - exact (@request_permission_answer operation st APPROVAL).
  - intros e. exact (@request_permission_refused operation st e APPROVAL).
Qed.

Lemma gate_answers_first_recognised_line_witness :
  (exists st',
     request_permission chmod_operation
       (fresh_manager [str "maybe"; str " YES "; str "n"]) = (Ret true, st')
     /\ stdin st' = [str "n"])
  /\ request_permission chmod_operation (manager_on ascii_stdout [str "y"])
     = (Raise {| exn_cls := UnicodeEncodeError;
                 exn_str := str "'ascii' codec can't encode character '\U0001f512' in position 1: ordinal not in range(128)" |},
        manager_on ascii_stdout [str "y"]).
Proof.
  split.
  - exact (proj1 (@gate_answers_first_recognised_line chmod_operation
                    (fresh_manager [str "maybe"; str " YES "; str "n"]) eq_refl)
             (fun text _ => eq_refl)).
  - exact (proj2 (@gate_answers_first_recognised_line chmod_operation
                    (manager_on ascii_stdout [str "y"]) eq_refl) _ eq_refl).
Defined.

(* ================================================================== *)
(** * What one call spawns and asks *)

Lemma popen_calls_app a b : popen_calls (a ++ b) = popen_calls a ++ popen_calls b.
Proof.
  induction a as [|e a IH]; simpl; [reflexivity|].
  destruct e; simpl; rewrite IH; reflexivity.
Qed.

Lemma communicate_timeouts_app a b :
  communicate_timeouts (a ++ b) = communicate_timeouts a ++ communicate_timeouts b.
Proof.
  induction a as [|e a IH]; simpl; [reflexivity|].
  destruct e; simpl; rewrite IH; reflexivity.
Qed.

Lemma input_count_app a b : input_count (a ++ b) = (input_count a + input_count b)%nat.
Proof.
  induction a as [|e a IH]; simpl; [reflexivity|].
  destruct e; simpl; rewrite IH; reflexivity.
Qed.

Lemma console_events_app a b :
  console_events (a ++ b) = console_events a ++ console_events b.
Proof. apply filter_app. Qed.

Lemma dialogue_events_app a b :
  dialogue_events (a ++ b) = dialogue_events a ++ dialogue_events b.
Proof. apply filter_app. Qed.

Lemma console_no_process evs :
  forallb is_console evs = true ->
  popen_calls evs = [] /\ communicate_timeouts evs = [].
Proof.
  induction evs as [|e evs IH]; simpl; [split; reflexivity|].
  destruct e; simpl; try discriminate; exact IH.
Qed.

(** What the stream handler writes is on the console and is no part of
    the dialogue. *)
Lemma stream_record_observed os k st levelname msg :
  popen_calls (stream_record os k st levelname msg) = []
  /\ dialogue_events (stream_record os k st levelname msg) = []
  /\ console_events (stream_record os k st levelname msg)
     = stream_record os k st levelname msg
  /\ input_count (stream_record os k st levelname msg) = O.
Proof.
  unfold stream_record. destruct (stream_handler (handlers st)); [|repeat split].
  destruct (stdout_write st _); repeat split.
Qed.

Lemma process_events_calls os operation argv :
  popen_calls (process_events os operation argv)
  = [(argv, working_directory operation, spawned_env os operation)].
Proof.
  unfold process_events, kill_events, spawned_env.
  destruct (popen_raises os) as [[[] ?]|];
    [..| destruct (communicate_result os) as [[[] ?]|?]];
    reflexivity.
Qed.

Lemma process_events_silent os operation argv :
  console_events (process_events os operation argv) = []
  /\ dialogue_events (process_events os operation argv) = []
  /\ input_count (process_events os operation argv) = O.
Proof.
  unfold process_events, kill_events.
  destruct (popen_raises os) as [[[] ?]|];
    [..| destruct (communicate_result os) as [[[] ?]|?]];
    repeat split; reflexivity.
Qed.

(** The [try] block spawns one process and leaves the console alone. *)
Lemma spawned_observed os operation argv st :
  popen_calls (trace (spawned os operation argv st))
  = popen_calls (trace st)
    ++ [(argv, working_directory operation, spawned_env os operation)]
  /\ dialogue_events (trace (spawned os operation argv st)) = dialogue_events (trace st)
  /\ console_events (trace (spawned os operation argv st)) = console_events (trace st)
  /\ stdin (spawned os operation argv st) = stdin st.
Proof.
  unfold spawned. cbn [trace stdin].
  rewrite popen_calls_app, dialogue_events_app, console_events_app, process_events_calls.
  destruct (process_events_silent os operation argv) as (-> & -> & _).
  rewrite !List.app_nil_r. repeat split.
Qed.

(** The record step spawns nothing, asks nothing and prints nothing; the
    console gets the ERROR record of the logger when the write fails. *)
Lemma recorded_observed os operation rm st :
  popen_calls (trace (recorded os operation rm st)) = popen_calls (trace st)
  /\ dialogue_events (trace (recorded os operation rm st)) = dialogue_events (trace st)
  /\ console_events (trace (recorded os operation rm st))
     = console_events (trace st)
       ++ match write_raises os with
          | None => []
          | Some e =>
              stream_record os 2 st "ERROR"
                (str "Failed to write audit log: " ++ exn_str e)
          end
  /\ stdin (recorded os operation rm st) = stdin st.
Proof.
  destruct (recorded_frame os operation rm st) as (_ & _ & _ & _ & (I & _) & T).
  rewrite T, I, popen_calls_app, dialogue_events_app, console_events_app.
  destruct (write_raises os) as [e|];
    [|cbn; rewrite !List.app_nil_r; repeat split].
  match goal with
  | |- context [?a :: ?b :: ?c :: stream_record os 2 st ?l ?m] =>
      change (a :: b :: c :: stream_record os 2 st l m)
        with ([a; b; c] ++ stream_record os 2 st l m)
  end.
  rewrite !popen_calls_app, !dialogue_events_app, !console_events_app.
  cbn [popen_calls dialogue_events console_events filter is_console is_dialogue app].
  destruct (stream_record_observed os 2 st "ERROR"
              (str "Failed to write audit log: " ++ exn_str e)) as (-> & -> & -> & _).
  rewrite !List.app_nil_r. repeat split.
Qed.

Lemma process_outcome_not_cancelled os operation :
  fst (process_outcome os operation) <> USER_CANCELLED.
Proof.
  pose proof (process_outcome_results os operation) as H.
  intros E. rewrite E in H. simpl in H.
  destruct H as [H|[H|[H|[]]]]; discriminate.
Qed.

(** Up to the gate nothing is spawned, asked or printed; the console gets
    the two INFO records of the logger. *)
Lemma at_gate_observed os operation st :
  popen_calls (trace (at_gate os operation st)) = popen_calls (trace st)
  /\ dialogue_events (trace (at_gate os operation st)) = dialogue_events (trace st)
  /\ console_events (trace (at_gate os operation st))
     = console_events (trace st)
       ++ stream_record os 0 st "INFO"
            (str "Attempting privileged operation: " ++ description operation)
       ++ stream_record os 1 st "INFO"
            (str "Command: " ++ join (str " ") (command operation))
  /\ stdin (at_gate os operation st) = stdin st.
Proof.
  destruct (at_gate_frame os operation st) as (_ & _ & _ & _ & (I & _) & T).
  rewrite T, I.
  match goal with
  | |- context [trace st ++ ?a :: ?x ++ ?b :: ?y] =>
      change (trace st ++ a :: x ++ b :: y) with (trace st ++ [a] ++ x ++ [b] ++ y)
  end.
  rewrite !popen_calls_app, !dialogue_events_app, !console_events_app.
  change (popen_calls [EvLoggerInfo
            (str "Attempting privileged operation: " ++ description operation)])
    with (@nil (list pystr * option pystr * dict pystr)).
  change (popen_calls [EvLoggerInfo (str "Command: " ++ join (str " ") (command operation))])
    with (@nil (list pystr * option pystr * dict pystr)).
  change (dialogue_events [EvLoggerInfo
            (str "Attempting privileged operation: " ++ description operation)])
    with (@nil event).
  change (dialogue_events [EvLoggerInfo
            (str "Command: " ++ join (str " ") (command operation))])
    with (@nil event).
  change (console_events [EvLoggerInfo
            (str "Attempting privileged operation: " ++ description operation)])
    with (@nil event).
  change (console_events [EvLoggerInfo
            (str "Command: " ++ join (str " ") (command operation))])
    with (@nil event).
  cbn [app].
  destruct (stream_record_observed os 0 st "INFO"
              (str "Attempting privileged operation: " ++ description operation))
    as (-> & -> & -> & _).
  destruct (stream_record_observed os 1 st "INFO"
              (str "Command: " ++ join (str " ") (command operation)))
    as (-> & -> & -> & _).
  rewrite !List.app_nil_r. repeat split.
Qed.

(** The processes of one call. *)
Lemma execute_popen_calls os operation st :
  popen_calls (trace (snd (execute_with_escalation os operation st)))
  = popen_calls (trace st)
    ++ match fst (execute_with_escalation os operation st) with
       | Ret (USER_CANCELLED, _) => []
       | Ret _ =>
           [(spawned_argv operation st, working_directory operation,
             spawned_env os operation)]
       | Raise _ => []
       end.
Proof.
  rewrite execute_closed_form. unfold spawned_argv, needs_escalation.
  destruct (at_gate_observed os operation st) as (PG & _ & _).
  pose proof (process_outcome_not_cancelled os operation) as NC.
  destruct (match permission_level operation with
            | BASIC => false
            | _ => negb (is_privileged st)
            end).
  - destruct (console_request_permission operation (at_gate os operation st))
      as [(_ & _ & _ & _ & _ & evs & T & F) _].
    destruct (console_no_process _ (dialogue_is_console _ F)) as (CP & _).
    destruct (request_permission operation (at_gate os operation st)) as [[[|]|e] st2];
      cbn [fst snd] in *.
    + destruct (recorded_observed os operation (process_outcome os operation)
                  (spawned os operation (str "sudo" :: command operation) st2))
        as (-> & _ & _).
      destruct (spawned_observed os operation (str "sudo" :: command operation) st2)
        as (-> & _).
      rewrite T, popen_calls_app, CP, PG, List.app_nil_r.
      destruct (process_outcome os operation) as [[] m]; cbn [fst] in NC;
        try reflexivity; contradiction.
    + destruct (recorded_observed os operation cancelled st2) as (-> & _ & _).
      rewrite T, popen_calls_app, CP, PG.
      rewrite !List.app_nil_r. reflexivity.
    + rewrite T, popen_calls_app, CP, PG. reflexivity.
  - cbn [fst snd].
    destruct (recorded_observed os operation (process_outcome os operation)
                (spawned os operation (command operation) (at_gate os operation st)))
      as (-> & _ & _).
    destruct (spawned_observed os operation (command operation) (at_gate os operation st))
      as (-> & _).
    rewrite PG.
    destruct (process_outcome os operation) as [[] m]; cbn [fst] in NC;
      try reflexivity; contradiction.
Qed.





(* ================================================================== *)
(** * The environment of the process *)

Lemma str_eqb_refl a : str_eqb a a = true.
Proof. now apply str_eqb_eq. Qed.

Lemma str_eqb_neq a b : a <> b -> str_eqb a b = false.
Proof.
  intros NE. destruct (str_eqb a b) eqn:E; [|reflexivity].
  apply str_eqb_eq in E. contradiction.
Qed.

Lemma dict_get_absent {V} (d : dict V) k : ~ In k (keys d) -> dict_get d k = None.
Proof.
  induction d as [|[k0 v0] d IH]; simpl; [reflexivity|].
  intros NOT. rewrite IH by tauto.
  rewrite str_eqb_neq; [reflexivity | tauto].
Qed.

Lemma dict_get_set {V} (d : dict V) k v k' :
  NoDup (keys d) ->
  dict_get (dict_set d k v) k' = if str_eqb k k' then Some v else dict_get d k'.
Proof.
  induction d as [|[k0 v0] d IH]; intros ND; simpl.
  - reflexivity.
  - inversion ND as [|? ? NOTIN ND']; subst.
    destruct (str_eqb k0 k) eqn:K0.
    + apply str_eqb_eq in K0. subst k0. simpl.
      destruct (str_eqb k k') eqn:KK.
      * apply str_eqb_eq in KK. subst k'.
        rewrite (dict_get_absent _ _ NOTIN). reflexivity.
      * reflexivity.
    + simpl. rewrite IH by exact ND'.
      destruct (str_eqb k k') eqn:KK; reflexivity.
Qed.

Lemma keys_dict_set {V} (d : dict V) k v :
  keys (dict_set d k v) = if str_in k (keys d) then keys d else keys d ++ [k].
Proof.
  induction d as [|[k0 v0] d IH]; simpl; [reflexivity|].
  unfold str_in in *. simpl.
  destruct (str_eqb k0 k) eqn:K0.
  - apply str_eqb_eq in K0. subst k0. rewrite str_eqb_refl. reflexivity.
  - rewrite str_eqb_neq.
    + simpl. rewrite IH. destruct (existsb (str_eqb k) (keys d)); reflexivity.
    + intros E. subst k0. rewrite str_eqb_refl in K0. discriminate.
Qed.

Lemma dict_set_nodup {V} (d : dict V) k v : NoDup (keys d) -> NoDup (keys (dict_set d k v)).
Proof.
  intros ND. rewrite keys_dict_set.
  destruct (str_in k (keys d)) eqn:IN; [exact ND|].
  apply NoDup_app; [exact ND | repeat constructor; intros [] |].
  intros x INX [<-|[]].
  apply str_in_In in INX. congruence.
Qed.

Lemma dict_get_update {V} (other : dict V) : forall d k,
  NoDup (keys d) ->
  dict_get (dict_update d other) k
  = match dict_get other k with
    | Some v => Some v
    | None => dict_get d k
    end.
Proof.
  unfold dict_update.
  induction other as [|[k0 v0] other IH]; intros d k ND; simpl; [reflexivity|].
  rewrite IH by now apply dict_set_nodup.
  destruct (dict_get other k); [reflexivity|].
  rewrite dict_get_set by exact ND.
  destruct (str_eqb k0 k); reflexivity.
Qed.

(** X4.  A call of [execute_with_escalation] that returns anything but
    USER_CANCELLED has given [Popen] exactly one environment: that of the
    manager's own process with the variables of the operation laid over it.
    A variable the operation names has the operation's value there, and
    every other variable is inherited unchanged. *)
Theorem child_environment_overlays os operation st r m :
  NoDup (keys (environ os)) ->
  fst (execute_with_escalation os operation st) = Ret (r, m) ->
  r <> USER_CANCELLED ->
  exists argv cwd env,
    popen_calls (trace (snd (execute_with_escalation os operation st)))
    = popen_calls (trace st) ++ [(argv, cwd, env)]
    /\ forall name,
         dict_get env name
         = match environment operation with
           | Some overlay =>
               match dict_get overlay name with
               | Some v => Some v
               | None => dict_get (environ os) name
               end
           | None => dict_get (environ os) name
           end.
Proof.
  intros ND RUN PASSED.
  exists (spawned_argv operation st), (working_directory operation),
    (spawned_env os operation).
  split.
  - rewrite execute_popen_calls, RUN. destruct r; try reflexivity. contradiction.
  - intros name. unfold spawned_env.
    destruct (environment operation) as [[|kv overlay]|]; try reflexivity.
    apply dict_get_update. exact ND.
Qed.

Lemma child_environment_overlays_witness :
  exists argv cwd env,
    popen_calls
      (trace (snd (execute_with_escalation (os_answers exits_zero None) build_operation
                     (fresh_manager []))))
    = [(argv, cwd, env)]
    /\ dict_get env (str "CC") = Some (str "clang")
    /\ dict_get env (str "PATH") = Some (str "/usr/bin").
Proof.
  destruct (@child_environment_overlays (os_answers exits_zero None) build_operation
              (fresh_manager []) SUCCESS (str "ok"))
    as (argv & cwd & env & P & E).
  - repeat constructor. intros [].
  - vm_compute. reflexivity.
  - discriminate.
  - exists argv, cwd, env. split; [exact P|].
    split; [exact (E (str "CC")) | exact (E (str "PATH"))].
Defined.

(* ================================================================== *)
(** * The statistics of the summary *)

Lemma failed_is_no_stats (e : exn) (s : summary_stats) :
  match exn_cls e with
  | FileNotFoundError => NoAuditLog
  | _ => SummaryError (str "Failed to read audit log: " ++ exn_str e)
  end <> Stats s.
Proof. destruct (exn_cls e); discriminate. Qed.

(** The statistics, when the summary returns them, read off the window. *)
Lemma summary_stats_spec opened limit s :
  get_audit_summary opened limit = Stats s ->
  exists lines,
    opened = inr lines
    /\ total_entries s = Z.of_nat (length (recent_window limit (read_entries lines)))
    /\ sum_if (on_field (str "result") (fun v => json_eq_str v (str "success")))
         (recent_window limit (read_entries lines)) = inr (success_count s)
    /\ sum_if (on_field (str "result") (fun v => negb (json_eq_str v (str "success"))))
         (recent_window limit (read_entries lines)) = inr (failure_count s)
    /\ sum_if (on_field (str "permission_level")
                 (fun v => json_eq_str v (str "elevated")
                           || json_eq_str v (str "administrative")))
         (recent_window limit (read_entries lines)) = inr (elevated_operations s)
    /\ recent_operations s = slice_from (-10) (recent_window limit (read_entries lines)).
Proof.
  unfold get_audit_summary.
  destruct opened as [e|lines]; [intros H; now apply failed_is_no_stats in H|].
  change (if (Z.of_nat (length (read_entries lines)) >? limit)%Z
          then slice_from (- limit) (read_entries lines)
          else read_entries lines)
    with (recent_window limit (read_entries lines)).
  set (recent := recent_window limit (read_entries lines)).
  destruct (sum_if (on_field (str "result") (fun v => json_eq_str v (str "success")))
              recent) as [e|a] eqn:A; [intros H; now apply failed_is_no_stats in H|].
  destruct (sum_if (on_field (str "result")
                      (fun v => negb (json_eq_str v (str "success"))))
              recent) as [e|b] eqn:B; [intros H; now apply failed_is_no_stats in H|].
  destruct (sum_if (on_field (str "permission_level")
                      (fun v => json_eq_str v (str "elevated")
                                || json_eq_str v (str "administrative")))
              recent) as [e|c] eqn:C; [intros H; now apply failed_is_no_stats in H|].
  intros H. injection H as <-. exists lines. subst recent.
  cbn [total_entries success_count failure_count elevated_operations recent_operations].
  repeat split; assumption.
Qed.

Lemma sum_if_bounds k p entries n :
  sum_if (on_field k p) entries = inr n -> (0 <= n <= Z.of_nat (length entries))%Z.
Proof.
  revert n. induction entries as [|e entries IH]; intros n; simpl.
  - intros H. injection H as <-. lia.
  - destruct (on_field k p e) as [x|b]; [discriminate|].
    destruct (sum_if (on_field k p) entries) as [x|m]; [discriminate|].
    intros H. injection H as <-. specialize (IH m eq_refl).
    destruct b; lia.
Qed.

Lemma sum_if_complement k p entries a b :
  sum_if (on_field k p) entries = inr a ->
  sum_if (on_field k (fun v => negb (p v))) entries = inr b ->
  (a + b = Z.of_nat (length entries))%Z.
Proof.
  revert a b. induction entries as [|e entries IH]; intros a b; simpl.
  - intros A B. injection A as <-. injection B as <-. reflexivity.
  - unfold on_field at 1 3.
    destruct (subscript e k) as [x|v]; [discriminate|].
    destruct (sum_if (on_field k p) entries) as [x|m]; [discriminate|].
    destruct (sum_if (on_field k (fun v => negb (p v))) entries) as [x|m'];
      [discriminate|].
    intros A B. injection A as <-. injection B as <-.
    specialize (IH m m' eq_refl eq_refl). destruct (p v); cbn [negb]; lia.
Qed.

(** X5.  Whenever [get_audit_summary] returns statistics, they add up: every
    entry counted is either a success or a failure, so [success_count] and
    [failure_count] sum to [total_entries], and [elevated_operations] lies
    between 0 and [total_entries]. *)
Theorem summary_counts_add_up opened limit s :
  get_audit_summary opened limit = Stats s ->
  (success_count s + failure_count s = total_entries s)%Z
  /\ (0 <= success_count s)%Z /\ (0 <= failure_count s)%Z
  /\ (0 <= elevated_operations s <= total_entries s)%Z.
Proof.
  intros H. destruct (summary_stats_spec _ _ H) as (lines & _ & -> & A & B & C & _).
  pose proof (sum_if_complement _ _ _ A B).
  pose proof (sum_if_bounds _ _ _ A). pose proof (sum_if_bounds _ _ _ B).
  pose proof (sum_if_bounds _ _ _ C). lia.
Qed.

Lemma summary_counts_add_up_witness :
  exists s,
    get_audit_summary (inr sample_log) 50 = Stats s
    /\ (success_count s + failure_count s = total_entries s)%Z.
Proof.
  destruct (get_audit_summary (inr sample_log) 50) as [s| |msg] eqn:E;
    [|vm_compute in E; discriminate..].
  exists s. split; [reflexivity|].
  exact (proj1 (summary_counts_add_up _ _ E)).
Defined.

Lemma slice_from_suffix {A} (i : Z) (l : list A) : exists older, l = older ++ slice_from i l.
Proof.
  unfold slice_from. destruct (i <? 0)%Z; eexists; symmetry; apply firstn_skipn.
Qed.

Lemma slice_from_last_length {A} (n : Z) (l : list A) :
  (0 < n)%Z ->
  Z.of_nat (length (slice_from (- n) l)) = Z.min n (Z.of_nat (length l)).
Proof.
  intros POS. unfold slice_from.
  destruct (- n <? 0)%Z eqn:NEG; [|apply Z.ltb_ge in NEG; lia].
  rewrite length_skipn. lia.
Qed.

(** X6.  The [recent_operations] of a summary are the last entries of the
    window the statistics were computed from, in the order of the log, and
    there are ten of them or, when the window is shorter, all of it. *)
Theorem recent_operations_are_the_last_ten opened limit s :
  get_audit_summary opened limit = Stats s ->
  Z.of_nat (length (recent_operations s)) = Z.min 10 (total_entries s)
  /\ exists lines older,
       opened = inr lines
       /\ recent_window limit (read_entries lines) = older ++ recent_operations s.
Proof.
  intros H. destruct (summary_stats_spec _ _ H) as (lines & -> & -> & _ & _ & _ & ->).
  split.
  - apply (@slice_from_last_length json 10). lia.
  - destruct (slice_from_suffix (-10) (recent_window limit (read_entries lines)))
      as (older & E).
    exists lines, older. split; [reflexivity | exact E].
Qed.

Lemma recent_operations_are_the_last_ten_witness :
  exists s,
    get_audit_summary (inr sample_log) 1 = Stats s
    /\ Z.of_nat (length (recent_operations s)) = Z.min 10 (total_entries s).
Proof.
  destruct (get_audit_summary (inr sample_log) 1) as [s| |msg] eqn:E;
    [|vm_compute in E; discriminate..].
  exists s. split; [reflexivity|].
  exact (proj1 (recent_operations_are_the_last_ten _ _ E)).
Defined.

Lemma recent_window_fields limit entries :
  Forall has_fields entries -> Forall has_fields (recent_window limit entries).
Proof.
  intros F. unfold recent_window.
  destruct (_ >? _)%Z; [now apply Forall_slice_from | exact F].
Qed.

(** The length of the window, by the sign of the limit. *)
Lemma recent_window_length limit (entries : list json) :
  Z.of_nat (length (recent_window limit entries))
  = if (1 <=? limit)%Z then Z.min (Z.of_nat (length entries)) limit
    else if (limit =? 0)%Z then Z.of_nat (length entries)
    else Z.max 0 (Z.of_nat (length entries) + limit).
Proof.
  unfold recent_window, slice_from.
  destruct (Z.of_nat (length entries) >? limit)%Z eqn:GT;
    [apply Z.gtb_lt in GT | rewrite Z.gtb_ltb in GT; apply Z.ltb_ge in GT];
    destruct (1 <=? limit)%Z eqn:POS;
    [apply Z.leb_le in POS | apply Z.leb_gt in POS
    |apply Z.leb_le in POS | apply Z.leb_gt in POS].
  - destruct (- limit <? 0)%Z eqn:NEG; [|apply Z.ltb_ge in NEG; lia].
    rewrite length_skipn. lia.
  - destruct (limit =? 0)%Z eqn:ZERO;
      [apply Z.eqb_eq in ZERO; subst limit; reflexivity | apply Z.eqb_neq in ZERO].
    destruct (- limit <? 0)%Z eqn:NEG; [apply Z.ltb_lt in NEG; lia|].
    rewrite length_skipn. lia.
  - lia.
  - destruct (limit =? 0)%Z eqn:ZERO; [reflexivity | apply Z.eqb_neq in ZERO; lia].
Qed.

(** X7.  On a log whose lines stay within the limits of the interpreter (no
    integer literal of more than 4300 digits, no deep nesting, so that
    [json.loads] either returns or raises [JSONDecodeError]) and are valid
    records or corrupt, with N valid records, [get_audit_summary] reports
    [total_entries] = min(N, limit) for a limit of at least 1, N for the
    limit 0 (the slice [entries[-0:]] is the whole list), and
    max(0, N + limit) for a negative limit (the slice drops the oldest
    [-limit] entries instead of keeping the newest). *)
Theorem summary_total_by_limit lines limit :
  Forall (fun line => within_limits line = true) lines ->
  Forall (fun line => record_line line \/ corrupt_line line) lines ->
  reported_total (get_audit_summary (inr lines) limit)
  = Some (let n := Z.of_nat (length (filter parses lines)) in
          if (1 <=? limit)%Z then Z.min n limit
          else if (limit =? 0)%Z then n
          else Z.max 0 (n + limit)).
Proof.
  intros _ LINES. destruct (read_entries_records LINES) as (F & LEN).
  cbv zeta. rewrite <- LEN, <- recent_window_length.
  unfold get_audit_summary.
  change (if (Z.of_nat (length (read_entries lines)) >? limit)%Z
          then slice_from (- limit) (read_entries lines)
          else read_entries lines)
    with (recent_window limit (read_entries lines)).
  pose proof (recent_window_fields limit F) as FR.
  destruct (sum_if_total (fun v => json_eq_str v (str "success"))
              (or_introl eq_refl) FR) as (n1 & ->).
  destruct (sum_if_total (fun v => negb (json_eq_str v (str "success")))
              (or_introl eq_refl) FR) as (n2 & ->).
  destruct (sum_if_total (fun v => json_eq_str v (str "elevated")
                                   || json_eq_str v (str "administrative"))
              (or_intror eq_refl) FR) as (n3 & ->).
  reflexivity.
Qed.

Lemma summary_total_by_limit_witness :
  reported_total (get_audit_summary (inr sample_log) (-1)) = Some 1%Z.
Proof.
  rewrite summary_total_by_limit.
  - vm_compute. reflexivity.
  - apply Forall_forall. intros line IN.
    assert (ALL : forallb within_limits sample_log = true) by (vm_compute; reflexivity).
    rewrite forallb_forall in ALL. exact (ALL line IN).
  - apply record_or_corrupt_lines. vm_compute. reflexivity.
Defined.

Lemma subscript_error_class e k x :
  subscript e k = inl x -> exn_cls x = KeyError \/ exn_cls x = TypeError.
Proof.
  unfold subscript.
  destruct e as [|b|n| |b|s|items|members]; try (intros H; injection H as <-; auto).
  - destruct (num_frac n), (num_exp n); intros H; injection H as <-; auto.
  - destruct (dict_get members k); [discriminate|].
    intros H; injection H as <-; auto.
Qed.

Lemma sum_if_error_class k p entries x :
  sum_if (on_field k p) entries = inl x -> exn_cls x = KeyError \/ exn_cls x = TypeError.
Proof.
  induction entries as [|e entries IH]; simpl; [discriminate|].
  unfold on_field at 1.
  destruct (subscript e k) as [y|v] eqn:S.
  - intros H. injection H as <-. eapply subscript_error_class. exact S.
  - destruct (sum_if (on_field k p) entries) as [y|m]; [|discriminate].
    intros H. injection H as <-. now apply IH.
Qed.

Lemma sum_if_fails k p entries e x :
  In e entries -> subscript e k = inl x ->
  exists y, sum_if (on_field k p) entries = inl y.
Proof.
  intros IN S. induction entries as [|e0 entries IH]; [destruct IN|].
  simpl. destruct (on_field k p e0) as [y|b] eqn:F; [eauto|].
  destruct IN as [<-|IN].
  - unfold on_field in F. rewrite S in F. discriminate.
  - destruct (IH IN) as (y & ->). eauto.
Qed.

Lemma failed_is_error (x : exn) :
  exn_cls x = KeyError \/ exn_cls x = TypeError ->
  match exn_cls x with
  | FileNotFoundError => NoAuditLog
  | _ => SummaryError (str "Failed to read audit log: " ++ exn_str x)
  end = SummaryError (str "Failed to read audit log: " ++ exn_str x).
Proof. intros [-> | ->]; reflexivity. Qed.

(** X8.  Only lines that are not JSON are skipped.  A line that is valid JSON
    but not a record with the fields the statistics read (a number, a list,
    an object without [result] or [permission_level]) makes the whole summary
    fail once it is in the window: [get_audit_summary] then returns the
    [error] dictionary and no statistics at all. *)
Theorem non_record_entry_fails_summary lines limit e x :
  In e (recent_window limit (read_entries lines)) ->
  subscript e (str "result") = inl x \/ subscript e (str "permission_level") = inl x ->
  exists y,
    get_audit_summary (inr lines) limit
    = SummaryError (str "Failed to read audit log: " ++ exn_str y).
Proof.
  intros IN MISSING. unfold get_audit_summary.
  change (if (Z.of_nat (length (read_entries lines)) >? limit)%Z
          then slice_from (- limit) (read_entries lines)
          else read_entries lines)
    with (recent_window limit (read_entries lines)).
  set (recent := recent_window limit (read_entries lines)) in *.
  destruct (sum_if (on_field (str "result") (fun v => json_eq_str v (str "success")))
              recent) as [y|a] eqn:A.
  { exists y. apply failed_is_error. eapply sum_if_error_class. exact A. }
  destruct (sum_if (on_field (str "result")
                      (fun v => negb (json_eq_str v (str "success"))))
              recent) as [y|b] eqn:B.
  { exists y. apply failed_is_error. eapply sum_if_error_class. exact B. }
  destruct MISSING as [S|S].
  - destruct (@sum_if_fails _ (fun v => json_eq_str v (str "success")) _ _ _ IN S)
      as (y & C).
    congruence.
  - destruct (@sum_if_fails _ (fun v => json_eq_str v (str "elevated")
                                        || json_eq_str v (str "administrative"))
                _ _ _ IN S) as (y & C).
    rewrite C. exists y. apply failed_is_error. eapply sum_if_error_class. exact C.
Qed.

Lemma non_record_entry_fails_summary_witness :
  exists y,
    get_audit_summary (inr (sample_log ++ [str "42"])) 50
    = SummaryError (str "Failed to read audit log: " ++ exn_str y).
Proof.
  apply (@non_record_entry_fails_summary (sample_log ++ [str "42"]) 50
           (JNum {| num_neg := false; num_int := 42; num_frac := []; num_exp := None |})
           (type_error "'int' object is not subscriptable")).
  - vm_compute. right. right. left. reflexivity.
  - left. reflexivity.
Defined.

(* ================================================================== *)
(** * One record, one line *)

Lemma printableb_spec s : printableb s = true -> printable s.
Proof.
  unfold printableb, printable. rewrite forallb_forall, Forall_forall.
  intros H c IN. specialize (H c IN).
  apply andb_true_iff in H. destruct H as [LO HI].
  apply N.leb_le in LO, HI. split; assumption.
Qed.

Lemma printable_app a b : printable a -> printable b -> printable (a ++ b).
Proof. intros A B. apply Forall_app. split; assumption. Qed.

Lemma printable_cons c s : 32 <= c <= 126 -> printable s -> printable (c :: s).
Proof. intros C S. constructor; assumption. Qed.

Lemma hex_digit_printable n : n < 16 -> 32 <= hex_digit n <= 126.
Proof. intros B. unfold hex_digit. destruct (n <? 10); lia. Qed.

Lemma backslash_u_printable n : printable (backslash_u n).
Proof.
  unfold backslash_u, hex4.
  repeat (apply printable_cons;
          [try lia; apply hex_digit_printable; apply N.mod_lt; discriminate|]).
  constructor.
Qed.

Lemma escape_cp_printable c : printable (escape_cp c).
Proof.
  unfold escape_cp.
  repeat match goal with
         | |- printable (if ?b then _ else _) =>
             destruct b eqn:?; [try (apply printableb_spec; reflexivity)|]
         end.
  - apply andb_true_iff in Heqb6. destruct Heqb6 as [LO HI].
    apply N.leb_le in LO, HI. apply printable_cons; [lia | constructor].
  - apply backslash_u_printable.
  - apply printable_app; apply backslash_u_printable.
Qed.

Lemma encode_basestring_ascii_printable s : printable (encode_basestring_ascii s).
Proof.
  unfold encode_basestring_ascii. apply printable_cons; [lia|].
  apply printable_app; [|apply printableb_spec; reflexivity].
  induction s as [|c s IH]; cbn [flat_map]; [constructor|].
  apply printable_app; [apply escape_cp_printable | exact IH].
Qed.

Lemma digits_printable ds : printable (map digit_cp ds).
Proof.
  induction ds as [|d ds IH]; cbn [map]; [constructor|].
  apply printable_cons; [|exact IH].
  pose proof (digit_cp_range d). lia.
Qed.

Lemma str_of_N_printable n : printable (str_of_N n).
Proof.
  unfold str_of_N. rewrite uint_chars_digits. apply digits_printable.
Qed.

Lemma dumps_number_printable n : printable (dumps_number n).
Proof.
  unfold dumps_number.
  apply printable_app; [destruct (num_neg n); apply printableb_spec; reflexivity|].
  apply printable_app; [apply str_of_N_printable|].
  apply printable_app.
  - destruct (num_frac n); [constructor|].
    apply printable_cons; [lia | apply digits_printable].
  - destruct (num_exp n) as [e|]; [|constructor].
    unfold dumps_exponent.
    apply printable_cons; [destruct (exp_upper e); lia|].
    apply printable_app; [|apply digits_printable].
    destruct (exp_sign e) as [[|]|]; apply printableb_spec; reflexivity.
Qed.

Lemma join_printable sep parts :
  printable sep -> Forall printable parts -> printable (join sep parts).
Proof.
  intros SEP. induction 1 as [|p parts P _ IH]; [constructor|].
  destruct parts as [|q parts].
  - rewrite join_single. exact P.
  - rewrite join_cons. repeat apply printable_app; assumption.
Qed.

(** Whatever its strings hold, a dumped value is printable ASCII. *)
Lemma json_dumps_printable v : printable (json_dumps v).
Proof.
  induction v as [|b|n| |b|s|items IH|members IH] using json_induction.
  - apply printableb_spec. reflexivity.
  - destruct b; apply printableb_spec; reflexivity.
  - apply dumps_number_printable.
  - apply printableb_spec. reflexivity.
  - destruct b; apply printableb_spec; reflexivity.
  - apply encode_basestring_ascii_printable.
  - rewrite json_dumps_array. apply printable_cons; [lia|].
    apply printable_app; [|apply printableb_spec; reflexivity].
    apply join_printable; [apply printableb_spec; reflexivity|].
    apply Forall_map. exact IH.
  - rewrite json_dumps_object. apply printable_cons; [lia|].
    apply printable_app; [|apply printableb_spec; reflexivity].
    apply join_printable; [apply printableb_spec; reflexivity|].
    apply Forall_map. eapply Forall_impl; [|exact IH].
    intros [k x] P. unfold member_text.
    apply printable_app; [apply encode_basestring_ascii_printable|].
    apply printable_app; [apply printableb_spec; reflexivity | exact P].
Qed.

(** X9.  Whatever the strings of an entry hold (line breaks, control
    characters, characters outside ASCII), the record [_log_operation] writes
    for it is one line: printable ASCII only, ended by the one newline, so
    the log stays one record per line for the reader of [get_audit_summary]. *)
Theorem audit_record_is_one_ascii_line e :
  log_line e = record_text e ++ [10]
  /\ printable (record_text e)
  /\ ~ In 10 (record_text e).
Proof.
  split; [reflexivity|].
  assert (P : printable (record_text e)) by apply json_dumps_printable.
  split; [exact P|].
  intros IN. unfold printable in P. rewrite Forall_forall in P.
  specialize (P 10 IN). lia.
Qed.

(* ================================================================== *)
(** * The summary of what the manager recorded *)

Lemma json_loads_log_line e :
  entry_valid e = true ->
  json_loads (strip (log_line e)) = Some (json_reloaded (log_entry_of e)).
Proof.
  intros VALID. unfold log_line, log_entry_of. rewrite strip_object_line.
  apply json_loads_dumps. now apply log_entry_valid.
Qed.

Lemma read_entries_log_lines es :
  forallb entry_valid es = true ->
  read_entries (map log_line es) = map (fun e => json_reloaded (log_entry_of e)) es.
Proof.
  induction es as [|e es IH]; cbn [forallb map read_entries]; [reflexivity|].
  intros V. apply andb_true_iff in V. destruct V as [VE VES].
  rewrite (@json_loads_log_line e VE), IH by exact VES. reflexivity.
Qed.

(** Joining surrogate pairs never turns a string into, or away from, a
    string without surrogates. *)
Lemma combine_eq_low_bounded n : forall s lit,
  (length s <= n)%nat ->
  Forall (fun c => c < 55296) lit ->
  str_eqb (combine_surrogates s) lit = str_eqb s lit.
Proof.
  induction n as [|n IH]; intros s lit LEN LOW.
  - destruct s; [reflexivity | simpl in LEN; lia].
  - destruct s as [|c t]; [reflexivity|].
    destruct t as [|c2 r]; [reflexivity|].
    cbn [length] in LEN.
    destruct (is_high_surrogate c && is_low_surrogate c2) eqn:PAIR.
    + apply andb_true_iff in PAIR. destruct PAIR as [HI LO].
      rewrite (@combine_cons_pair c c2 r HI LO).
      destruct LOW as [|l lit L LOW]; [reflexivity|].
      cbn [str_eqb].
      assert (J : (join_surrogates c c2 =? l) = false).
      { apply N.eqb_neq. unfold join_surrogates.
        generalize (N.lor (N.shiftl (c - 55296) 10) (c2 - 56320)). intros x. lia. }
      assert (C : (c =? l) = false).
      { apply N.eqb_neq. unfold is_high_surrogate in HI.
        apply andb_true_iff in HI. destruct HI as [HI _]. apply N.leb_le in HI. lia. }
      rewrite J, C. reflexivity.
    + rewrite (combine_cons_single c (c2 :: r)) by exact PAIR.
      destruct LOW as [|l lit L LOW]; [reflexivity|].
      cbn [str_eqb]. rewrite IH; [reflexivity | cbn [length]; lia | exact LOW].
Qed.

Lemma combine_eq_low s lit :
  Forall (fun c => c < 55296) lit ->
  str_eqb (combine_surrogates s) lit = str_eqb s lit.
Proof. apply (@combine_eq_low_bounded (length s)). lia. Qed.

Lemma literal_low lit :
  forallb (fun c => c <? 55296) lit = true -> Forall (fun c => c < 55296) lit.
Proof.
  rewrite forallb_forall, Forall_forall. intros H c IN.
  apply N.ltb_lt. now apply H.
Qed.

Lemma reloaded_result e p :
  on_field (str "result") p (json_reloaded (log_entry_of e))
  = inr (p (JStr (combine_surrogates (AuditEntry.result e)))).
Proof. reflexivity. Qed.

Lemma reloaded_level e p :
  on_field (str "permission_level") p (json_reloaded (log_entry_of e))
  = inr (p (JStr (combine_surrogates (AuditEntry.permission_level e)))).
Proof. reflexivity. Qed.

Lemma count_if_cons {A} (p : A -> bool) x l :
  count_if p (x :: l) = ((if p x then 1 else 0) + count_if p l)%Z.
Proof.
  unfold count_if. cbn [filter]. destruct (p x); cbn [length]; lia.
Qed.

Lemma sum_if_reloaded k p q es :
  (forall e, on_field k p (json_reloaded (log_entry_of e)) = inr (q e)) ->
  sum_if (on_field k p) (map (fun e => json_reloaded (log_entry_of e)) es)
  = inr (count_if q es).
Proof.
  intros FIELD. induction es as [|e es IH]; cbn [map sum_if]; [reflexivity|].
  rewrite FIELD, IH, count_if_cons. reflexivity.
Qed.

Lemma recent_window_map {A B} (f : A -> B) limit l :
  recent_window limit (map f l) = map f (recent_window limit l).
Proof.
  unfold recent_window, slice_from. rewrite length_map.
  destruct (_ >? _)%Z; [|reflexivity].
  destruct (_ <? _)%Z; rewrite skipn_map; reflexivity.
Qed.

(** The summary of a log that holds the records of the entries [es]. *)
Lemma summary_of_log_lines es limit :
  forallb entry_valid es = true ->
  get_audit_summary (inr (map log_line es)) limit = Stats (stats_of limit es).
Proof.
  intros VALID. unfold get_audit_summary.
  rewrite (@read_entries_log_lines es VALID).
  change (if (Z.of_nat (length (map (fun e => json_reloaded (log_entry_of e)) es))
              >? limit)%Z
          then slice_from (- limit) (map (fun e => json_reloaded (log_entry_of e)) es)
          else map (fun e => json_reloaded (log_entry_of e)) es)
    with (recent_window limit (map (fun e => json_reloaded (log_entry_of e)) es)).
  rewrite recent_window_map.
  rewrite (@sum_if_reloaded (str "result") _ entry_succeeded).
  2:{ intros e. rewrite reloaded_result. unfold json_eq_str, entry_succeeded.
      rewrite combine_eq_low by (apply literal_low; reflexivity). reflexivity. }
  rewrite (@sum_if_reloaded (str "result") _ (fun e => negb (entry_succeeded e))).
  2:{ intros e. rewrite reloaded_result. unfold json_eq_str, entry_succeeded.
      rewrite combine_eq_low by (apply literal_low; reflexivity). reflexivity. }
  rewrite (@sum_if_reloaded (str "permission_level") _ entry_elevated).
  2:{ intros e. rewrite reloaded_level. unfold json_eq_str, entry_elevated.
      rewrite !combine_eq_low by (apply literal_low; reflexivity). reflexivity. }
  unfold stats_of. rewrite length_map. reflexivity.
Qed.

(** Reading back a file of printable texts, one per line, gives each text
    with its newline. *)
Lemma universal_newlines_plain s :
  Forall (fun c => c <> 13) s -> universal_newlines s = s.
Proof.
  induction 1 as [|c r C R IH]; cbn [universal_newlines]; [reflexivity|].
  destruct (c =? 13) eqn:E; [apply N.eqb_eq in E; contradiction|].
  rewrite IH. reflexivity.
Qed.

Lemma lines_of_line text rest :
  Forall (fun c => c <> 10) text ->
  lines_of (text ++ 10 :: rest) = (text ++ [10]) :: lines_of rest.
Proof.
  induction 1 as [|c r C R IH]; cbn [lines_of app]; [reflexivity|].
  destruct (c =? 10) eqn:E; [apply N.eqb_eq in E; contradiction|].
  rewrite IH. reflexivity.
Qed.

Lemma printable_no_newline s :
  printable s -> Forall (fun c => c <> 10) s /\ Forall (fun c => c <> 13) s.
Proof.
  unfold printable. intros P. split; eapply Forall_impl; try exact P;
    cbv beta; intros c B E; subst c; lia.
Qed.

Lemma lines_of_printable_texts texts :
  Forall printable texts ->
  lines_of (universal_newlines (concat (map (fun text => text ++ [10]) texts)))
  = map (fun text => text ++ [10]) texts.
Proof.
  intros P. rewrite universal_newlines_plain.
  - induction P as [|text texts PT PS IH]; cbn [map concat lines_of]; [reflexivity|].
    rewrite <- List.app_assoc. cbn [app].
    rewrite lines_of_line by (apply printable_no_newline; exact PT).
    rewrite IH. reflexivity.
  - induction P as [|text texts PT PS IH]; cbn [map concat]; [constructor|].
    apply Forall_app. split; [|exact IH].
    apply Forall_app. split; [apply printable_no_newline; exact PT|].
    constructor; [discriminate | constructor].
Qed.

Lemma file_lines_of_records st :
  log_file st = concat (map log_line (session_operations st)) ->
  file_lines st = map log_line (session_operations st).
Proof.
  intros MIRROR. unfold file_lines. rewrite MIRROR.
  assert (LINES : map log_line (session_operations st)
                  = map (fun text => text ++ [10])
                      (map record_text (session_operations st)))
    by (rewrite map_map; reflexivity).
  rewrite LINES. apply lines_of_printable_texts.
  apply Forall_forall. intros text IN. apply in_map_iff in IN.
  destruct IN as (e & <- & _). apply json_dumps_printable.
Qed.

(** X10.  On a manager whose log file holds exactly the records of its
    session history, one line for each, [get_audit_summary] returns
    statistics, and they are the counts of the history itself: over its last
    [limit] entries, the number of entries, of those whose result is
    [success], of the others, and of those at the elevated or administrative
    level. *)
Theorem summary_agrees_with_session_history st limit :
  log_file st = concat (map log_line (session_operations st)) ->
  forallb entry_valid (session_operations st) = true ->
  get_audit_summary (inr (file_lines st)) limit
  = Stats (stats_of limit (session_operations st)).
Proof.
  intros MIRROR VALID. rewrite (@file_lines_of_records st MIRROR).
  now apply summary_of_log_lines.
Qed.

Lemma summary_agrees_with_session_history_witness :
  reported_total
    (get_audit_summary
       (inr (file_lines
               (snd (run_calls [(os_answers exits_zero None, chmod_operation);
                                (os_answers exits_one None, chmod_operation)]
                       (embedded_manager [str "y"; str "yes"]))))) 50)
  = Some 2%Z.
Proof.
  rewrite summary_agrees_with_session_history.
  - vm_compute. reflexivity.
  - vm_compute. reflexivity.
  - vm_compute. reflexivity.
Defined.

(** Where the file handler of the logger is on the log file, its records
    are lines of the file among the audit records; the summary takes them
    for corrupt lines and counts the audit records alone. *)
Example summary_skips_logger_records :
  length (file_lines
            (snd (run_calls [(os_answers exits_zero None, chmod_operation);
                             (os_answers exits_one None, chmod_operation)]
                    (fresh_manager [str "y"; str "yes"])))) = 6%nat
  /\ reported_total
       (get_audit_summary
          (inr (file_lines
                  (snd (run_calls [(os_answers exits_zero None, chmod_operation);
                                   (os_answers exits_one None, chmod_operation)]
                          (fresh_manager [str "y"; str "yes"]))))) 50)
     = Some 2%Z.
Proof. split; vm_compute; reflexivity. Qed.

(* ================================================================== *)
(** * The log file and the session history *)

Lemma execute_log_step os operation st :
  log_file (snd (execute_with_escalation os operation st))
  = log_file st
    ++ call_records (handlers st) (current_user st) (os, operation)
         (fst (execute_with_escalation os operation st))
  /\ handlers (snd (execute_with_escalation os operation st)) = handlers st.
Proof.
  unfold call_records.
  destruct (fst (execute_with_escalation os operation st)) as [[r m]|e] eqn:RUN.
  - destruct (execute_returns_effect _ _ _ RUN) as (_ & _ & L & H & _).
    split; [exact L | exact H].
  - destruct (execute_raises _ _ _ RUN) as (_ & (_ & _ & _ & L & (_ & H & _) & _)).
    destruct (at_gate_frame os operation st) as (_ & _ & _ & LG & (_ & _ & HG & _) & _).
    rewrite L, LG, H, HG, List.app_nil_r. split; reflexivity.
Qed.

Lemma run_calls_log calls : forall st,
  log_file (snd (run_calls calls st))
  = log_file st
    ++ run_records (handlers st) (current_user st) calls (fst (run_calls calls st))
  /\ handlers (snd (run_calls calls st)) = handlers st.
Proof.
  induction calls as [|[os operation] calls IH]; intros st; simpl.
  - rewrite List.app_nil_r. split; reflexivity.
  - destruct (execute_log_step os operation st) as (L1 & H1).
    destruct (execute_session_step os operation st) as (U1 & _).
    destruct (execute_with_escalation os operation st) as [out st1]; cbn [fst snd] in *.
    destruct (IH st1) as (L2 & H2).
    destruct (run_calls calls st1) as [outs st2]; cbn [fst snd] in *.
    rewrite L2, H2, L1, H1, U1, <- List.app_assoc. split; reflexivity.
Qed.

(** Without the file handler, and with no write failing, the records of a
    run are the records of the entries of its completed calls. *)
Lemma run_records_plain h user calls : forall outs,
  file_handler h = false ->
  Forall (fun call => write_raises (fst call) = None) calls ->
  run_records h user calls outs
  = concat (map log_line (completed_entries user calls outs)).
Proof.
  intros outs OFF W. revert outs.
  induction W as [|[os operation] calls W1 WS IH]; intros outs; [reflexivity|].
  cbn [fst] in W1.
  destruct outs as [|out outs]; cbn [run_records completed_entries]; [reflexivity|].
  unfold call_records, attempt_records, file_record. cbn [fst snd]. rewrite OFF, W1.
  cbn [app]. rewrite IH.
  destruct out as [[r m]|e]; reflexivity.
Qed.

(** X11.  What a sequence of calls adds to the log file: for each call the
    two INFO records of the logger, as far as its file handler wrote them,
    and then, when the call completed, its audit record, or, where the write
    of the audit record failed, what that write left of it and the ERROR
    record of the logger.  So on a manager whose logger has no file handler,
    and as long as no write fails, the file and the session history stay in
    step: if the file holds the records of the history before the calls, it
    holds the records of the history after them, one line per entry, in the
    same order. *)
Theorem log_file_after_calls calls st :
  log_file (snd (run_calls calls st))
  = log_file st
    ++ run_records (handlers st) (current_user st) calls (fst (run_calls calls st))
  /\ (file_handler (handlers st) = false ->
      Forall (fun call => write_raises (fst call) = None) calls ->
      log_file st = concat (map log_line (session_operations st)) ->
      log_file (snd (run_calls calls st))
      = concat (map log_line (session_operations (snd (run_calls calls st))))).
Proof.
  destruct (run_calls_log calls st) as (L & _). split; [exact L|].
  intros OFF W MIRROR. rewrite L.
  destruct (run_calls_session calls st) as (_ & ->).
  rewrite MIRROR, map_app, concat_app, (@run_records_plain _ _ _ _ OFF W).
  reflexivity.
Qed.

Lemma log_file_after_calls_witness :
  log_file (snd (run_calls [(os_answers exits_zero None, chmod_operation);
                            (os_answers times_out None, chmod_operation)]
                   (embedded_manager [str "y"; str "n"])))
  = concat
      (map log_line
         (session_operations
            (snd (run_calls [(os_answers exits_zero None, chmod_operation);
                             (os_answers times_out None, chmod_operation)]
                    (embedded_manager [str "y"; str "n"]))))).
Proof.
  apply (proj2 (log_file_after_calls
                  [(os_answers exits_zero None, chmod_operation);
                   (os_answers times_out None, chmod_operation)]
                  (embedded_manager [str "y"; str "n"]))).
  - reflexivity.
  - repeat constructor.
  - reflexivity.
Defined.

(* ================================================================== *)
(** * The operations built on the orchestrator *)

Lemma entry_succeeded_audit os operation user r m :
  entry_succeeded (audit_entry_of os operation user r m) = is_success r.
Proof. destruct r; reflexivity. Qed.

Lemma execute_run os operation st r m st1 :
  execute_with_escalation os operation st = (Ret (r, m), st1) ->
  session_operations st1
  = session_operations st ++ [audit_entry_of os operation (current_user st) r m]
  /\ current_user st1 = current_user st.
Proof.
  intros RUN. destruct (execute_session_step os operation st) as (U & S).
  rewrite RUN in U, S. cbn [fst snd] in U, S. split; assumption.
Qed.

(** X12.  [install_package] reaches the orchestrator, and so the audit
    trail, only for the package managers [pip] and [conda]: there a returning
    call has recorded exactly one entry, at the elevated level, with the
    result it returned.  Any other package manager is refused with
    OPERATION_FAILED and leaves the manager as it was: no prompt, no process
    and no audit record of the refusal. *)
Theorem install_package_records_supported_managers os package_name package_manager st r m :
  fst (install_package os package_name package_manager st) = Ret (r, m) ->
  (In package_manager [str "pip"; str "conda"]
   /\ exists entry,
        session_operations (snd (install_package os package_name package_manager st))
        = session_operations st ++ [entry]
        /\ AuditEntry.result entry = result_value r
        /\ AuditEntry.permission_level entry = str "elevated"
        /\ (AuditEntry.operation entry
            = join (str " ") [str "pip"; str "install"; package_name]
            \/ AuditEntry.operation entry
               = join (str " ") [str "conda"; str "install"; str "-y"; package_name]))
  \/ (~ In package_manager [str "pip"; str "conda"]
      /\ r = OPERATION_FAILED
      /\ m = str "Unsupported package manager: " ++ package_manager
      /\ snd (install_package os package_name package_manager st) = st).
Proof.
  unfold install_package.
  destruct (str_eqb package_manager (str "pip")) eqn:PIP.
  - apply str_eqb_eq in PIP. subst package_manager. intros RUN. left.
    split; [left; reflexivity|].
    destruct (execute_with_escalation _ _ st) as [out st1] eqn:E.
    cbn [fst snd] in *. subst out.
    destruct (@execute_run _ _ _ _ _ _ E) as (S & _).
    eexists. split; [exact S|]. repeat split. left. reflexivity.
  - destruct (str_eqb package_manager (str "conda")) eqn:CONDA.
    + apply str_eqb_eq in CONDA. subst package_manager. intros RUN. left.
      split; [right; left; reflexivity|].
      destruct (execute_with_escalation _ _ st) as [out st1] eqn:E.
      cbn [fst snd] in *. subst out.
      destruct (@execute_run _ _ _ _ _ _ E) as (S & _).
      eexists. split; [exact S|]. repeat split. right. reflexivity.
    + intros RUN. right. cbn [fst snd ret] in *. injection RUN as <- <-.
      repeat split.
      intros [IN|[IN|[]]]; subst package_manager;
        rewrite str_eqb_refl in *; discriminate.
Qed.

Lemma install_package_records_supported_managers_witness :
  snd (install_package (os_answers exits_zero None) (str "left-pad") (str "npm")
         (fresh_manager []))
  = fresh_manager [].
Proof.
  destruct (@install_package_records_supported_managers
              (os_answers exits_zero None) (str "left-pad") (str "npm")
              (fresh_manager []) OPERATION_FAILED
              (str "Unsupported package manager: npm") eq_refl)
    as [(IN & _)|(_ & _ & _ & S)].
  - exfalso. destruct IN as [IN|[IN|[]]]; vm_compute in IN; discriminate.
  - exact S.
Defined.

(** The loop of [manage_file_permissions], by what it adds to the session
    history. *)
Lemma change_each_spec oss file_path commands : forall i st r m,
  fst (change_each oss i file_path commands st) = Ret (r, m) ->
  exists done,
    session_operations (snd (change_each oss i file_path commands st))
    = session_operations st ++ done
    /\ map AuditEntry.operation done
       = map (join (str " ")) (firstn (length done) commands)
    /\ ((r = SUCCESS /\ m = str "Permissions updated successfully"
         /\ length done = length commands
         /\ forallb entry_succeeded done = true)
        \/ (r <> SUCCESS
            /\ exists before last,
                 done = before ++ [last]
                 /\ forallb entry_succeeded before = true
                 /\ AuditEntry.result last = result_value r)).
Proof.
  induction commands as [|cmd rest IH]; intros i st r m.
  - cbn [change_each ret fst snd]. intros H. injection H as <- <-.
    exists []. rewrite List.app_nil_r. split; [reflexivity|]. split; [reflexivity|].
    left. repeat split.
  - cbn [change_each]. unfold bind.
    destruct (execute_with_escalation (oss i) (permissions_operation file_path cmd) st)
      as [[[r1 m1]|e] st1] eqn:RUN; [|discriminate].
    cbv beta iota.
    destruct (@execute_run _ _ _ _ _ _ RUN) as (S1 & _).
    set (entry := audit_entry_of (oss i) (permissions_operation file_path cmd)
                    (current_user st) r1 m1) in *.
    assert (FAILED : r1 <> SUCCESS ->
                     fst (Ret (A := OperationResult * pystr) (r1, m1), st1) = Ret (r, m) ->
                     exists done,
                       session_operations st1 = session_operations st ++ done
                       /\ map AuditEntry.operation done
                          = map (join (str " ")) (firstn (length done) (cmd :: rest))
                       /\ ((r = SUCCESS /\ m = str "Permissions updated successfully"
                            /\ length done = length (cmd :: rest)
                            /\ forallb entry_succeeded done = true)
                           \/ (r <> SUCCESS
                               /\ exists before last,
                                    done = before ++ [last]
                                    /\ forallb entry_succeeded before = true
                                    /\ AuditEntry.result last = result_value r))).
    { intros NOT H. cbn [fst] in H. injection H as <- <-.
      exists [entry]. split; [exact S1|]. split; [reflexivity|].
      right. split; [exact NOT|]. exists [], entry. repeat split. }
    destruct r1; try (apply FAILED; discriminate).
    clear FAILED. intros H.
    destruct (IH (S i) st1 r m H) as (done & S2 & OPS & CASES).
    exists (entry :: done). split; [|split].
    + rewrite S2, S1, <- List.app_assoc. reflexivity.
    + cbn [length firstn map]. rewrite OPS. reflexivity.
    + destruct CASES as [(-> & -> & LEN & ALL)|(NOT & before & last & -> & ALL & LAST)].
      * left. cbn [length forallb]. rewrite LEN, ALL. repeat split.
      * right. split; [exact NOT|]. exists (entry :: before), last.
        cbn [forallb]. rewrite ALL. repeat split; assumption.
Qed.

(** X13.  [manage_file_permissions] runs its commands in order, [chmod] then
    [chown], and stops at the first one that does not succeed: when it
    returns SUCCESS every command was run and recorded as a success and the
    message is the fixed [Permissions updated successfully] (with nothing to
    do, that is returned at once); otherwise the entries recorded are the
    successes before the failing command and then the failing one, whose
    result is returned, and the commands after it were never attempted. *)
Theorem permissions_stop_at_first_failure oss file_path permissions owner st r m :
  fst (manage_file_permissions oss file_path permissions owner st) = Ret (r, m) ->
  exists done,
    session_operations (snd (manage_file_permissions oss file_path permissions owner st))
    = session_operations st ++ done
    /\ map AuditEntry.operation done
       = map (join (str " "))
           (firstn (length done) (permission_commands file_path permissions owner))
    /\ ((r = SUCCESS /\ m = str "Permissions updated successfully"
         /\ length done = length (permission_commands file_path permissions owner)
         /\ forallb entry_succeeded done = true)
        \/ (r <> SUCCESS
            /\ exists before last,
                 done = before ++ [last]
                 /\ forallb entry_succeeded before = true
                 /\ AuditEntry.result last = result_value r)).
Proof. apply change_each_spec. Qed.

Lemma permissions_stop_at_first_failure_witness :
  exists done,
    session_operations
      (snd (manage_file_permissions (fun _ => os_answers exits_one None)
              (str "/srv/app") (str "755") (Some (str "app:app"))
              (fresh_manager [str "y"; str "y"])))
    = done
    /\ map AuditEntry.operation done = [str "chmod 755 /srv/app"].
Proof.
  destruct (@permissions_stop_at_first_failure (fun _ => os_answers exits_one None)
              (str "/srv/app") (str "755") (Some (str "app:app"))
              (fresh_manager [str "y"; str "y"])
              OPERATION_FAILED (str "Command failed with return code 1: denied")
              eq_refl)
    as (done & S & OPS & _).
  exists done. split; [exact S|].
  assert (L : length done = 1%nat).
  { apply (f_equal (@length _)) in S. vm_compute in S. symmetry. exact S. }
  rewrite OPS, L. vm_compute. reflexivity.
Defined.

(** X14.  [execute_script] reaches the orchestrator only for a script it can
    read: there a returning call has recorded exactly one entry, with the
    result it returned and the level the classifier gives the command line
    (interpreter, script, arguments).  A script that cannot be read is
    refused with PERMISSION_DENIED and leaves the manager as it was: nothing
    is run and the refusal is not in the audit trail. *)
Theorem execute_script_records_readable_scripts os access script_path arguments
    interpreter st r m :
  fst (execute_script os access script_path arguments interpreter st) = Ret (r, m) ->
  (access = inr true
   /\ exists entry,
        session_operations
          (snd (execute_script os access script_path arguments interpreter st))
        = session_operations st ++ [entry]
        /\ AuditEntry.result entry = result_value r
        /\ AuditEntry.operation entry
           = join (str " ")
               ([interpreter; script_path]
                ++ match arguments with Some args => args | None => [] end)
        /\ AuditEntry.permission_level entry
           = level_value
               (analyze_command_permissions
                  ([interpreter; script_path]
                   ++ match arguments with Some args => args | None => [] end)))
  \/ (access = inr false
      /\ r = PERMISSION_DENIED
      /\ m = str "Cannot read script file: " ++ script_path
      /\ snd (execute_script os access script_path arguments interpreter st) = st).
Proof.
  unfold execute_script. destruct access as [e|[|]]; [discriminate| |].
  - intros RUN. left. split; [reflexivity|].
    destruct (execute_with_escalation _ _ st) as [out st1] eqn:E.
    cbn [fst snd] in *. subst out.
    destruct (@execute_run _ _ _ _ _ _ E) as (S & _).
    eexists. split; [exact S|]. repeat split.
  - intros RUN. right. cbn [fst snd ret] in *. injection RUN as <- <-.
    repeat split.
Qed.

Lemma execute_script_records_readable_scripts_witness :
  snd (execute_script (os_answers exits_zero None) (inr false) (str "/root/run.py")
         None (str "python3") (fresh_manager []))
  = fresh_manager [].
Proof.
  destruct (@execute_script_records_readable_scripts
              (os_answers exits_zero None) (inr false) (str "/root/run.py") None
              (str "python3") (fresh_manager []) PERMISSION_DENIED
              (str "Cannot read script file: /root/run.py") eq_refl)
    as [(A & _)|(_ & _ & _ & S)].
  - discriminate.
  - exact S.
Defined.




(* ================================================================== *)
(** * The convenience operations *)

Lemma process_outcome_success os operation :
  fst (process_outcome os operation) = SUCCESS -> exited_zero os.
Proof.
  unfold process_outcome, handled, exited_zero.
  destruct (popen_raises os) as [e|].
  - destruct (exn_cls e); discriminate.
  - destruct (communicate_result os) as [e|[[out err] rc]].
    + destruct (exn_cls e); discriminate.
    + destruct (rc =? 0)%Z eqn:RC; [|discriminate].
      apply Z.eqb_eq in RC. subst rc. intros _. split; [reflexivity | eauto].
Qed.

Lemma execute_success os operation st m :
  fst (execute_with_escalation os operation st) = Ret (SUCCESS, m) -> exited_zero os.
Proof.
  intros RUN. destruct (execute_returns _ _ _ RUN) as (st2 & evs & _ & _ & CASES).
  destruct CASES as [(C & _)|(P & _)].
  - discriminate.
  - apply (@process_outcome_success os operation). rewrite <- P. reflexivity.
Qed.

Lemma is_success_true r : is_success r = true -> r = SUCCESS.
Proof. destruct r; try discriminate; reflexivity. Qed.

(** A [print] that does not raise has shown its text and done nothing
    else. *)
Lemma print_returns {A} text (k : M A) st a :
  fst ((print text ;; k) st) = Ret a ->
  (print text ;; k) st = k (add_events st [EvPrint text]).
Proof.
  unfold bind at 1 2. unfold print, bind, get, emit, raise. cbv beta iota.
  destruct (stdout_write st text); [discriminate | reflexivity].
Qed.

(** X16.  [install_system_package] answers [True] only when a process was
    spawned for the installation and exited with the code 0.  Its answer is
    whether the outcome of [install_package] with [pip] is SUCCESS, and the
    last thing it does is to print [Package installation: ] followed by the
    message of that outcome. *)
Theorem install_system_package_true_means_exit_zero os package_name st b :
  fst (PythonPrivileges.install_system_package os package_name st) = Ret b ->
  exists r m st1,
    install_package os package_name (str "pip") st = (Ret (r, m), st1)
    /\ b = is_success r
    /\ snd (PythonPrivileges.install_system_package os package_name st)
       = add_events st1 [EvPrint (str "Package installation: " ++ m)]
    /\ (b = true -> exited_zero os).
Proof.
  assert (STEP : PythonPrivileges.install_system_package os package_name st
                 = match install_package os package_name (str "pip") st with
                   | (Ret (r, m), st1) =>
                       (print (str "Package installation: " ++ m) ;;
                        ret (is_success r)) st1
                   | (Raise e, st1) => (Raise e, st1)
                   end).
  { unfold PythonPrivileges.install_system_package. unfold bind at 1.
    destruct (install_package os package_name (str "pip") st) as [[[r m]|e] st1];
      reflexivity. }
  rewrite STEP.
  destruct (install_package os package_name (str "pip") st) as [[[r m]|e] st1] eqn:RUN;
    [|discriminate].
  intros H. rewrite (print_returns _ _ _ H) in H |- *.
  unfold ret in H |- *. cbn [fst snd] in H |- *. injection H as <-.
  exists r, m, st1. do 3 (split; [reflexivity|]).
  intros OK. apply is_success_true in OK. subst r.
  unfold install_package in RUN. rewrite str_eqb_refl in RUN.
  eapply execute_success. rewrite RUN. reflexivity.
Qed.

Lemma install_system_package_true_means_exit_zero_witness :
  exited_zero (os_answers exits_zero None)
  /\ exists st1,
       snd (PythonPrivileges.install_system_package (os_answers exits_zero None)
              (str "requests") (fresh_manager [str "y"]))
       = add_events st1 [EvPrint (str "Package installation: ok")].
Proof.
  destruct (@install_system_package_true_means_exit_zero
              (os_answers exits_zero None) (str "requests")
              (fresh_manager [str "y"]) true eq_refl)
    as (r & m & st1 & RUN & _ & S & Z).
  split; [exact (Z eq_refl)|].
  exists st1. rewrite S.
  vm_compute in RUN. injection RUN as _ <- _. reflexivity.
Defined.

(** X17.  [setup_development_environment] answers [True] only when the
    requirements file exists and the process spawned for it exited with the
    code 0.  When the file does not exist it answers [False] having only
    printed that: nothing is run, nothing is asked and nothing is recorded. *)
Theorem setup_environment_true_means_exit_zero os file_exists requirements_file st b :
  fst (PythonPrivileges.setup_development_environment os file_exists
         requirements_file st) = Ret b ->
  (b = true -> file_exists = true /\ exited_zero os)
  /\ (file_exists = false ->
      b = false
      /\ snd (PythonPrivileges.setup_development_environment os file_exists
                requirements_file st)
         = add_events st
             [EvPrint (str "Requirements file not found: " ++ requirements_file)]).
Proof.
  unfold PythonPrivileges.setup_development_environment.
  destruct file_exists; cbn [negb].
  - unfold bind at 1.
    destruct (execute_with_escalation _ _ st) as [[[r m]|e] st1] eqn:RUN;
      [|discriminate].
    intros H. rewrite (print_returns _ _ _ H) in H.
    unfold ret in H. cbn [fst] in H. injection H as <-.
    split; [|discriminate].
    intros OK. apply is_success_true in OK. subst r. split; [reflexivity|].
    eapply execute_success. rewrite RUN. reflexivity.
  - intros H. rewrite (print_returns _ _ _ H) in H |- *.
    unfold ret in H |- *. cbn [fst snd] in H |- *. injection H as <-.
    split; [discriminate|]. intros _. split; reflexivity.
Qed.

Lemma setup_environment_true_means_exit_zero_witness :
  snd (PythonPrivileges.setup_development_environment (os_answers exits_zero None)
         false (str "requirements.txt") (fresh_manager []))
  = add_events (fresh_manager [])
      [EvPrint (str "Requirements file not found: requirements.txt")].
Proof.
  exact (proj2 (proj2 (@setup_environment_true_means_exit_zero
                         (os_answers exits_zero None) false (str "requirements.txt")
                         (fresh_manager []) false eq_refl) eq_refl)).
Defined.

Lemma print_observed text st :
  popen_calls (trace (snd (print text st))) = popen_calls (trace st)
  /\ session_operations (snd (print text st)) = session_operations st.
Proof.
  unfold print, bind, get, emit, raise. cbv beta iota.
  destruct (stdout_write st text); cbn [snd trace session_operations];
    [split; reflexivity|].
  rewrite popen_calls_app. cbn [popen_calls]. rewrite List.app_nil_r.
  split; reflexivity.
Qed.

(** X18.  [create_system_service] answers by the copy of the unit file
    alone.  When the copy did not succeed it runs nothing more.  When it
    succeeded, [systemctl daemon-reload] and [systemctl enable] are both
    attempted and recorded, but their outcomes are dropped: the call answers
    [True] even if both of them failed or were declined. *)
Theorem service_creation_reports_the_copy_only oss env write_temp unlink_raises
    service_name script_path st b :
  fst (PythonPrivileges.create_system_service oss env write_temp unlink_raises
         service_name script_path st) = Ret b ->
  exists temp_file r m st1,
    write_temp (PythonPrivileges.service_content env script_path) = inr temp_file
    /\ execute_with_escalation (oss O)
         (PythonPrivileges.copy_operation temp_file service_name) st
       = (Ret (r, m), st1)
    /\ b = is_success r
    /\ (b = false ->
        popen_calls
          (trace (snd (PythonPrivileges.create_system_service oss env write_temp
                         unlink_raises service_name script_path st)))
        = popen_calls (trace st1)
        /\ session_operations
             (snd (PythonPrivileges.create_system_service oss env write_temp
                     unlink_raises service_name script_path st))
           = session_operations st1)
    /\ (b = true ->
        exists reload enable,
          session_operations
            (snd (PythonPrivileges.create_system_service oss env write_temp
                    unlink_raises service_name script_path st))
          = session_operations st1 ++ [reload; enable]
          /\ AuditEntry.operation reload = str "systemctl daemon-reload"
          /\ AuditEntry.operation enable
             = join (str " ") [str "systemctl"; str "enable"; service_name]
          /\ (AuditEntry.result reload
              = result_value
                  (fst (process_outcome (oss 1%nat)
                          (PythonPrivileges.setup_operation service_name
                             [str "systemctl"; str "daemon-reload"])))
              \/ AuditEntry.result reload = str "user_cancelled")).
Proof.
  unfold PythonPrivileges.create_system_service.
  destruct (write_temp (PythonPrivileges.service_content env script_path))
    as [e|temp_file] eqn:TEMP; [discriminate|].
  unfold bind, ret.
  destruct (execute_with_escalation (oss O)
              (PythonPrivileges.copy_operation temp_file service_name) st)
    as [[[r m]|e] st1] eqn:COPY; [|discriminate].
  cbv beta iota.
  destruct unlink_raises as [e|]; [discriminate|].
  cbv beta iota.
  destruct (print_observed (str "Service creation: " ++ m) st1) as (PP1 & SP1).
  destruct (is_success r) eqn:OK.
  - destruct (execute_with_escalation (oss 1%nat) _ st1) as [[[r1 m1]|e] st2] eqn:RELOAD;
      [|discriminate].
    cbv beta iota.
    destruct (execute_with_escalation (oss 2%nat) _ st2) as [[[r2 m2]|e] st3] eqn:ENABLE;
      [|discriminate].
    cbv beta iota.
    destruct (print_observed (str "Service creation: " ++ m) st3) as (_ & SP3).
    destruct (print (str "Service creation: " ++ m) st3) as [[[]|e] st4] eqn:PRINT;
      [|discriminate].
    cbn [fst snd] in *. intros H. injection H as <-.
    exists temp_file, r, m, st1.
    split; [reflexivity|]. split; [exact COPY|]. split; [now rewrite OK|].
    split; [discriminate|]. intros _.
    destruct (@execute_run _ _ _ _ _ _ RELOAD) as (S2 & U2).
    destruct (@execute_run _ _ _ _ _ _ ENABLE) as (S3 & _).
    do 2 eexists. split.
    + rewrite SP3, S3, S2, <- List.app_assoc. reflexivity.
    + split; [reflexivity|]. split; [reflexivity|].
      assert (RUN : fst (execute_with_escalation (oss 1%nat)
                           (PythonPrivileges.setup_operation service_name
                              [str "systemctl"; str "daemon-reload"]) st1)
                    = Ret (r1, m1)) by (rewrite RELOAD; reflexivity).
      destruct (execute_returns _ _ _ RUN) as (? & ? & _ & _ & CASES).
      destruct CASES as [(C & _)|(P & _)].
      * right. injection C as -> _. reflexivity.
      * left. cbn [AuditEntry.result audit_entry_of]. rewrite <- P. reflexivity.
  - destruct (print (str "Service creation: " ++ m) st1) as [[[]|e] st4] eqn:PRINT;
      [|discriminate].
    cbn [fst snd] in *. intros H. injection H as <-.
    exists temp_file, r, m, st1.
    split; [reflexivity|]. split; [exact COPY|]. split; [now rewrite OK|].
    split; [intros _; split; assumption | discriminate].
Qed.

Lemma service_creation_reports_the_copy_only_witness :
  exists r m st1,
    execute_with_escalation (only_first_exits_zero O)
      (PythonPrivileges.copy_operation (str "/tmp/tmpunit") (str "agent"))
      (fresh_manager [str "y"; str "y"; str "n"])
    = (Ret (r, m), st1)
    /\ true = is_success r.
Proof.
  destruct (@service_creation_reports_the_copy_only only_first_exits_zero
              [(str "USER", str "alice")] (fun _ => inr (str "/tmp/tmpunit")) None
              (str "agent") (str "/srv/agent/run.py")
              (fresh_manager [str "y"; str "y"; str "n"]) true eq_refl)
    as (temp_file & r & m & st1 & T & C & B & _).
  injection T as <-. exists r, m, st1. split; assumption.
Defined.

(** The service is reported as created although [daemon-reload] failed and
    [enable] was declined. *)
Example service_reported_created_without_enable :
  fst (PythonPrivileges.create_system_service only_first_exits_zero
         [(str "USER", str "alice")] (fun _ => inr (str "/tmp/tmpunit")) None
         (str "agent") (str "/srv/agent/run.py")
         (fresh_manager [str "y"; str "y"; str "n"]))
  = Ret true
  /\ map AuditEntry.result
       (session_operations
          (snd (PythonPrivileges.create_system_service only_first_exits_zero
                  [(str "USER", str "alice")] (fun _ => inr (str "/tmp/tmpunit")) None
                  (str "agent") (str "/srv/agent/run.py")
                  (fresh_manager [str "y"; str "y"; str "n"]))))
     = [str "success"; str "operation_failed"; str "user_cancelled"].
Proof. split; vm_compute; reflexivity. Qed.

(* ================================================================== *)
(** * The classifier and longer command lines *)

(** X19.  Arguments added at the end of a command line never lower the
    level [analyze_command_permissions] gives it, in the order BASIC below
    ELEVATED below ADMINISTRATIVE: the command word decides first, and a
    further argument can only add a privileged path. *)
Theorem more_arguments_never_lower_the_level argv more :
  (level_rank (analyze_command_permissions argv)
   <= level_rank (analyze_command_permissions (argv ++ more)))%nat.
Proof.
  destruct argv as [|first rest]; [cbn [analyze_command_permissions level_rank]; lia|].
  cbn [app]. unfold analyze_command_permissions.
  destruct (str_in (lower first) admin_commands); [lia|].
  destruct (str_in (lower first) elevated_commands); [lia|].
  change (first :: rest ++ more) with ((first :: rest) ++ more).
  rewrite existsb_app.
  destruct (existsb _ (first :: rest)); cbn [orb level_rank]; [lia|].
  destruct (existsb _ more); cbn [level_rank]; lia.
Qed.

(* ================================================================== *)
(** * What the user is shown and what the audit names *)

Lemma console_trace_grows {A} (m : M A) st :
  console_action m -> exists evs, trace (snd (m st)) = trace st ++ evs.
Proof.
  intros C. destruct (C st) as [(_ & _ & _ & _ & _ & evs & T & _) _]. eauto.
Qed.

(** A computation that starts by asking has asked first in its trace, or
    has asked nothing and left the trace alone, where standard output
    refused the question. *)
Lemma bind_input_asks_first {A} (k : pystr -> M A) st :
  (forall line, console_action (k line)) ->
  (stdout_write st proceed_prompt <> None
   /\ trace (snd ((line <- input proceed_prompt ;; k line) st)) = trace st)
  \/ (stdout_write st proceed_prompt = None
      /\ exists rest,
           trace (snd ((line <- input proceed_prompt ;; k line) st))
           = trace st ++ EvInput proceed_prompt :: rest).
Proof.
  intros K.
  assert (STEP : (line <- input proceed_prompt ;; k line) st
                 = match input proceed_prompt st with
                   | (Ret line, st1) => k line st1
                   | (Raise e, st1) => (Raise e, st1)
                   end) by reflexivity.
  rewrite STEP.
  destruct (stdout_write st proceed_prompt) as [e|] eqn:W.
  - left. split; [discriminate|]. rewrite (@input_refused _ _ _ W). reflexivity.
  - right. split; [reflexivity|].
    destruct (stdin st) as [|line lines] eqn:IN.
    + destruct (@input_at_end _ _ W IN) as (e & st' & -> & _ & _ & T).
      exists []. exact T.
    + destruct (@input_line _ _ _ _ W IN) as (st1 & -> & _ & _ & T).
      destruct (console_trace_grows st1 (K line)) as (evs & T2).
      exists evs. rewrite T2, T, <- List.app_assoc. reflexivity.
Qed.

Lemma prompt_loop_asks_first pending st :
  (stdout_write st proceed_prompt <> None
   /\ trace (snd (prompt_loop pending st)) = trace st)
  \/ (stdout_write st proceed_prompt = None
      /\ exists rest,
           trace (snd (prompt_loop pending st))
           = trace st ++ EvInput proceed_prompt :: rest).
Proof.
  destruct pending as [|p pending]; cbn [prompt_loop];
    apply bind_input_asks_first; intros line;
    do 2 (match goal with
          | |- console_action (if ?c then _ else _) => destruct c; [apply console_ret|]
          end);
    (apply console_bind; [apply console_print | intros _]).
  - apply console_bind; [apply console_input | intros _; apply console_ret].
  - apply console_prompt_loop.
Qed.

(** The trace of the gate: the lines of its banner as far as standard
    output took them, and after the whole banner the question, if standard
    output took that too. *)
Lemma gate_trace operation st :
  requires_user_approval operation = true ->
  exists shown tail,
    trace (snd (request_permission operation st)) = trace st ++ map EvPrint shown ++ tail
    /\ (tail = []
        \/ shown = gate_banner operation
           /\ exists rest, tail = EvInput proceed_prompt :: rest)
    /\ (stdout_takes st (gate_banner operation ++ [proceed_prompt]) ->
        shown = gate_banner operation
        /\ exists rest, tail = EvInput proceed_prompt :: rest).
Proof.
  intros APPROVAL. rewrite (@request_permission_banner _ APPROVAL).
  assert (NEXT : forall s, (pending <- get stdin ;; prompt_loop (tl pending)) s
                           = prompt_loop (tl (stdin s)) s) by reflexivity.
  destruct (prints_upto (gate_banner operation)
              (pending <- get stdin ;; prompt_loop (tl pending)) st)
    as [(TAKES & ->)|(shown & text & more & e & BANNER & TAKES & REFUSED & ->)].
  - rewrite NEXT.
    destruct (prompt_loop_asks_first
                (tl (stdin (add_events st (map EvPrint (gate_banner operation)))))
                (add_events st (map EvPrint (gate_banner operation))))
      as [(W & T)|(W & rest & T)]; cbn [add_events stdout_write trace] in W, T.
    + exists (gate_banner operation), []. rewrite T, List.app_nil_r.
      split; [reflexivity|].
      split; [left; reflexivity|].
      intros ALL. exfalso. apply W. apply ALL. apply in_or_app. right. left. reflexivity.
    + exists (gate_banner operation), (EvInput proceed_prompt :: rest).
      rewrite T, <- List.app_assoc. split; [reflexivity|].
      split; [right|]; split; eauto.
  - exists shown, []. cbn [snd add_events trace]. rewrite List.app_nil_r.
    split; [reflexivity|].
    split; [left; reflexivity|].
    intros ALL. exfalso.
    assert (IN : In text (gate_banner operation ++ [proceed_prompt])).
    { rewrite BANNER. apply in_or_app. left. apply in_or_app. right. left. reflexivity. }
    rewrite (ALL text IN) in REFUSED. discriminate.
Qed.

(** Where a run of [print]s was followed by a question, the events before
    the first question are that run. *)
Lemma first_input_after_prints texts : forall tail before prompt rest,
  map EvPrint texts ++ tail = before ++ EvInput prompt :: rest ->
  input_count before = O ->
  tail <> []
  /\ (forall asked more, tail = EvInput asked :: more ->
      before = map EvPrint texts /\ prompt = asked).
Proof.
  induction texts as [|text texts IH]; intros tail before prompt rest EQ NONE;
    cbn [map app] in EQ.
  - split.
    + intros ->. destruct before; discriminate.
    + intros asked more ->. destruct before as [|b before].
      * injection EQ as -> _. split; reflexivity.
      * injection EQ as <- _. discriminate.
  - destruct before as [|b before]; [discriminate|].
    injection EQ as <- EQ. cbn [input_count] in NONE.
    destruct (IH _ _ _ _ EQ NONE) as (FULL & FIRST).
    split; [exact FULL|].
    intros asked more TAIL. destruct (FIRST asked more TAIL) as (-> & ->).
    split; reflexivity.
Qed.

Lemma gate_banner_shape operation :
  exists warning,
    map EvPrint (gate_banner operation)
    = [EvPrint (10 :: 128274 :: str " Privileged Operation Required");
       EvPrint (str "Description: " ++ description operation);
       EvPrint (str "Command: " ++ join (str " ") (command operation));
       EvPrint (str "Permission Level: " ++ level_value (permission_level operation))]
      ++ warning
    /\ (length warning <= 1)%nat
    /\ input_count warning = O.
Proof.
  unfold gate_banner.
  destruct (permission_level operation); cbn [map app];
    eexists; (split; [reflexivity|]); cbn [length input_count]; split; lia.
Qed.

(** X20.  Before [request_permission] reads any answer it has printed what
    the user is consenting to: the heading, the description, the command as
    the operation holds it (without the [sudo] the orchestrator will put
    before it) and the permission level, then at most one warning line, and
    only then the first question.  On a standard output that takes these
    lines and the question, that is how the trace of the gate begins; and
    on any standard output, whatever the gate did before its first question
    is exactly that. *)
Theorem gate_shows_operation_before_asking operation st :
  requires_user_approval operation = true ->
  (stdout_takes st (gate_banner operation ++ [proceed_prompt]) ->
   exists warning rest,
     trace (snd (request_permission operation st))
     = trace st
       ++ [EvPrint (10 :: 128274 :: str " Privileged Operation Required");
           EvPrint (str "Description: " ++ description operation);
           EvPrint (str "Command: " ++ join (str " ") (command operation));
           EvPrint (str "Permission Level: " ++ level_value (permission_level operation))]
       ++ warning ++ EvInput proceed_prompt :: rest
     /\ (length warning <= 1)%nat
     /\ input_count warning = O)
  /\ (forall before prompt rest,
        trace (snd (request_permission operation st))
        = trace st ++ before ++ EvInput prompt :: rest ->
        input_count before = O ->
        prompt = proceed_prompt
        /\ exists warning,
             before
             = [EvPrint (10 :: 128274 :: str " Privileged Operation Required");
                EvPrint (str "Description: " ++ description operation);
                EvPrint (str "Command: " ++ join (str " ") (command operation));
                EvPrint (str "Permission Level: "
                         ++ level_value (permission_level operation))]
               ++ warning
             /\ (length warning <= 1)%nat
             /\ input_count warning = O).
Proof.
  intros APPROVAL.
  destruct (@gate_trace operation st APPROVAL) as (shown & tail & T & CASES & ALL).
  destruct (gate_banner_shape operation) as (warning & SHAPE & SHORT & SILENT).
  split.
  - intros TAKES. destruct (ALL TAKES) as (-> & rest & ->).
    exists warning, rest. rewrite T, SHAPE, <- !List.app_assoc.
    repeat split; assumption.
  - intros before prompt rest T2 NONE.
    rewrite T in T2. apply app_inv_head in T2.
    destruct (@first_input_after_prints _ _ _ _ _ T2 NONE) as (FULL & FIRST).
    destruct CASES as [->|(-> & more & ->)]; [contradiction FULL; reflexivity|].
    destruct (FIRST _ _ eq_refl) as (-> & ->).
    split; [reflexivity|]. exists warning. repeat split; assumption.
Qed.

Lemma gate_shows_operation_before_asking_witness :
  exists warning rest,
    trace (snd (request_permission chmod_operation (fresh_manager [str "y"])))
    = trace (fresh_manager [str "y"])
      ++ [EvPrint (10 :: 128274 :: str " Privileged Operation Required");
          EvPrint (str "Description: " ++ description chmod_operation);
          EvPrint (str "Command: " ++ join (str " ") (command chmod_operation));
          EvPrint (str "Permission Level: "
                   ++ level_value (permission_level chmod_operation))]
      ++ warning ++ EvInput proceed_prompt :: rest
    /\ (length warning <= 1)%nat
    /\ input_count warning = O.
Proof.
  exact (proj1 (@gate_shows_operation_before_asking chmod_operation
                  (fresh_manager [str "y"]) eq_refl)
           (fun text _ => eq_refl)).
Defined.

(** X21.  When escalation is needed and the call gets past the gate, the
    process that runs is [sudo] followed by the command, but the audit entry
    names the command as the operation holds it, joined by spaces, without
    the [sudo]: the record shows the elevation only through its level. *)
Theorem audit_names_command_without_sudo os operation st r m :
  needs_escalation operation st = true ->
  fst (execute_with_escalation os operation st) = Ret (r, m) ->
  r <> USER_CANCELLED ->
  popen_calls (trace (snd (execute_with_escalation os operation st)))
  = popen_calls (trace st)
    ++ [(str "sudo" :: command operation, working_directory operation,
         spawned_env os operation)]
  /\ exists entry,
       session_operations (snd (execute_with_escalation os operation st))
       = session_operations st ++ [entry]
       /\ AuditEntry.operation entry = join (str " ") (command operation)
       /\ AuditEntry.permission_level entry = level_value (permission_level operation).
Proof.
  intros NEEDS RUN PASSED. split.
  - rewrite execute_popen_calls, RUN. unfold spawned_argv. rewrite NEEDS.
    destruct r; try reflexivity. contradiction.
  - destruct (execute_session_step os operation st) as (_ & S).
    rewrite RUN in S. eexists. split; [exact S|]. split; reflexivity.
Qed.

Lemma audit_names_command_without_sudo_witness :
  exists entry,
    session_operations
      (snd (execute_with_escalation (os_answers exits_zero None) chmod_operation
              (fresh_manager [str "y"])))
    = session_operations (fresh_manager [str "y"]) ++ [entry]
    /\ AuditEntry.operation entry = join (str " ") (command chmod_operation)
    /\ AuditEntry.permission_level entry
       = level_value (permission_level chmod_operation).
Proof.
  refine (proj2 (@audit_names_command_without_sudo (os_answers exits_zero None)
                   chmod_operation (fresh_manager [str "y"]) SUCCESS (str "ok")
                   eq_refl _ _)).
  - vm_compute. reflexivity.
  - discriminate.
Defined.

(* ================================================================== *)
(** * The outcomes of a call, read backwards *)

Lemma process_outcome_denied os operation m :
  process_outcome os operation = (PERMISSION_DENIED, m) ->
  m = str "Permission denied - unable to execute command"
  /\ exists e,
       exn_cls e = PermissionError
       /\ (popen_raises os = Some e
           \/ (popen_raises os = None /\ communicate_result os = inl e)).
Proof.
  unfold process_outcome, handled.
  destruct (popen_raises os) as [e|].
  - destruct (exn_cls e) eqn:CLS; intros H; try discriminate.
    injection H as <-. split; [reflexivity|]. exists e. auto.
  - destruct (communicate_result os) as [e|[[out err] rc]].
    + destruct (exn_cls e) eqn:CLS; intros H; try discriminate.
      injection H as <-. split; [reflexivity|]. exists e. auto.
    + destruct (rc =? 0)%Z; discriminate.
Qed.

Lemma cancelled_is_not r m : r <> USER_CANCELLED -> (r, m) <> cancelled.
Proof. intros NOT H. injection H as -> _. contradiction. Qed.

(** X22.  [execute_with_escalation] returns PERMISSION_DENIED only when
    spawning the process or waiting for it raised [PermissionError], and then
    with the fixed message.  A command that ran and was refused by the
    system, [sudo] included, exits with a code other than 0 and comes back as
    OPERATION_FAILED instead. *)
Theorem permission_denied_only_from_permission_error os operation st m :
  fst (execute_with_escalation os operation st) = Ret (PERMISSION_DENIED, m) ->
  m = str "Permission denied - unable to execute command"
  /\ exists e,
       exn_cls e = PermissionError
       /\ (popen_raises os = Some e
           \/ (popen_raises os = None /\ communicate_result os = inl e)).
Proof.
  intros RUN. destruct (execute_returns _ _ _ RUN) as (st2 & evs & _ & _ & CASES).
  destruct CASES as [(C & _)|(P & _)].
  - discriminate.
  - apply (@process_outcome_denied os operation). symmetry. exact P.
Qed.

Lemma permission_denied_only_from_permission_error_witness :
  exists e, exn_cls e = PermissionError /\ popen_raises spawn_denied = Some e.
Proof.
  destruct (@permission_denied_only_from_permission_error spawn_denied
              chmod_operation (fresh_manager [str "y"])
              (str "Permission denied - unable to execute command") eq_refl)
    as (_ & e & CLS & [P|(P & _)]).
  - exists e. split; [exact CLS | exact P].
  - discriminate.
Defined.

Lemma process_outcome_succeeded os operation m :
  process_outcome os operation = (SUCCESS, m) ->
  popen_raises os = None
  /\ exists out err,
       communicate_result os = inr (out, err, 0%Z)
       /\ m = match out with
              | [] => str "Operation completed successfully"
              | _ => out
              end.
Proof.
  unfold process_outcome, handled.
  destruct (popen_raises os) as [e|].
  - destruct (exn_cls e); discriminate.
  - destruct (communicate_result os) as [e|[[out err] rc]].
    + destruct (exn_cls e); discriminate.
    + destruct (rc =? 0)%Z eqn:RC; [|discriminate].
      apply Z.eqb_eq in RC. subst rc. intros H. injection H as <-.
      split; [reflexivity|]. exists out, err. split; reflexivity.
Qed.

(** X23.  [execute_with_escalation] returns SUCCESS only when the process
    was spawned and exited with the code 0; the message is then what the
    process wrote to its standard output, or the fixed
    [Operation completed successfully] when it wrote nothing.  What it wrote
    to its standard error is dropped. *)
Theorem success_means_exit_zero os operation st m :
  fst (execute_with_escalation os operation st) = Ret (SUCCESS, m) ->
  popen_raises os = None
  /\ exists out err,
       communicate_result os = inr (out, err, 0%Z)
       /\ m = match out with
              | [] => str "Operation completed successfully"
              | _ => out
              end.
Proof.
  intros RUN. destruct (execute_returns _ _ _ RUN) as (st2 & evs & _ & _ & CASES).
  destruct CASES as [(C & _)|(P & _)].
  - discriminate.
  - apply (@process_outcome_succeeded os operation). symmetry. exact P.
Qed.

Lemma success_means_exit_zero_witness :
  exists out err,
    communicate_result (os_answers (inr ([], str "warning: cache disabled", 0%Z)) None)
    = inr (out, err, 0%Z)
    /\ str "Operation completed successfully"
       = match out with
         | [] => str "Operation completed successfully"
         | _ => out
         end.
Proof.
  exact (proj2 (@success_means_exit_zero
                  (os_answers (inr ([], str "warning: cache disabled", 0%Z)) None)
                  chmod_operation (fresh_manager [str "yes"])
                  (str "Operation completed successfully") eq_refl)).
Defined.


